(** * jonathan: the games / live-odds synchronisation service (main.go)

    A shallow embedding of the synchronisation pipeline of [main.go]:
    the odds-format converter [fracToDecimal], the odds-field lookup
    [getOddsField], the stateful pass of [fetchLiveOdds] over a decoded
    [liveodds] response, the aggregation of [fetchAllGames], the two
    write paths [upsertGames] and [insertLiveOdds], and the two
    handlers [/sync-games] and [/update-liveodds].

    The program is Go.  The pieces of the Go standard library it calls
    ([strings], [unicode/utf8], [strconv], [math], [fmt], [encoding/json])
    are modelled first, each after its documented behaviour; Go strings
    are byte strings, here [string]; [float64] is IEEE 754 binary64,
    here [spec_float] with [prec = 53] and [emax = 1024], with the
    operations of [SpecFloat].

    What lies outside the process is explicit:
    - the upstream API is a record [Upstream] that gives, for each
      request, the outcome of [http.Get] followed by the JSON decoding,
      and the reading of the clock;
    - the database is a record [DB]: the two tables as finite maps over
      their primary keys, the clock of the server, and the list of the
      outcomes of the coming round trips, so that every call of the pool
      may fail.  A batch runs in one implicit transaction (as pgx
      documents for [SendBatch]): it is applied as a whole or not at all.
    Within one request both clocks stand still. *)

From Stdlib Require Import ZArith Bool Ascii String List Lia SpecFloat.
From stdpp Require Import gmap strings list fin_maps.

Set Warnings "-register-all".
Open Scope string_scope.
Open Scope list_scope.
Open Scope Z_scope.

(* ===================================================================== *)
(** * Bytes and Go strings *)
(* ===================================================================== *)

(** The value of a byte, [0 .. 255]. *)
Definition byte (c : ascii) : Z := Z.of_N (N_of_ascii c).

Definition chr (z : Z) : ascii := ascii_of_N (Z.to_N z).

(** [s[i:]] and [s[:i]] for [0 <= i <= len(s)]. *)
Fixpoint drop_str (n : nat) (s : string) : string :=
  match n, s with
  | O, _ => s
  | S n', String _ t => drop_str n' t
  | S _, EmptyString => EmptyString
  end.

Fixpoint take_str (n : nat) (s : string) : string :=
  match n, s with
  | S n', String c t => String c (take_str n' t)
  | _, _ => EmptyString
  end.

Fixpoint rev_str_onto (s acc : string) : string :=
  match s with
  | EmptyString => acc
  | String c t => rev_str_onto t (String c acc)
  end.

Definition rev_str (s : string) : string := rev_str_onto s EmptyString.

Definition len (s : string) : Z := Z.of_nat (String.length s).

(** [s[i]], with [0] standing for an index out of range (never read there). *)
Definition at_ (s : string) (i : Z) : Z :=
  if i <? 0 then 0
  else match String.get (Z.to_nat i) s with
       | Some c => byte c
       | None => 0
       end.

(** [s[i:j]]. *)
Definition slice (s : string) (i j : Z) : string :=
  take_str (Z.to_nat (j - i)) (drop_str (Z.to_nat i) s).

(* ===================================================================== *)
(** * unicode/utf8 and unicode *)
(* ===================================================================== *)

Module utf8.

Definition RuneError : Z := 65533.
Definition RuneSelf : Z := 128.
Definition UTFMax : Z := 4.

Definition between (lo hi x : Z) : bool := (lo <=? x) && (x <=? hi).

(** [utf8.DecodeRuneInString]: the first rune of [s] and its width in
    bytes; [(RuneError, 0)] for the empty string and [(RuneError, 1)]
    for an encoding that is invalid (a stray continuation byte, an
    overlong form, a surrogate, a value above U+10FFFF, a truncated
    sequence). *)
Definition DecodeRuneInString (s : string) : Z * Z :=
  match s with
  | EmptyString => (RuneError, 0)
  | String c0 t =>
    let s0 := byte c0 in
    if s0 <? RuneSelf then (s0, 1)
    else if (s0 <? 194) || (244 <? s0) then (RuneError, 1)
    else if s0 <? 224 then
      match t with
      | String c1 _ =>
        let s1 := byte c1 in
        if between 128 191 s1
        then (Z.lor (Z.shiftl (Z.land s0 31) 6) (Z.land s1 63), 2)
        else (RuneError, 1)
      | _ => (RuneError, 1)
      end
    else if s0 <? 240 then
      match t with
      | String c1 (String c2 _) =>
        let s1 := byte c1 in
        let s2 := byte c2 in
        let lo := if s0 =? 224 then 160 else 128 in
        let hi := if s0 =? 237 then 159 else 191 in
        if between lo hi s1 && between 128 191 s2
        then (Z.lor (Z.shiftl (Z.land s0 15) 12)
                (Z.lor (Z.shiftl (Z.land s1 63) 6) (Z.land s2 63)), 3)
        else (RuneError, 1)
      | _ => (RuneError, 1)
      end
    else
      match t with
      | String c1 (String c2 (String c3 _)) =>
        let s1 := byte c1 in
        let s2 := byte c2 in
        let s3 := byte c3 in
        let lo := if s0 =? 240 then 144 else 128 in
        let hi := if s0 =? 244 then 143 else 191 in
        if between lo hi s1 && between 128 191 s2 && between 128 191 s3
        then (Z.lor (Z.shiftl (Z.land s0 7) 18)
                (Z.lor (Z.shiftl (Z.land s1 63) 12)
                   (Z.lor (Z.shiftl (Z.land s2 63) 6) (Z.land s3 63))), 4)
        else (RuneError, 1)
      | _ => (RuneError, 1)
      end
  end.

(** [utf8.RuneStart]: not a continuation byte. *)
Definition RuneStart (b : Z) : bool := negb (Z.land b 192 =? 128).

(** The backwards search of [DecodeLastRuneInString] for the start of
    the last rune: from [start] down to [lim]. *)
Fixpoint back_to_start (fuel : nat) (s : string) (start lim : Z) : Z :=
  match fuel with
  | O => start
  | S fuel' =>
    if start <? lim then start
    else if RuneStart (at_ s start) then start
    else back_to_start fuel' s (start - 1) lim
  end.

(** [utf8.DecodeLastRuneInString]. *)
Definition DecodeLastRuneInString (s : string) : Z * Z :=
  let e := len s in
  if e =? 0 then (RuneError, 0)
  else
    let r := at_ s (e - 1) in
    if r <? RuneSelf then (r, 1)
    else
      let lim := Z.max 0 (e - UTFMax) in
      let start := Z.max 0 (back_to_start 4 s (e - 2) lim) in
      let '(r, size) := DecodeRuneInString (slice s start e) in
      if start + size =? e then (r, size) else (RuneError, 1).

End utf8.

Module unicode.

(** [unicode.IsSpace]: the Latin-1 spaces and the code points with the
    White_Space property. *)
Definition IsSpace (r : Z) : bool :=
  if (0 <=? r) && (r <=? 255) then
    utf8.between 9 13 r || (r =? 32) || (r =? 133) || (r =? 160)
  else
    (r =? 5760) || utf8.between 8192 8202 r || (r =? 8232) || (r =? 8233)
    || (r =? 8239) || (r =? 8287) || (r =? 12288).

End unicode.

(* ===================================================================== *)
(** * strings *)
(* ===================================================================== *)

Module strings.

(** The table [asciiSpace] of [strings.TrimSpace]:
    ['\t'], ['\n'], ['\v'], ['\f'], ['\r'] and [' ']. *)
Definition asciiSpace (b : Z) : bool := utf8.between 9 13 b || (b =? 32).

(** [indexFunc(s, f, false)] followed by [s[i:]]: drop the leading
    runes that satisfy [f]. *)
Fixpoint TrimLeftFunc_go (fuel : nat) (s : string) (f : Z -> bool) : string :=
  match fuel with
  | O => s
  | S fuel' =>
    match s with
    | EmptyString => EmptyString
    | _ =>
      let '(r, w) := utf8.DecodeRuneInString s in
      if f r then TrimLeftFunc_go fuel' (drop_str (Z.to_nat w) s) f else s
    end
  end.

Definition TrimLeftFunc (s : string) (f : Z -> bool) : string :=
  TrimLeftFunc_go (String.length s) s f.

(** [lastIndexFunc(s, f, false)]: the start of the last rune that
    does not satisfy [f], or [-1]. *)
Fixpoint lastIndexFunc_go (fuel : nat) (s : string) (i : Z) (f : Z -> bool) : Z :=
  match fuel with
  | O => -1
  | S fuel' =>
    if i <=? 0 then -1
    else
      let '(r, size) := utf8.DecodeLastRuneInString (slice s 0 i) in
      let i' := i - size in
      if f r then lastIndexFunc_go fuel' s i' f else i'
  end.

Definition TrimRightFunc (s : string) (f : Z -> bool) : string :=
  let i := lastIndexFunc_go (String.length s) s (len s) f in
  let i :=
    if (0 <=? i) && (utf8.RuneSelf <=? at_ s i)
    then i + snd (utf8.DecodeRuneInString (slice s i (len s)))
    else i + 1 in
  slice s 0 i.

Definition TrimFunc (s : string) (f : Z -> bool) : string :=
  TrimRightFunc (TrimLeftFunc s f) f.

(** The first loop of [TrimSpace]: skip ASCII spaces; [inr] when a
    non-ASCII byte is met (the Unicode-aware path takes over on the
    rest), [inl] with what is left otherwise. *)
Fixpoint trim_ascii_left (s : string) : string + string :=
  match s with
  | EmptyString => inl EmptyString
  | String c t =>
    if utf8.RuneSelf <=? byte c then inr s
    else if asciiSpace (byte c) then trim_ascii_left t
    else inl s
  end.

(** [strings.TrimSpace]. The second loop runs from the end, so it is
    written over the reversed string. *)
Definition TrimSpace (s : string) : string :=
  match trim_ascii_left s with
  | inr rest => TrimFunc rest unicode.IsSpace
  | inl rest =>
    match trim_ascii_left (rev_str rest) with
    | inr r => TrimRightFunc (rev_str r) unicode.IsSpace
    | inl r => rev_str r
    end
  end.

Fixpoint HasPrefix (s prefix : string) : bool :=
  match prefix, s with
  | EmptyString, _ => true
  | String p ps, String c cs => Ascii.eqb p c && HasPrefix cs ps
  | String _ _, EmptyString => false
  end.

(** [explode]: the split of [s] into its UTF-8 sequences. *)
Fixpoint explode (fuel : nat) (s : string) : list string :=
  match fuel with
  | O => []
  | S fuel' =>
    match s with
    | EmptyString => []
    | _ =>
      let w := Z.to_nat (snd (utf8.DecodeRuneInString s)) in
      take_str w s :: explode fuel' (drop_str w s)
    end
  end.

(** [genSplit] for a separator that is not empty: [cur] is the part
    read since the last separator, reversed. *)
Fixpoint split_go (fuel : nat) (s sep cur : string) : list string :=
  match fuel with
  | O => [rev_str cur]
  | S fuel' =>
    match s with
    | EmptyString => [rev_str cur]
    | String c t =>
      if HasPrefix s sep
      then rev_str cur :: split_go fuel' (drop_str (String.length sep) s) sep EmptyString
      else split_go fuel' t sep (String c cur)
    end
  end.

(** [strings.Split]. *)
Definition Split (s sep : string) : list string :=
  match sep with
  | EmptyString => explode (String.length s) s
  | _ => split_go (String.length s) s sep EmptyString
  end.

End strings.

(* ===================================================================== *)
(** * Go values shared by the rest: errors *)
(* ===================================================================== *)

(** A Go [error] that is not [nil].  The program only tests errors
    against [nil], wraps them ([fmt.Errorf] with [%w]) and hands them to
    the HTTP response. *)
Inductive go_error : Type :=
| ErrSyntax (fn num : string)          (* strconv: invalid syntax *)
| ErrRange (fn num : string)           (* strconv: value out of range *)
| ErrExternal (msg : string)           (* transport, decoding, database *)
| ErrWrap (prefix : string) (e : go_error).

(** [error]: [None] is [nil]. *)
Definition error : Type := option go_error.

(** [err != nil] *)
Definition not_nil (err : error) : bool :=
  match err with Some _ => true | None => false end.

(* ===================================================================== *)
(** * float64 and math *)
(* ===================================================================== *)

Definition float64 : Type := spec_float.

Module f64.

Definition prec : Z := 53.
Definition emax : Z := 1024.

Definition add (x y : float64) : float64 := SFadd prec emax x y.
Definition mul (x y : float64) : float64 := SFmul prec emax x y.
Definition div (x y : float64) : float64 := SFdiv prec emax x y.
(** [x == y] *)
Definition eqb (x y : float64) : bool := SFeqb x y.

(** A constant that is an integer. *)
Definition of_Z (n : Z) : float64 := binary_normalize prec emax n 0 false.

(** The float nearest to [n / d] (ties to even), with sign [neg]. *)
Definition of_ratio (neg : bool) (n d : positive) : float64 :=
  let '(mz, ez, lz) := SFdiv_core_binary prec emax (Zpos n) 0 (Zpos d) 0 in
  binary_round_aux prec emax neg mz ez lz.

Definition is_inf (x : float64) : bool :=
  match x with S754_infinity _ => true | _ => false end.

End f64.

Module math.

(** [math.Round]: the nearest integer, halves away from zero; zeros,
    infinities and NaN are returned unchanged. *)
Definition Round (x : float64) : float64 :=
  match x with
  | S754_finite s m e =>
    if 0 <=? e then x
    else
      let d := 2 ^ (- e) in
      let q := Zpos m / d in
      let r := Zpos m mod d in
      let n := if d <=? 2 * r then q + 1 else q in
      binary_normalize f64.prec f64.emax (if s then - n else n) 0 s
  | _ => x
  end.

End math.

(* ===================================================================== *)
(** * strconv *)
(* ===================================================================== *)

Module strconv.

(** [lower(c)]: [c | ('x' - 'X')]. *)
Definition lower (c : Z) : Z := Z.lor c 32.

Definition is_digit (c : Z) : bool := utf8.between 48 57 c.
Definition is_hex_letter (c : Z) : bool := utf8.between 97 102 (lower c).

Fixpoint commonPrefixLenIgnoreCase (s pfx : string) : Z :=
  match s, pfx with
  | String c s', String p pfx' =>
    let b := byte c in
    let b := if utf8.between 65 90 b then b + 32 else b in
    if b =? byte p then 1 + commonPrefixLenIgnoreCase s' pfx' else 0
  | _, _ => 0
  end.

Definition special_inf (neg : bool) (nsign : Z) (s : string) : option (float64 * Z) :=
  let n := commonPrefixLenIgnoreCase s "infinity" in
  let n := if (3 <? n) && (n <? 8) then 3 else n in
  if (n =? 3) || (n =? 8) then Some (S754_infinity neg, nsign + n) else None.

(** [special]: a (signed) "inf" or "infinity", or "nan", in any case,
    at the start of [s]; the value and the number of bytes read. *)
Definition special (s : string) : option (float64 * Z) :=
  match s with
  | EmptyString => None
  | String c t =>
    let b := byte c in
    if b =? 43 then special_inf false 1 t
    else if b =? 45 then special_inf true 1 t
    else if (b =? 105) || (b =? 73) then special_inf false 0 s
    else if (b =? 110) || (b =? 78) then
      if commonPrefixLenIgnoreCase s "nan" =? 3 then Some (S754_nan, 3) else None
    else None
  end.

(** The state of [readFloat]'s loop over the digits.  The mantissa is
    kept in full ([readFloat] keeps 19 digits and a flag for the rest,
    and the conversion makes up for it), so [rf_nd] counts its digits. *)
Record digits_state : Type := {
  rf_mant : Z;
  rf_nd : Z;
  rf_dp : Z;
  rf_sawdot : bool;
  rf_sawdigits : bool;
  rf_underscores : bool
}.

Definition digits_init : digits_state :=
  {| rf_mant := 0; rf_nd := 0; rf_dp := 0; rf_sawdot := false;
     rf_sawdigits := false; rf_underscores := false |}.

Fixpoint read_digits (hex : bool) (st : digits_state) (s : string)
  : digits_state * string :=
  match s with
  | EmptyString => (st, s)
  | String ch t =>
    let c := byte ch in
    let base := if hex then 16 else 10 in
    if c =? 95 then
      read_digits hex {| rf_mant := rf_mant st; rf_nd := rf_nd st; rf_dp := rf_dp st;
                         rf_sawdot := rf_sawdot st; rf_sawdigits := rf_sawdigits st;
                         rf_underscores := true |} t
    else if c =? 46 then
      if rf_sawdot st then (st, s)
      else
        read_digits hex {| rf_mant := rf_mant st; rf_nd := rf_nd st; rf_dp := rf_nd st;
                           rf_sawdot := true; rf_sawdigits := rf_sawdigits st;
                           rf_underscores := rf_underscores st |} t
    else if is_digit c then
      if (c =? 48) && (rf_nd st =? 0) then
        read_digits hex {| rf_mant := rf_mant st; rf_nd := rf_nd st; rf_dp := rf_dp st - 1;
                           rf_sawdot := rf_sawdot st; rf_sawdigits := true;
                           rf_underscores := rf_underscores st |} t
      else
        read_digits hex {| rf_mant := rf_mant st * base + (c - 48); rf_nd := rf_nd st + 1;
                           rf_dp := rf_dp st; rf_sawdot := rf_sawdot st;
                           rf_sawdigits := true;
                           rf_underscores := rf_underscores st |} t
    else if hex && is_hex_letter c then
      read_digits hex {| rf_mant := rf_mant st * 16 + (lower c - 97 + 10);
                         rf_nd := rf_nd st + 1; rf_dp := rf_dp st;
                         rf_sawdot := rf_sawdot st; rf_sawdigits := true;
                         rf_underscores := rf_underscores st |} t
    else (st, s)
  end.

(** The digits of the exponent: [e] stops growing at 10000. *)
Fixpoint read_exp_digits (e : Z) (us : bool) (s : string) : Z * bool * string :=
  match s with
  | EmptyString => (e, us, s)
  | String ch t =>
    let c := byte ch in
    if c =? 95 then read_exp_digits e true t
    else if is_digit c then
      read_exp_digits (if e <? 10000 then e * 10 + (c - 48) else e) us t
    else (e, us, s)
  end.

(** The optional exponent: [None] when it is malformed (or missing
    from a hexadecimal mantissa), else the shift of the decimal point,
    whether an underscore was seen, and the rest. *)
Definition read_exponent (hex : bool) (s : string) : option (Z * bool * string) :=
  let expChar := if hex then 112 else 101 in
  match s with
  | String ch t =>
    if lower (byte ch) =? expChar then
      match t with
      | EmptyString => None
      | String c1 t1 =>
        let '(esign, t2) :=
          if byte c1 =? 43 then (1, t1)
          else if byte c1 =? 45 then (-1, t1)
          else (1, t) in
        match t2 with
        | String d _ =>
          if is_digit (byte d) then
            let '(e, us, rest) := read_exp_digits 0 false t2 in
            Some (e * esign, us, rest)
          else None
        | EmptyString => None
        end
      end
    else if hex then None else Some (0, false, s)
  | EmptyString => if hex then None else Some (0, false, s)
  end.

(** [underscoreOK]: underscores only between digits, or between a base
    prefix and a digit.  [saw] is ['0'] (48) after a digit or a base
    prefix, ['_'] (95) after an underscore, ['!'] (33) otherwise. *)
Fixpoint underscoreOK_go (hex : bool) (saw : Z) (s : string) : bool :=
  match s with
  | EmptyString => negb (saw =? 95)
  | String ch t =>
    let c := byte ch in
    if is_digit c || (hex && is_hex_letter c) then underscoreOK_go hex 48 t
    else if c =? 95 then
      if negb (saw =? 48) then false else underscoreOK_go hex 95 t
    else if saw =? 95 then false
    else underscoreOK_go hex 33 t
  end.

Definition underscoreOK (s : string) : bool :=
  let s := match s with
           | String c t => if (byte c =? 45) || (byte c =? 43) then t else s
           | EmptyString => s
           end in
  match s with
  | String c0 (String c1 t) =>
    let l := lower (byte c1) in
    if (byte c0 =? 48) && ((l =? 98) || (l =? 111) || (l =? 120))
    then underscoreOK_go (l =? 120) 48 t
    else underscoreOK_go false 94 s
  | _ => underscoreOK_go false 94 s
  end.

(** What [readFloat] returns when it accepts a prefix of [s]. *)
Record read_float : Type := {
  r_neg : bool;
  r_hex : bool;
  r_mant : Z;      (* the digits of the mantissa, as an integer *)
  r_exp : Z;       (* the value is [r_mant * base ^ r_exp], base 10, or 2 when [r_hex] *)
  r_rest : string  (* [s[i:]] *)
}.

Definition readFloat (s : string) : option read_float :=
  match s with
  | EmptyString => None
  | String c0 t0 =>
    let '(neg, s1) :=
      if byte c0 =? 43 then (false, t0)
      else if byte c0 =? 45 then (true, t0)
      else (false, s) in
    let '(hex, s2) :=
      match s1 with
      | String z (String x (String y t)) =>
        if (byte z =? 48) && (lower (byte x) =? 120) then (true, String y t) else (false, s1)
      | _ => (false, s1)
      end in
    let '(st, s3) := read_digits hex digits_init s2 in
    if negb (rf_sawdigits st) then None
    else
      let dp := if rf_sawdot st then rf_dp st else rf_nd st in
      let dp := if hex then dp * 4 else dp in
      let nd := if hex then rf_nd st * 4 else rf_nd st in
      match read_exponent hex s3 with
      | None => None
      | Some (shift, us, rest) =>
        let dp := dp + shift in
        let consumed := take_str (String.length s - String.length rest) s in
        if (rf_underscores st || us) && negb (underscoreOK consumed) then None
        else Some {| r_neg := neg; r_hex := hex; r_mant := rf_mant st;
                     r_exp := if rf_mant st =? 0 then 0 else dp - nd;
                     r_rest := rest |}
      end
  end.

(** The value of what [readFloat] read: the nearest [float64], ties to
    even; a magnitude too large gives an infinity (and the caller a
    range error), one too small a zero. *)
Definition float_value (r : read_float) : float64 :=
  match r_mant r with
  | Zpos m =>
    if r_hex r then binary_round f64.prec f64.emax (r_neg r) m (r_exp r)
    else if 0 <=? r_exp r
    then binary_round f64.prec f64.emax (r_neg r) (m * Z.to_pos (10 ^ r_exp r)) 0
    else f64.of_ratio (r_neg r) m (Z.to_pos (10 ^ (- r_exp r)))
  | _ => S754_zero (r_neg r)
  end.

(** [atof64]: the value, the number of bytes read, the error. *)
Definition atof64 (s : string) : float64 * Z * error :=
  match special s with
  | Some (v, n) => (v, n, None)
  | None =>
    match readFloat s with
    | None => (f64.of_Z 0, 0, Some (ErrSyntax "ParseFloat" s))
    | Some r =>
      let n := len s - len (r_rest r) in
      let f := float_value r in
      (f, n, if f64.is_inf f then Some (ErrRange "ParseFloat" s) else None)
    end
  end.

(** [strconv.ParseFloat(s, 64)]. *)
Definition ParseFloat (s : string) : float64 * error :=
  let '(f, n, err) := atof64 s in
  if negb (n =? len s)
     && match err with Some (ErrSyntax _ _) => false | _ => true end
  then (f64.of_Z 0, Some (ErrSyntax "ParseFloat" s))
  else (f, err).

(** ** strconv.FormatFloat with precision [-1] (strconv.go) *)

(** The decimal digits of [n > 0], most significant first. *)
Fixpoint itoa_go (fuel : nat) (n : Z) (acc : string) : string :=
  let acc' := String (chr (48 + n mod 10)) acc in
  match fuel with
  | O => acc'
  | S fuel' => if n <? 10 then acc' else itoa_go fuel' (n / 10) acc'
  end.

Definition itoa (n : Z) : string := itoa_go (Z.to_nat (Z.log2 n)) n EmptyString.

(** [x] lies in the rounding interval [[lo, hi]] of the float; the
    ends belong to it when the mantissa is even. *)
Definition inside (incl : bool) (lo hi x : Z) : bool :=
  if incl then (lo <=? x) && (x <=? hi) else (lo <? x) && (x <? hi).

(** The search for the shortest decimal that reads back as the float.
    All quantities are integers after scaling: [v] is the float, [lo]
    and [hi] the ends of its rounding interval, and stage [j] tries the
    multiples of [4 * 10 ^ j] next to [v]; stage [0] is [v] itself. The
    result is the multiple chosen and its stage. *)
Fixpoint shortest_go (j : nat) (incl : bool) (v lo hi : Z) : Z * Z :=
  match j with
  | O => (v / 4, 0)
  | S j' =>
    let u := 4 * 10 ^ Z.of_nat j in
    let c1 := v / u in
    let c2 := c1 + 1 in
    let ok1 := (0 <? c1) && inside incl lo hi (c1 * u) in
    let ok2 := inside incl lo hi (c2 * u) in
    let r := v - c1 * u in
    let up := (u <? 2 * r) || ((u =? 2 * r) && Z.odd c1) in
    if ok1 && ok2 then (if up then c2 else c1, Z.of_nat j)
    else if ok1 then (c1, Z.of_nat j)
    else if ok2 then (c2, Z.of_nat j)
    else shortest_go j' incl v lo hi
  end.

(** The shortest digits of the finite float [m * 2 ^ e], [m > 0]:
    the digits and the position [dp] of the decimal point (the value
    is [0.d1d2... * 10 ^ dp]). *)
Definition shortest (m : positive) (e : Z) : string * Z :=
  let w := if 0 <=? e then 2 ^ e else 5 ^ (- e) in
  let k0 := Z.min e 0 in
  let v := 4 * Zpos m * w in
  let closer := (Zpos m =? 2 ^ (f64.prec - 1)) && (3 - f64.emax - f64.prec <? e) in
  let lo := v - (if closer then w else 2 * w) in
  let hi := v + 2 * w in
  let '(c, j) := shortest_go (Z.to_nat (Z.log2 v / 3 + 1)) (Z.even (Zpos m)) v lo hi in
  let d := itoa c in
  (d, len d + j + k0).

Fixpoint zeros (n : nat) : string :=
  match n with O => EmptyString | S n' => String "0" (zeros n') end.

(** The digit [d[j]], ['0'] outside of [d]. *)
Definition digit_at (d : string) (j : Z) : ascii :=
  if j <? 0 then "0"%char
  else match String.get (Z.to_nat j) d with Some c => c | None => "0"%char end.

Fixpoint fraction (d : string) (dp : Z) (i : Z) (n : nat) : string :=
  match n with
  | O => EmptyString
  | S n' => String (digit_at d (dp + i)) (fraction d dp (i + 1) n')
  end.

(** [%f]: [fmtF] with [prec] digits after the point. *)
Definition fmtF (neg : bool) (d : string) (dp : Z) (prec : Z) : string :=
  (if neg then "-" else "")
  +:+ (if 0 <? dp
       then let m := Z.min (len d) dp in
            take_str (Z.to_nat m) d +:+ zeros (Z.to_nat (dp - m))
       else "0")
  +:+ (if 0 <? prec then "." +:+ fraction d dp 0 (Z.to_nat prec) else "").

(** [%e]: [fmtE] with [prec] digits after the point. *)
Definition fmtE (neg : bool) (d : string) (dp : Z) (prec : Z) : string :=
  let nd := len d in
  let exp := if nd =? 0 then 0 else dp - 1 in
  let a := Z.abs exp in
  (if neg then "-" else "")
  +:+ String (digit_at d 0) ""
  +:+ (if 0 <? prec
       then let m := Z.min nd (prec + 1) in
            "." +:+ slice d 1 (Z.max 1 m) +:+ zeros (Z.to_nat (prec + 1 - Z.max 1 m))
       else "")
  +:+ "e" +:+ (if exp <? 0 then "-" else "+")
  +:+ (if a <? 10 then String "0" (String (chr (48 + a)) "")
       else if a <? 100 then String (chr (48 + a / 10)) (String (chr (48 + a mod 10)) "")
       else String (chr (48 + a / 100))
              (String (chr (48 + (a / 10) mod 10)) (String (chr (48 + a mod 10)) ""))).

(** [strconv.FormatFloat(f, fmt, -1, 64)] for [fmt] one of ['e'],
    ['f'] and ['g']: the shortest digits that identify [f]. *)
Definition FormatFloat (f : float64) (fmt : ascii) : string :=
  match f with
  | S754_nan => "NaN"
  | S754_infinity true => "-Inf"
  | S754_infinity false => "+Inf"
  | _ =>
    let '(neg, (d, dp)) :=
      match f with
      | S754_finite s m e => (s, shortest m e)
      | S754_zero s => (s, (EmptyString, 0))
      | _ => (false, (EmptyString, 0))
      end in
    let nd := len d in
    if Ascii.eqb fmt "e" then fmtE neg d dp (Z.max (nd - 1) 0)
    else if Ascii.eqb fmt "f" then fmtF neg d dp (Z.max (nd - dp) 0)
    else
      (* 'g': %e when the exponent is below -4 or at least 6 *)
      let exp := dp - 1 in
      if (exp <? -4) || (6 <=? exp) then fmtE neg d dp (nd - 1)
      else fmtF neg d dp (Z.max (nd - dp) 0)
  end.

(** ** strconv.ParseInt (atoi.go) *)

Fixpoint all_digits (s : string) : bool :=
  match s with
  | EmptyString => true
  | String c t => strconv.is_digit (byte c) && all_digits t
  end.

Fixpoint digits_value (acc : Z) (s : string) : Z :=
  match s with
  | EmptyString => acc
  | String c t => digits_value (acc * 10 + (byte c - 48)) t
  end.

(** [strconv.ParseInt(s, 10, 64)]: an optional sign and decimal
    digits; out of the range of [int64] the nearest bound comes with a
    range error. *)
Definition ParseInt (s : string) : Z * error :=
  match s with
  | EmptyString => (0, Some (ErrSyntax "ParseInt" s))
  | String c t =>
    let '(neg, ds) :=
      if byte c =? 43 then (false, t)
      else if byte c =? 45 then (true, t)
      else (false, s) in
    match ds with
    | EmptyString => (0, Some (ErrSyntax "ParseInt" s))
    | _ =>
      if all_digits ds then
        let un := digits_value 0 ds in
        let cutoff := 2 ^ 63 in
        if negb neg && (cutoff <=? un) then (cutoff - 1, Some (ErrRange "ParseInt" s))
        else if neg && (cutoff <? un) then (- cutoff, Some (ErrRange "ParseInt" s))
        else (if neg then - un else un, None)
      else (0, Some (ErrSyntax "ParseInt" s))
    end
  end.

End strconv.

(* ===================================================================== *)
(** * The dynamic values of a decoded JSON document: [any] *)
(* ===================================================================== *)

(** What [encoding/json] stores in an [any]: [nil] for [null], [bool],
    [float64] for every number, [string], [[]any] and [map[string]any]. *)
Inductive any : Type :=
| ANil
| ABool (b : bool)
| AFloat (f : float64)
| AString (s : string)
| ASlice (l : list any)
| AMap (m : gmap string any).

(** [m[k]] on a [map[string]any]: [nil] when the key is missing. *)
Definition mapindex (m : gmap string any) (k : string) : any :=
  match m !! k with
  | Some v => v
  | None => ANil
  end.

Fixpoint join (sep : string) (l : list string) : string :=
  match l with
  | [] => EmptyString
  | [x] => x
  | x :: rest => x +:+ sep +:+ join sep rest
  end.

(** Insertion into a list of pairs sorted by key (bytewise). *)
Fixpoint insert_sorted {A : Type} (k : string) (v : A) (l : list (string * A))
  : list (string * A) :=
  match l with
  | [] => [(k, v)]
  | (k', v') :: rest =>
    if String.leb k k' then (k, v) :: l else (k', v') :: insert_sorted k v rest
  end.

(** The entries of a map in the order of their keys: the order in
    which [fmt] prints a map and [encoding/json] writes an object. *)
Definition sorted_entries {A : Type} (m : gmap string A) : list (string * A) :=
  map_fold (fun k v acc => insert_sorted k v acc) [] m.

Module fmt.

(** [fmt.Sprintf("%v", a)]. *)
Fixpoint Sprintv (a : any) : string :=
  match a with
  | ANil => "<nil>"
  | ABool b => if b then "true" else "false"
  | AFloat f => strconv.FormatFloat f "g"
  | AString s => s
  | ASlice l => "[" +:+ join " " (map Sprintv l) +:+ "]"
  | AMap m =>
    "map["
    +:+ join " "
          (map (fun kv => fst kv +:+ ":" +:+ snd kv)
             (map_fold (fun k v acc => insert_sorted k (Sprintv v) acc) [] m))
    +:+ "]"
  end.

End fmt.

Module json.

Definition quote : string := String (chr 34) EmptyString.

Definition hex_digit (n : Z) : ascii :=
  if n <? 10 then chr (48 + n) else chr (97 + n - 10).

(** [htmlSafeSet]: the ASCII bytes written as they are. *)
Definition htmlSafe (b : Z) : bool :=
  (32 <=? b) && negb ((b =? 34) || (b =? 38) || (b =? 60) || (b =? 62) || (b =? 92)).

Definition escape_byte (b : Z) : string :=
  if (b =? 92) || (b =? 34) then String "\" (String (chr b) "")
  else if b =? 8 then "\b"
  else if b =? 12 then "\f"
  else if b =? 10 then "\n"
  else if b =? 13 then "\r"
  else if b =? 9 then "\t"
  else "\u00" +:+ String (hex_digit (b / 16)) (String (hex_digit (b mod 16)) "").

(** The body of a JSON string, with HTML escaping. *)
Fixpoint appendString_go (fuel : nat) (s : string) : string :=
  match fuel with
  | O => EmptyString
  | S fuel' =>
    match s with
    | EmptyString => EmptyString
    | String c t =>
      let b := byte c in
      if b <? utf8.RuneSelf then
        (if htmlSafe b then String c "" else escape_byte b) +:+ appendString_go fuel' t
      else
        let '(r, size) := utf8.DecodeRuneInString (take_str 4 s) in
        if (r =? utf8.RuneError) && (size =? 1) then
          "\ufffd" +:+ appendString_go fuel' t
        else if (r =? 8232) || (r =? 8233) then
          "\u202" +:+ String (hex_digit (Z.land r 15)) ""
          +:+ appendString_go fuel' (drop_str (Z.to_nat size) s)
        else
          take_str (Z.to_nat size) s +:+ appendString_go fuel' (drop_str (Z.to_nat size) s)
    end
  end.

Definition encode_string (s : string) : string :=
  quote +:+ appendString_go (String.length s) s +:+ quote.

(** "e-09" becomes "e-9". *)
Definition clean_exp (s : string) : string :=
  let n := len s in
  if (4 <=? n) && (at_ s (n - 4) =? 101)
     && ((at_ s (n - 3) =? 45) || (at_ s (n - 3) =? 43)) && (at_ s (n - 2) =? 48)
  then slice s 0 (n - 2) +:+ slice s (n - 1) n
  else s.

(** A number, in the ES6 format; [None] for an infinity or NaN, which
    JSON cannot hold. *)
Definition encode_float (f : float64) : option string :=
  match f with
  | S754_nan | S754_infinity _ => None
  | S754_zero _ => Some (strconv.FormatFloat f "f")
  | S754_finite _ _ _ =>
    let abs := SFabs f in
    if SFltb abs (f64.of_ratio false 1 1000000)
       || SFleb (f64.of_Z (10 ^ 21)) abs
    then Some (clean_exp (strconv.FormatFloat f "e"))
    else Some (strconv.FormatFloat f "f")
  end.

(** All the encodings, or [None] when one failed. *)
Fixpoint all_some {A : Type} (l : list (option A)) : option (list A) :=
  match l with
  | [] => Some []
  | Some x :: rest =>
    match all_some rest with Some xs => Some (x :: xs) | None => None end
  | None :: _ => None
  end.

Fixpoint encode (a : any) : option string :=
  match a with
  | ANil => Some "null"
  | ABool b => Some (if b then "true" else "false")
  | AFloat f => encode_float f
  | AString s => Some (encode_string s)
  | ASlice l =>
    match all_some (map encode l) with
    | Some xs => Some ("[" +:+ join "," xs +:+ "]")
    | None => None
    end
  | AMap m =>
    match all_some
            (map (fun kv => match snd kv with
                            | Some v => Some (encode_string (fst kv) +:+ ":" +:+ v)
                            | None => None
                            end)
               (map_fold (fun k v acc => insert_sorted k (encode v) acc) [] m)) with
    | Some xs => Some ("{" +:+ join "," xs +:+ "}")
    | None => None
    end
  end.

(** [json.Marshal] of a [map[string]any]: the bytes and the error. *)
Definition Marshal (m : gmap string any) : string * error :=
  match encode (AMap m) with
  | Some s => (s, None)
  | None => (EmptyString, Some (ErrExternal "json: unsupported value"))
  end.

End json.

(* ===================================================================== *)
(** * MODELS *)
(* ===================================================================== *)

(** [time.Time]: an instant, in nanoseconds since the Unix epoch. *)
Definition Time : Type := Z.

(** [time.Unix(sec, 0).UTC()] *)
Definition time_Unix (sec : Z) : Time := sec * 1000000000.

Record Game : Type := {
  GameID : string;
  Sport : string;
  Bookmaker : string;
  Source : string;
  League : string;
  Home : string;
  Away : string;
  Scores : string;
  TimeStatus : string;
  StartsAt : option Time
}.

Module Odd.
Record LiveOdd : Type := {
  GameID : string;
  Sport : string;
  Bookmaker : string;
  MarketID : string;
  MarketName : string;
  SelectionID : string;
  SelectionName : string;
  Line : string;
  PriceDec : string;
  PriceFrac : string;
  FetchedAt : Time;
  Raw : string
}.
End Odd.
Abbreviation LiveOdd := Odd.LiveOdd.

Record APIResponse : Type := {
  Success : Z;
  Results : list (list (gmap string any))
}.

(* ===================================================================== *)
(** * HELPERS *)
(* ===================================================================== *)

(** [parseUnixMaybe]: [None] is the [nil] pointer. *)
Definition parseUnixMaybe (s : string) : option Time :=
  let s := strings.TrimSpace s in
  if String.eqb s "" then None
  else
    let '(sec, err) := strconv.ParseInt s in
    match err with
    | Some _ => None
    | None => if sec <=? 0 then None else Some (time_Unix sec)
    end.

(** [fracToDecimal]: the decimal odds, the (trimmed) text, and [ok]. *)
Definition fracToDecimal (odds : string) : string * string * bool :=
  let odds := strings.TrimSpace odds in
  let parts := strings.Split odds "/" in
  match parts with
  | [p0; p1] =>
    let '(a, err1) := strconv.ParseFloat p0 in
    let '(b, err2) := strconv.ParseFloat p1 in
    if not_nil err1 || not_nil err2 || f64.eqb b (f64.of_Z 0)
    then ("", odds, false)
    else
      let d := f64.add (f64.of_Z 1) (f64.div a b) in
      let d := f64.div (math.Round (f64.mul d (f64.of_Z 1000))) (f64.of_Z 1000) in
      (strconv.FormatFloat d "f", odds, true)
  | _ => ("", odds, false)
  end.

(** The loop of [getOddsField] over its list of keys. *)
Fixpoint first_present (keys : list string) (item : gmap string any) : string * bool :=
  match keys with
  | [] => ("", false)
  | key :: rest =>
    match item !! key with
    | Some v => (fmt.Sprintv v, true)
    | None => first_present rest item
    end
  end.

Definition getOddsField (item : gmap string any) : string * bool :=
  first_present ["OD"; "ODD"; "ODDS"] item.

(* ===================================================================== *)
(** * The upstream API *)
(* ===================================================================== *)

(** What a call brings back: a value, or the error of the transport or
    of the JSON decoder. *)
Inductive fetched (A : Type) : Type :=
| Fetched (a : A)
| Failed (e : go_error).
Arguments Fetched {A} a.
Arguments Failed {A} e.

(** An element of [games_pre] as [fetchPreGames] decodes it. *)
Record PreGame : Type := {
  pre_game_id : string;
  pre_time : string;
  pre_time_status : string;
  pre_league : string;
  pre_home : string;
  pre_away : string;
  pre_scores : string
}.

(** The world outside the process as one request sees it: for each
    task, what [http.Get] followed by the JSON decoding gives, and the
    clock read by [time.Now]. *)
Record Upstream : Type := {
  get_pre : string -> fetched (list PreGame);          (* task=pre, by sport *)
  get_live : string -> fetched (gmap string any);      (* task=live, by sport *)
  get_liveodds : string -> fetched APIResponse;        (* task=liveodds, by game id *)
  time_Now : Time
}.

(* ===================================================================== *)
(** * GAME FETCHING *)
(* ===================================================================== *)

Definition fetchPreGames (up : Upstream) (sport : string) : list Game * error :=
  match get_pre up sport with
  | Failed e => ([], Some e)
  | Fetched resp =>
    (map (fun g => {| GameID := pre_game_id g;
                      Sport := sport;
                      Bookmaker := "bet365";
                      Source := "pre";
                      League := pre_league g;
                      Home := pre_home g;
                      Away := pre_away g;
                      Scores := pre_scores g;
                      TimeStatus := pre_time_status g;
                      StartsAt := parseUnixMaybe (pre_time g) |}) resp, None)
  end.

(** The body of the loop of [fetchLiveGames]: an element that is not an
    object is skipped. *)
Definition live_game (sport : string) (item : any) : list Game :=
  match item with
  | AMap m =>
    [ {| GameID := fmt.Sprintv (mapindex m "game_id");
         Sport := sport;
         Bookmaker := "bet365";
         Source := "live";
         League := fmt.Sprintv (mapindex m "league");
         Home := fmt.Sprintv (mapindex m "home");
         Away := fmt.Sprintv (mapindex m "away");
         Scores := fmt.Sprintv (mapindex m "scores");
         TimeStatus := fmt.Sprintv (mapindex m "time_status");
         StartsAt := parseUnixMaybe (fmt.Sprintv (mapindex m "time")) |} ]
  | _ => []
  end.

Definition fetchLiveGames (up : Upstream) (sport : string) : list Game * error :=
  match get_live up sport with
  | Failed e => ([], Some e)
  | Fetched root =>
    match root !! "games" with
    | Some (ASlice arrRaw) => (flat_map (live_game sport) arrRaw, None)
    | _ => ([], None)
    end
  end.

Definition fetchAllGames (up : Upstream) : list Game * error :=
  let all := [] in
  let all := match fetchPreGames up "soccer" with
             | (g, None) => all ++ g
             | _ => all
             end in
  let all := match fetchPreGames up "tennis" with
             | (g, None) => all ++ g
             | _ => all
             end in
  let all := match fetchLiveGames up "soccer" with
             | (g, None) => all ++ g
             | _ => all
             end in
  let all := match fetchLiveGames up "tennis" with
             | (g, None) => all ++ g
             | _ => all
             end in
  (all, None).

(* ===================================================================== *)
(** * LIVE ODDS FETCHING *)
(* ===================================================================== *)

(** The variables of the loop of [fetchLiveOdds]. *)
Record pass : Type := {
  currentMarketID : string;
  currentMarketName : string;
  odds : list LiveOdd
}.

Definition pass_init : pass :=
  {| currentMarketID := ""; currentMarketName := ""; odds := [] |}.

(** One turn of the inner loop: the [switch] on the type of [item]. *)
Definition odds_item (gameID sport : string) (now : Time)
    (st : pass) (item : gmap string any) : pass :=
  let ty := fmt.Sprintv (mapindex item "type") in
  if String.eqb ty "MG" then
    {| currentMarketID := fmt.Sprintv (mapindex item "ID");
       currentMarketName := fmt.Sprintv (mapindex item "NA");
       odds := odds st |}
  else if String.eqb ty "PA" then
    let '(oddsStr, ok) := getOddsField item in
    if negb ok then st
    else
      let '(priceDec, priceFrac, _) := fracToDecimal oddsStr in
      let selectionID := fmt.Sprintv (mapindex item "ID") in
      let selectionName := fmt.Sprintv (mapindex item "NA") in
      let line := fmt.Sprintv (mapindex item "HA") in
      let rawJSON := fst (json.Marshal item) in
      {| currentMarketID := currentMarketID st;
         currentMarketName := currentMarketName st;
         odds := odds st ++
           [ {| Odd.GameID := gameID;
                Odd.Sport := sport;
                Odd.Bookmaker := "bet365";
                Odd.MarketID := currentMarketID st;
                Odd.MarketName := currentMarketName st;
                Odd.SelectionID := selectionID;
                Odd.SelectionName := selectionName;
                Odd.Line := line;
                Odd.PriceDec := priceDec;
                Odd.PriceFrac := priceFrac;
                Odd.FetchedAt := now;
                Odd.Raw := rawJSON |} ] |}
  else st.

(** The two nested loops over [apiResp.Results]. *)
Definition odds_pass (gameID sport : string) (now : Time)
    (results : list (list (gmap string any))) (st : pass) : pass :=
  fold_left (fun st group => fold_left (odds_item gameID sport now) group st) results st.

Definition fetchLiveOdds (up : Upstream) (gameID sport : string) : list LiveOdd * error :=
  match get_liveodds up gameID with
  | Failed e => ([], Some e)
  | Fetched apiResp =>
    (odds (odds_pass gameID sport (time_Now up) (Results apiResp) pass_init), None)
  end.

(* ===================================================================== *)
(** * The database *)
(* ===================================================================== *)

(** The columns of [games] besides the key [game_id]. *)
Module games_row.
Record t : Type := {
  sport : string;
  bookmaker : string;
  source : string;
  league : string;
  home_team : string;
  away_team : string;
  scores : string;
  time_status : string;
  starts_at : option Time;     (* NULL is [None] *)
  updated_at : Time
}.
End games_row.

(** The columns of [liveodds] besides the key
    [(game_id, market_id, selection_id)]. *)
Module liveodds_row.
Record t : Type := {
  sport : string;
  bookmaker : string;
  market_name : string;
  selection_name : string;
  line : string;
  price_dec : string;
  price_frac : string;
  fetched_at : Time;
  raw : string
}.
End liveodds_row.

(** The store behind the pool.  [db_faults] lists what the coming round
    trips to the server answer: [None] (and the empty list) is success,
    [Some e] the failure [e]; every call of the pool takes the head. *)
Record DB : Type := {
  games : gmap string games_row.t;
  liveodds : gmap (string * string * string) liveodds_row.t;
  db_now : Time;            (* now() *)
  db_current_date : Time;   (* CURRENT_DATE: the instant the date begins *)
  db_faults : list error
}.

Definition set_games (db : DB) (g : gmap string games_row.t) : DB :=
  {| games := g; liveodds := liveodds db; db_now := db_now db;
     db_current_date := db_current_date db; db_faults := db_faults db |}.

Definition set_liveodds (db : DB) (o : gmap (string * string * string) liveodds_row.t) : DB :=
  {| games := games db; liveodds := o; db_now := db_now db;
     db_current_date := db_current_date db; db_faults := db_faults db |}.

(** One round trip: the answer of the server and the store it leaves. *)
Definition round_trip (db : DB) : error * DB :=
  match db_faults db with
  | [] => (None, db)
  | f :: rest =>
    (f, {| games := games db; liveodds := liveodds db; db_now := db_now db;
           db_current_date := db_current_date db; db_faults := rest |})
  end.

(** [starts_at < CURRENT_DATE]; a NULL compares as unknown. *)
Definition game_is_old (today : Time) (r : games_row.t) : bool :=
  match games_row.starts_at r with
  | Some t => t <? today
  | None => false
  end.

Definition day : Z := 86400 * 1000000000.

(** [fetched_at < NOW() - INTERVAL '1 day'] *)
Definition odd_is_old (now : Time) (r : liveodds_row.t) : bool :=
  liveodds_row.fetched_at r <? now - day.

(** [DELETE FROM games WHERE starts_at < CURRENT_DATE] *)
Definition delete_old_games (db : DB) : DB :=
  set_games db
    (filter (fun kv => game_is_old (db_current_date db) (snd kv) = false) (games db)).

(** [DELETE FROM liveodds WHERE fetched_at < NOW() - INTERVAL '1 day'] *)
Definition delete_old_liveodds (db : DB) : DB :=
  set_liveodds db
    (filter (fun kv => odd_is_old (db_now db) (snd kv) = false) (liveodds db)).

(** [INSERT INTO games ... ON CONFLICT (game_id) DO UPDATE SET ...]:
    every column besides the key is overwritten. *)
Definition upsert_game (db : DB) (g : Game) : DB :=
  set_games db
    (<[ GameID g :=
        {| games_row.sport := Sport g;
           games_row.bookmaker := Bookmaker g;
           games_row.source := Source g;
           games_row.league := League g;
           games_row.home_team := Home g;
           games_row.away_team := Away g;
           games_row.scores := Scores g;
           games_row.time_status := TimeStatus g;
           games_row.starts_at := StartsAt g;
           games_row.updated_at := db_now db |} ]> (games db)).

(** [INSERT INTO liveodds ... ON CONFLICT (game_id, market_id,
    selection_id) DO UPDATE SET ...] *)
Definition upsert_odd (db : DB) (o : LiveOdd) : DB :=
  set_liveodds db
    (<[ (Odd.GameID o, Odd.MarketID o, Odd.SelectionID o) :=
        {| liveodds_row.sport := Odd.Sport o;
           liveodds_row.bookmaker := Odd.Bookmaker o;
           liveodds_row.market_name := Odd.MarketName o;
           liveodds_row.selection_name := Odd.SelectionName o;
           liveodds_row.line := Odd.Line o;
           liveodds_row.price_dec := Odd.PriceDec o;
           liveodds_row.price_frac := Odd.PriceFrac o;
           liveodds_row.fetched_at := Odd.FetchedAt o;
           liveodds_row.raw := Odd.Raw o |} ]> (liveodds db)).

(** [pool.Exec] of one statement [stmt]. *)
Definition Exec (pool : DB) (stmt : DB -> DB) : error * DB :=
  let '(err, pool) := round_trip pool in
  match err with
  | Some e => (Some e, pool)
  | None => (None, stmt pool)
  end.

(** [pool.SendBatch] and the loop over [br.Exec]: the statements go to
    the server in one round trip and run there in one implicit
    transaction, in the order of the queue; the loop returns the first
    error, and then nothing of the batch is kept. *)
Definition SendBatch {A : Type} (pool : DB) (stmt : DB -> A -> DB) (queue : list A)
  : error * DB :=
  let '(err, pool) := round_trip pool in
  match err with
  | Some e => (Some e, pool)
  | None => (None, fold_left stmt queue pool)
  end.

(* ===================================================================== *)
(** * DATABASE INSERTS *)
(* ===================================================================== *)

Definition upsertGames (pool : DB) (games : list Game) : error * DB :=
  match games with
  | [] => (None, pool)
  | _ =>
    let '(err, pool) := Exec pool delete_old_games in
    match err with
    | Some e => (Some (ErrWrap "failed to delete old games" e), pool)
    | None => SendBatch pool upsert_game games
    end
  end.

Definition insertLiveOdds (pool : DB) (odds : list LiveOdd) : error * DB :=
  match odds with
  | [] => (None, pool)
  | _ =>
    let '(err, pool) := Exec pool delete_old_liveodds in
    match err with
    | Some e => (Some (ErrWrap "failed to delete old live odds" e), pool)
    | None => SendBatch pool upsert_odd odds
    end
  end.

(* ===================================================================== *)
(** * The queries of the live-odds path *)
(* ===================================================================== *)

(** [SELECT game_id FROM games WHERE source='live' AND time_status='1'];
    SQL leaves the order of the rows open, here it is that of the keys.
    ([game_id] is the key of the table, so no [Scan] of a row fails.) *)
Definition fetchLiveGameIDs (pool : DB) : list string * error * DB :=
  let '(err, pool) := round_trip pool in
  match err with
  | Some e => ([], Some e, pool)
  | None =>
    (map fst
       (sorted_entries
          (filter (fun kv => String.eqb (games_row.source (snd kv)) "live"
                             && String.eqb (games_row.time_status (snd kv)) "1" = true)
             (games pool))),
     None, pool)
  end.

(** [SELECT sport FROM games WHERE game_id=$1] and its [Scan]. *)
Definition getGameSport (pool : DB) (gameID : string) : string * error * DB :=
  let '(err, pool) := round_trip pool in
  match err with
  | Some e => ("", Some e, pool)
  | None =>
    match games pool !! gameID with
    | Some r => (games_row.sport r, None, pool)
    | None => ("", Some (ErrExternal "no rows in result set"), pool)
    end
  end.

(* ===================================================================== *)
(** * MAIN: the two synchronisation handlers *)
(* ===================================================================== *)

(** What a handler answers with [c.JSON]. *)
Inductive Response : Type :=
| InternalError (e : go_error)       (* 500, {"error": err.Error()} *)
| GamesSynced (count : Z)            (* 200, {"status": ..., "count": len(all)} *)
| OddsUpdated (inserted : Z).        (* 200, {"status": ..., "inserted": inserted} *)

(** [GET /sync-games] *)
Definition sync_games (up : Upstream) (db : DB) : Response * DB :=
  let '(all, err) := fetchAllGames up in
  match err with
  | Some e => (InternalError e, db)
  | None =>
    let '(err, db) := upsertGames db all in
    match err with
    | Some e => (InternalError e, db)
    | None => (GamesSynced (Z.of_nat (length all)), db)
    end
  end.

(** The loop of [GET /update-liveodds] over [gameIDs]. *)
Fixpoint update_liveodds_loop (up : Upstream) (gameIDs : list string)
    (db : DB) (inserted : Z) : Z * DB :=
  match gameIDs with
  | [] => (inserted, db)
  | id :: rest =>
    let '(sport, _, db) := getGameSport db id in
    let '(odds, err) := fetchLiveOdds up id sport in
    match err with
    | Some _ => update_liveodds_loop up rest db inserted
    | None =>
      let '(err, db) := insertLiveOdds db odds in
      match err with
      | Some _ => update_liveodds_loop up rest db inserted
      | None => update_liveodds_loop up rest db (inserted + Z.of_nat (length odds))
      end
    end
  end.

(** [GET /update-liveodds] *)
Definition update_liveodds (up : Upstream) (db : DB) : Response * DB :=
  let '(gameIDs, err, db) := fetchLiveGameIDs db in
  match err with
  | Some e => (InternalError e, db)
  | None =>
    let '(inserted, db) := update_liveodds_loop up gameIDs db 0 in
    (OddsUpdated inserted, db)
  end.

(* ===================================================================== *)
(** * The vocabulary of the statements *)
(* ===================================================================== *)

(** Every byte of [s] satisfies [P]. *)
Fixpoint str_all (P : ascii -> bool) (s : string) : bool :=
  match s with
  | EmptyString => true
  | String c t => P c && str_all P t
  end.

(** A byte that is ASCII, is not white space and is not the slash. *)
(** The bytes [strconv.ParseFloat] reads: digits and hexadecimal
    digits, the signs, the point, the underscore, the markers [x] and
    [p], and the letters of "infinity" and "nan". *)
Definition float_byte (b : Z) : bool :=
  strconv.is_digit b || strconv.is_hex_letter b
  || (b =? 43) || (b =? 45) || (b =? 46) || (b =? 95)
  || (strconv.lower b =? 120) || (strconv.lower b =? 112)
  || (strconv.lower b =? 105) || (strconv.lower b =? 110)
  || (strconv.lower b =? 116) || (strconv.lower b =? 121).

Definition float_char (c : ascii) : bool := float_byte (byte c).

(** A byte that is ASCII and is not white space. *)
Definition solid_char (c : ascii) : bool :=
  (byte c <? utf8.RuneSelf) && negb (strings.asciiSpace (byte c)).

Definition not_slash (c : ascii) : bool := negb (Ascii.eqb "/" c).

Definition digit_char (c : ascii) : bool := strconv.is_digit (byte c).

(** No positive multiple of the unit of stage [j] of the search of
    [strconv.shortest_go] lies in the rounding interval. *)
Definition stage_empty (j : Z) (incl : bool) (lo hi : Z) : Prop :=
  forall x, 0 < x -> strconv.inside incl lo hi (x * (4 * 10 ^ j)) = false.

Fixpoint last_char (s : string) : option ascii :=
  match s with
  | EmptyString => None
  | String c EmptyString => Some c
  | String _ t => last_char t
  end.

Fixpoint has_char (c : ascii) (s : string) : bool :=
  match s with
  | EmptyString => false
  | String c' t => Ascii.eqb c c' || has_char c t
  end.

(** A decimal text with a zero (or nothing) at the end of its
    fraction: "3.50", "3.", but neither "3.5" nor "30". *)
Definition trailing_zero (s : string) : bool :=
  has_char "." s
  && match last_char s with
     | Some c => Ascii.eqb c "0" || Ascii.eqb c "."
     | None => false
     end.

(** The discriminator of a record of a [liveodds] response. *)
Definition item_type (item : gmap string any) : string :=
  fmt.Sprintv (mapindex item "type").

Definition is_MG (item : gmap string any) : bool := String.eqb (item_type item) "MG".
Definition is_PA (item : gmap string any) : bool := String.eqb (item_type item) "PA".

(** A ["PA"] record with one of the odds keys: it gives a [LiveOdd]. *)
Definition emits (item : gmap string any) : bool :=
  is_PA item && snd (getOddsField item).

(** The inner loop of [fetchLiveOdds] over a flat stream of records. *)
Definition run (gameID sport : string) (now : Time)
    (items : list (gmap string any)) (st : pass) : pass :=
  fold_left (odds_item gameID sport now) items st.

(** The games of a fetch that did not fail. *)
Definition fetched_games (r : list Game * error) : list Game :=
  match r with
  | (g, None) => g
  | (_, Some _) => []
  end.

(** The key of [liveodds] under which an odd is stored. *)
Definition odd_key (o : LiveOdd) : string * string * string :=
  (Odd.GameID o, Odd.MarketID o, Odd.SelectionID o).

(** The tags of a record: selection, market id, market name, line,
    decimal and fractional price. *)
Definition tags (o : LiveOdd) : list string :=
  [Odd.SelectionID o; Odd.MarketID o; Odd.MarketName o; Odd.Line o;
   Odd.PriceDec o; Odd.PriceFrac o].

(* ===================================================================== *)
(** * Sample data *)
(* ===================================================================== *)

(** A JSON object given by its members. *)
Definition obj (members : list (string * any)) : gmap string any := list_to_map members.

Definition mg1 : gmap string any :=
  obj [("type", AString "MG"); ("ID", AString "M1"); ("NA", AString "N1")].
Definition mg2 : gmap string any :=
  obj [("type", AString "MG"); ("ID", AString "M2"); ("NA", AString "N2")].
Definition pa1 : gmap string any :=
  obj [("type", AString "PA"); ("ID", AString "S1"); ("NA", AString "Home");
       ("OD", AString "5/2"); ("ODDS", AString "9/1")].
Definition pa2 : gmap string any :=
  obj [("type", AString "PA"); ("ID", AString "S2"); ("NA", AString "Draw");
       ("ODD", AString "1/3")].
Definition pa3 : gmap string any :=
  obj [("type", AString "PA"); ("ID", AString "S3"); ("NA", AString "Over");
       ("HA", AString "2.5"); ("ODDS", AString "10/11")].
(** A selection without odds, and a record of another type. *)
Definition pa_bare : gmap string any :=
  obj [("type", AString "PA"); ("ID", AString "S9")].
Definition ev1 : gmap string any :=
  obj [("type", AString "EV"); ("ID", AString "E1")].

(** The stream of the specification: [MG, PA, PA, MG, PA]. *)
Definition sample_odds : APIResponse :=
  {| Success := 1; Results := [[mg1; pa1; pa2]; [mg2; pa3]] |}.

(** A selection first, before any market group. *)
Definition early_odds : APIResponse :=
  {| Success := 1; Results := [[ev1; pa2]; [mg1; pa_bare; pa3]] |}.

Definition sample_pre : PreGame :=
  {| pre_game_id := "g1"; pre_time := "1600000000"; pre_time_status := "0";
     pre_league := "League One"; pre_home := "Reds"; pre_away := "Blues";
     pre_scores := "" |}.

Definition sample_live : gmap string any :=
  obj [("games",
        ASlice [AMap (obj [("game_id", AString "42"); ("time", AString "1750040000");
                           ("time_status", AString "1"); ("league", AString "Open");
                           ("home", AString "Ann"); ("away", AString "Bea");
                           ("scores", AString "6-4")]);
                AString "noise"])].

(** An upstream that answers for pre-match soccer and live tennis, and
    for the live odds of the games "42" and "44". *)
Definition sample_up : Upstream :=
  {| get_pre := fun sport =>
       if String.eqb sport "soccer" then Fetched [sample_pre]
       else Failed (ErrExternal "timeout");
     get_live := fun sport =>
       if String.eqb sport "tennis" then Fetched sample_live
       else Failed (ErrExternal "timeout");
     get_liveodds := fun id =>
       if String.eqb id "42" then Fetched sample_odds
       else if String.eqb id "44" then Fetched early_odds
       else Failed (ErrExternal "timeout");
     time_Now := time_Unix 1750040100 |}.

(** An upstream that is down. *)
Definition down_up : Upstream :=
  {| get_pre := fun _ => Failed (ErrExternal "timeout");
     get_live := fun _ => Failed (ErrExternal "timeout");
     get_liveodds := fun _ => Failed (ErrExternal "timeout");
     time_Now := time_Unix 1750040100 |}.

(** A row of [games] that started in 2020. *)
Definition old_row : games_row.t :=
  {| games_row.sport := "soccer"; games_row.bookmaker := "bet365";
     games_row.source := "pre"; games_row.league := "Cup";
     games_row.home_team := "A"; games_row.away_team := "B";
     games_row.scores := "2-1"; games_row.time_status := "3";
     games_row.starts_at := Some (time_Unix 1600000000);
     games_row.updated_at := time_Unix 1600003600 |}.

Definition live_row (id : string) : games_row.t :=
  {| games_row.sport := "tennis"; games_row.bookmaker := "bet365";
     games_row.source := "live"; games_row.league := "Open";
     games_row.home_team := "Ann"; games_row.away_team := "Bea";
     games_row.scores := "6-4"; games_row.time_status := "1";
     games_row.starts_at := Some (time_Unix 1750040000);
     games_row.updated_at := time_Unix 1750040050 |}.

(** A store on 2025-06-16 with one old game. *)
Definition old_db : DB :=
  {| games := {[ "g0" := old_row ]};
     liveodds := ∅;
     db_now := time_Unix 1750040100;
     db_current_date := time_Unix 1750032000;
     db_faults := [] |}.

(** A store with the live games "42" and "43". *)
Definition live_db : DB :=
  {| games := <[ "42" := live_row "42" ]> (<[ "43" := live_row "43" ]> ∅);
     liveodds := ∅;
     db_now := time_Unix 1750040100;
     db_current_date := time_Unix 1750032000;
     db_faults := [] |}.

(* ===================================================================== *)
(** * The vocabulary of the further statements *)
(* ===================================================================== *)

(** A byte of the table [asciiSpace]. *)
Definition space_char (c : ascii) : bool := strings.asciiSpace (byte c).

(** A text that is empty, or begins and ends with an ASCII byte that is
    no white space; what lies between is free. *)
Definition solid_ends (s : string) : bool :=
  match s with
  | EmptyString => true
  | String c _ =>
    solid_char c
    && match last_char s with
       | Some c' => solid_char c'
       | None => false
       end
  end.

(** The row that the upsert of [g] writes at the clock [now]. *)
Definition game_row (now : Time) (g : Game) : games_row.t :=
  {| games_row.sport := Sport g;
     games_row.bookmaker := Bookmaker g;
     games_row.source := Source g;
     games_row.league := League g;
     games_row.home_team := Home g;
     games_row.away_team := Away g;
     games_row.scores := Scores g;
     games_row.time_status := TimeStatus g;
     games_row.starts_at := StartsAt g;
     games_row.updated_at := now |}.

(** The row that the upsert of [o] writes. *)
Definition odd_row (o : LiveOdd) : liveodds_row.t :=
  {| liveodds_row.sport := Odd.Sport o;
     liveodds_row.bookmaker := Odd.Bookmaker o;
     liveodds_row.market_name := Odd.MarketName o;
     liveodds_row.selection_name := Odd.SelectionName o;
     liveodds_row.line := Odd.Line o;
     liveodds_row.price_dec := Odd.PriceDec o;
     liveodds_row.price_frac := Odd.PriceFrac o;
     liveodds_row.fetched_at := Odd.FetchedAt o;
     liveodds_row.raw := Odd.Raw o |}.

(** The last game of a batch with the id [id]. *)
Fixpoint last_game (id : string) (l : list Game) : option Game :=
  match l with
  | [] => None
  | g :: rest =>
    match last_game id rest with
    | Some g' => Some g'
    | None => if String.eqb (GameID g) id then Some g else None
    end
  end.

(** The last odd of a batch with the key [k]. *)
Fixpoint last_odd (k : string * string * string) (l : list LiveOdd) : option LiveOdd :=
  match l with
  | [] => None
  | o :: rest =>
    match last_odd k rest with
    | Some o' => Some o'
    | None => if bool_decide (odd_key o = k) then Some o else None
    end
  end.

(** What the prune of [games] leaves of a row. *)
Definition kept_game (today : Time) (r : option games_row.t) : option games_row.t :=
  match r with
  | Some row => if game_is_old today row then None else Some row
  | None => None
  end.

(** What the prune of [liveodds] leaves of a row. *)
Definition kept_odd (now : Time) (r : option liveodds_row.t) : option liveodds_row.t :=
  match r with
  | Some row => if odd_is_old now row then None else Some row
  | None => None
  end.

(** The row is one of a live game in play. *)
Definition in_play (r : games_row.t) : bool :=
  String.eqb (games_row.source r) "live" && String.eqb (games_row.time_status r) "1".

(** The tags every fetched game carries. *)
Definition game_tagged (g : Game) : Prop :=
  Bookmaker g = "bet365"
  /\ (Sport g = "soccer" \/ Sport g = "tennis")
  /\ (Source g = "pre" \/ Source g = "live")
  /\ match StartsAt g with
     | Some t => exists sec, 0 < sec < 2 ^ 63 /\ t = time_Unix sec
     | None => True
     end.

(** The elements of a JSON array that are objects. *)
Definition is_object (a : any) : bool :=
  match a with
  | AMap _ => true
  | _ => false
  end.

(** The array under the key ["games"] of a [task=live] document; a
    missing key and a value that is no array count as no element. *)
Definition live_array (root : gmap string any) : list any :=
  match root !! "games" with
  | Some (ASlice arr) => arr
  | _ => []
  end.

(** What every record of one call of [fetchLiveOdds] carries. *)
Definition odd_stamped (gameID sport : string) (now : Time) (o : LiveOdd) : Prop :=
  Odd.GameID o = gameID
  /\ Odd.Sport o = sport
  /\ Odd.Bookmaker o = "bet365"
  /\ Odd.FetchedAt o = now
  /\ trailing_zero (Odd.PriceDec o) = false.

(** A [task=live] document whose second game has neither id nor time. *)
Definition bare_live : gmap string any :=
  obj [("games",
        ASlice [AMap (obj [("game_id", AString "7"); ("time", AString "1750040000");
                           ("time_status", AString "1")]);
                AMap (obj [("time_status", AString "1"); ("home", AString "Cy")])])].

Definition bare_up : Upstream :=
  {| get_pre := fun _ => Failed (ErrExternal "timeout");
     get_live := fun sport =>
       if String.eqb sport "tennis" then Fetched bare_live
       else Failed (ErrExternal "timeout");
     get_liveodds := fun _ => Failed (ErrExternal "timeout");
     time_Now := time_Unix 1750040100 |}.

(** What every row of [games] written by [/sync-games] carries. *)
Definition row_tagged (now : Time) (r : games_row.t) : Prop :=
  games_row.bookmaker r = "bet365"
  /\ (games_row.sport r = "soccer" \/ games_row.sport r = "tennis")
  /\ (games_row.source r = "pre" \/ games_row.source r = "live")
  /\ games_row.updated_at r = now
  /\ match games_row.starts_at r with
     | Some t => 0 < t
     | None => True
     end.

(** The stream of [sample_odds], cut into other groups. *)
Definition regrouped_odds : APIResponse :=
  {| Success := 1; Results := [[mg1]; [pa1; pa2; mg2]; []; [pa3]] |}.

Definition regrouped_up : Upstream :=
  {| get_pre := get_pre sample_up;
     get_live := get_live sample_up;
     get_liveodds := fun id =>
       if String.eqb id "42" then Fetched regrouped_odds
       else Failed (ErrExternal "timeout");
     time_Now := time_Now sample_up |}.

(** The store [db] behind a server that gives the answers [faults] to
    the coming round trips. *)
Definition answering (faults : list error) (db : DB) : DB :=
  {| games := games db; liveodds := liveodds db; db_now := db_now db;
     db_current_date := db_current_date db; db_faults := faults |}.

(** A row of [liveodds] fetched in 2020. *)
Definition stale_odd : liveodds_row.t :=
  {| liveodds_row.sport := "tennis"; liveodds_row.bookmaker := "bet365";
     liveodds_row.market_name := "N0"; liveodds_row.selection_name := "Home";
     liveodds_row.line := "<nil>"; liveodds_row.price_dec := "2";
     liveodds_row.price_frac := "1/1";
     liveodds_row.fetched_at := time_Unix 1600000000;
     liveodds_row.raw := "{}" |}.

(** The store [live_db] with that row. *)
Definition stale_db : DB :=
  {| games := games live_db;
     liveodds := {[ ("42", "M0", "S0") := stale_odd ]};
     db_now := db_now live_db;
     db_current_date := db_current_date live_db;
     db_faults := [] |}.

(** The games and the odds that the sample upstream gives. *)
Definition sample_games : list Game := fst (fetchAllGames sample_up).
Definition sample_batch : list LiveOdd := fst (fetchLiveOdds sample_up "42" "tennis").

(** ** Rounding, said without [math.Round] *)

(** [n] is the integer nearest to [m * 2^e], a half going to the
    larger one: [n - 1/2 <= m * 2^e < n + 1/2] read off after
    multiplication by [2 * 2^(-e)], for [e < 0]. *)
Definition nearest_integer (m : positive) (e : Z) (n : Z) : Prop :=
  - 2 ^ (- e) < 2 * (n * 2 ^ (- e) - Zpos m) <= 2 ^ (- e).

(** The [float64] of the integer [n] with the sign [s]; the sign is
    kept on a zero. *)
Definition float_of_integer (s : bool) (n : Z) : float64 :=
  if n =? 0 then S754_zero s else f64.of_Z (if s then - n else n).

(** [r] is [t] rounded to an integer: a finite [t] whose exponent is
    not negative is an integer already, and so stays; one with a
    negative exponent goes to the [float64] of the integer nearest to
    its magnitude, halves away from zero, with its sign; zeros,
    infinities and NaN stay. *)
Definition rounded_to_integer (t r : float64) : Prop :=
  match t with
  | S754_finite s m e =>
    if 0 <=? e then r = t
    else exists n, nearest_integer m e n /\ r = float_of_integer s n
  | _ => r = t
  end.

(** The text of a value that is no number. *)
Definition special_text (t : float64) (text : string) : Prop :=
  match t with
  | S754_nan => text = "NaN"
  | S754_infinity s => text = if s then "-Inf" else "+Inf"
  | _ => True
  end.

(** ** The rounding of the specification, in exact arithmetic *)

(** The integer nearest to [1000 * (1 + a/b)] for integers [a >= 0] and
    [b > 0], a half going up, and the same with a half going to the
    even neighbour. *)
Definition exact_thousandths (a b : Z) : Z :=
  let q := (1000 * (a + b)) / b in
  let r := (1000 * (a + b)) mod b in
  if b <=? 2 * r then q + 1 else q.

Definition exact_thousandths_even (a b : Z) : Z :=
  let q := (1000 * (a + b)) / b in
  let r := (1000 * (a + b)) mod b in
  if (b <? 2 * r) || ((b =? 2 * r) && Z.odd q) then q + 1 else q.

(** [n / 1000] for [n >= 0] as a decimal text without trailing zeros. *)
Definition thousandths_text (n : Z) : string :=
  let f := n mod 1000 in
  strconv.itoa (n / 1000)
  +:+ (if f =? 0 then ""
       else if f mod 100 =? 0 then "." +:+ String (chr (48 + f / 100)) ""
       else if f mod 10 =? 0
            then "." +:+ String (chr (48 + f / 100)) (String (chr (48 + f / 10 mod 10)) "")
       else "." +:+ String (chr (48 + f / 100))
                     (String (chr (48 + f / 10 mod 10)) (String (chr (48 + f mod 10)) ""))).

(** The odds "a/b" of two integers. *)
Definition odds_text (a b : Z) : string := strconv.itoa a +:+ "/" +:+ strconv.itoa b.

(** Whether [fracToDecimal] gives on "a/b" the exact rounding. *)
Definition exact_on (a b : Z) : bool :=
  let '(dec, _, ok) := fracToDecimal (odds_text a b) in
  ok && String.eqb dec (thousandths_text (exact_thousandths a b)).

(** The integers [lo], [lo + 1], ..., [lo + n - 1]. *)
Fixpoint range (lo : Z) (n : nat) : list Z :=
  match n with
  | O => []
  | S n' => lo :: range (lo + 1) n'
  end.

(** The store [db] read at another time: the clock of the server at
    [now], its current date beginning at [today]. *)
Definition at_clock (now today : Time) (db : DB) : DB :=
  {| games := games db; liveodds := liveodds db; db_now := now;
     db_current_date := today; db_faults := db_faults db |}.

(** The store after the sample games went in once; the same store one
    second later; and the store after they went in again. *)
Definition once_db : DB := snd (upsertGames old_db sample_games).
Definition later_db : DB :=
  at_clock (db_now old_db + 1000000000) (db_current_date old_db) once_db.
Definition twice_db : DB := snd (upsertGames later_db sample_games).

(* ===================================================================== *)
(** * Properties *)
(* ===================================================================== *)

(** Closes a disjunction of booleans one of which is [true]. *)
Ltac orb_true :=
  repeat (reflexivity || rewrite orb_true_r || (progress simpl)).

(** Settles a statement on one byte by running it on the 256 bytes. *)
Ltac all_bytes c :=
  destruct c as [[|] [|] [|] [|] [|] [|] [|] [|]]; vm_compute; congruence.

(** ** The library model at sample inputs *)

Example TrimSpace_samples :
  map strings.TrimSpace
    ["  5/2 "; "5/2"; String (chr 9) "x y" +:+ String (chr 10) "";
     String (chr 194) (String (chr 160) "7/4"); "   "; ""]
  = ["5/2"; "5/2"; "x y"; "7/4"; ""; ""].
Proof. vm_compute. reflexivity. Qed.

Example Split_samples :
  map (fun s => strings.Split s "/") ["5/2"; "evens"; "1/2/3"; ""; "/"; "5/"]
  = [["5"; "2"]; ["evens"]; ["1"; "2"; "3"]; [""]; [""; ""]; ["5"; ""]].
Proof. vm_compute. reflexivity. Qed.

Example ParseFloat_samples :
  map strconv.ParseFloat ["5"; "0.1"; "-0"; "0x1p-2"; "1_000"; "Inf"; "1e-400"]
  = [(S754_finite false 5629499534213120 (-50), None);
     (S754_finite false 7205759403792794 (-56), None);
     (S754_zero true, None);
     (S754_finite false 4503599627370496 (-54), None);
     (S754_finite false 8796093022208000 (-43), None);
     (S754_infinity false, None);
     (S754_zero false, None)].
Proof. vm_compute. reflexivity. Qed.

Example ParseFloat_errors :
  map (fun s => snd (strconv.ParseFloat s))
    [""; " 5"; "5 "; "1/2"; "1e"; "0x1"; "1__0"; "infi"; "+nan"; "1e310"]
  = [Some (ErrSyntax "ParseFloat" ""); Some (ErrSyntax "ParseFloat" " 5");
     Some (ErrSyntax "ParseFloat" "5 "); Some (ErrSyntax "ParseFloat" "1/2");
     Some (ErrSyntax "ParseFloat" "1e"); Some (ErrSyntax "ParseFloat" "0x1");
     Some (ErrSyntax "ParseFloat" "1__0"); Some (ErrSyntax "ParseFloat" "infi");
     Some (ErrSyntax "ParseFloat" "+nan"); Some (ErrRange "ParseFloat" "1e310")].
Proof. vm_compute. reflexivity. Qed.

Example Round_samples :
  map (fun s => strconv.FormatFloat (math.Round (fst (strconv.ParseFloat s))) "f")
    ["0.5"; "-0.5"; "0.49999999999999994"; "2.5"; "-2.5"; "3500.4"; "-0.2";
     "4503599627370497"; "nan"; "-inf"]
  = ["1"; "-1"; "0"; "3"; "-3"; "3500"; "-0"; "4503599627370497"; "NaN"; "-Inf"].
Proof. vm_compute. reflexivity. Qed.

Example FormatFloat_samples :
  map (fun s => (strconv.FormatFloat (fst (strconv.ParseFloat s)) "f",
                 strconv.FormatFloat (fst (strconv.ParseFloat s)) "g"))
    ["0.1"; "3.50"; "1e21"; "123456789"; "100000"; "0.00001"; "1e23"; "-2.5"; "0"]
  = [("0.1", "0.1"); ("3.5", "3.5"); ("1000000000000000000000", "1e+21");
     ("123456789", "1.23456789e+08"); ("100000", "100000");
     ("0.00001", "1e-05"); ("100000000000000000000000", "1e+23");
     ("-2.5", "-2.5"); ("0", "0")].
Proof. vm_compute. reflexivity. Qed.

Example float_sum_sample :
  strconv.FormatFloat
    (f64.add (fst (strconv.ParseFloat "0.1")) (fst (strconv.ParseFloat "0.2"))) "f"
  = "0.30000000000000004".
Proof. vm_compute. reflexivity. Qed.

Example Sprintv_samples :
  map fmt.Sprintv
    [ANil; ABool true; AString "PA"; AFloat (f64.of_Z 12); AFloat (f64.of_Z 123456789);
     ASlice [AString "a"; ANil; AFloat (f64.of_Z 2)];
     AMap (obj [("b", AString "x"); ("a", AFloat (f64.of_Z 1))])]
  = ["<nil>"; "true"; "PA"; "12"; "1.23456789e+08"; "[a <nil> 2]"; "map[a:1 b:x]"].
Proof. vm_compute. reflexivity. Qed.

Example Marshal_sample :
  json.Marshal (obj [("b", ASlice [ANil; ABool false; AFloat (f64.of_Z 12)]);
                     ("a", AString "x<y")])
  = ("{" +:+ json.quote +:+ "a" +:+ json.quote +:+ ":" +:+ json.quote +:+ "x\u003cy"
     +:+ json.quote +:+ "," +:+ json.quote +:+ "b" +:+ json.quote +:+ ":[null,false,12]}",
     None).
Proof. vm_compute. reflexivity. Qed.

Example parseUnixMaybe_samples :
  map parseUnixMaybe ["1700000000"; " 42 "; "0"; "-5"; "abc"; ""; "<nil>"; "1.7e9"]
  = [Some 1700000000000000000; Some 42000000000; None; None; None; None; None; None].
Proof. vm_compute. reflexivity. Qed.

(** ** Strings *)

Lemma app_str_cons (x : ascii) (a b : string) : String x a +:+ b = String x (a +:+ b).
Proof. reflexivity. Qed.

Lemma app_str_nil_l (a : string) : "" +:+ a = a.
Proof. reflexivity. Qed.

Lemma app_str_assoc (a b c : string) : (a +:+ b) +:+ c = a +:+ (b +:+ c).
Proof.
  induction a as [|x a IH]; [reflexivity |].
  rewrite !app_str_cons, IH. reflexivity.
Qed.

Lemma app_str_nil_r (a : string) : a +:+ "" = a.
Proof.
  induction a as [|x a IH]; [reflexivity |].
  rewrite app_str_cons, IH. reflexivity.
Qed.

Lemma length_app_str (a b : string) :
  String.length (a +:+ b) = (String.length a + String.length b)%nat.
Proof.
  induction a as [|x a IH]; [reflexivity |].
  rewrite app_str_cons. simpl. now rewrite IH.
Qed.

Lemma str_all_app P (a b : string) : str_all P (a +:+ b) = str_all P a && str_all P b.
Proof.
  induction a as [|x a IH]; [reflexivity |].
  rewrite app_str_cons. simpl. rewrite IH. now rewrite andb_assoc.
Qed.

Lemma str_all_impl (P Q : ascii -> bool) (s : string) :
  (forall c, P c = true -> Q c = true) -> str_all P s = true -> str_all Q s = true.
Proof.
  intros HPQ. induction s as [|x s IH]; simpl; [reflexivity |].
  intros [Hx Hs]%andb_true_iff. rewrite (HPQ _ Hx), (IH Hs). reflexivity.
Qed.

Lemma rev_str_onto_app (a acc : string) : rev_str_onto a acc = rev_str a +:+ acc.
Proof.
  unfold rev_str. revert acc.
  induction a as [|x a IH]; intros acc; simpl; [reflexivity |].
  rewrite (IH (String x acc)), (IH (String x "")), app_str_assoc. reflexivity.
Qed.

Lemma rev_str_cons (x : ascii) (a : string) : rev_str (String x a) = rev_str a +:+ String x "".
Proof. unfold rev_str at 1. simpl. apply rev_str_onto_app. Qed.

Lemma rev_str_app (a b : string) : rev_str (a +:+ b) = rev_str b +:+ rev_str a.
Proof.
  induction a as [|x a IH].
  - rewrite app_str_nil_l. change (rev_str "") with "". now rewrite app_str_nil_r.
  - rewrite app_str_cons, !rev_str_cons, IH, app_str_assoc. reflexivity.
Qed.

Lemma rev_str_involutive (a : string) : rev_str (rev_str a) = a.
Proof.
  induction a as [|x a IH]; [reflexivity |].
  rewrite rev_str_cons, rev_str_app, IH. reflexivity.
Qed.

Lemma str_all_rev P (a : string) : str_all P (rev_str a) = str_all P a.
Proof.
  induction a as [|x a IH]; [reflexivity |].
  rewrite rev_str_cons, str_all_app, IH. simpl. rewrite andb_true_r. apply andb_comm.
Qed.

Lemma rev_str_nonempty (a : string) : a <> "" -> rev_str a <> "".
Proof.
  intros Ha Hr. apply Ha. rewrite <- (rev_str_involutive a), Hr. reflexivity.
Qed.

(** ** What [strconv.ParseFloat] accepts *)

Lemma float_char_solid (c : ascii) : float_char c = true -> solid_char c = true.
Proof. all_bytes c. Qed.

Lemma float_char_not_slash (c : ascii) : float_char c = true -> not_slash c = true.
Proof. all_bytes c. Qed.

Lemma float_byte_digit b : strconv.is_digit b = true -> float_byte b = true.
Proof. intros H. unfold float_byte. rewrite H. orb_true. Qed.

Lemma float_byte_hex b : strconv.is_hex_letter b = true -> float_byte b = true.
Proof. intros H. unfold float_byte. rewrite H. orb_true. Qed.

Lemma float_byte_eq b n :
  (b =? n) = true -> float_byte n = true -> float_byte b = true.
Proof. intros Hb H. apply Z.eqb_eq in Hb. subst b. exact H. Qed.

Lemma float_byte_lower b n :
  (strconv.lower b =? n) = true ->
  (n =? 101) || (n =? 112) || (n =? 120) = true -> float_byte b = true.
Proof.
  intros Hb Hn. apply Z.eqb_eq in Hb. unfold float_byte, strconv.is_hex_letter, utf8.between.
  rewrite Hb.
  clear Hb.
  destruct (n =? 101) eqn:E1; [apply Z.eqb_eq in E1; subst n; orb_true |].
  destruct (n =? 112) eqn:E2; [apply Z.eqb_eq in E2; subst n; orb_true |].
  destruct (n =? 120) eqn:E3; [apply Z.eqb_eq in E3; subst n; orb_true | discriminate].
Qed.

Lemma read_digits_consumed (hex : bool) (s : string) :
  forall st st' r,
    strconv.read_digits hex st s = (st', r) ->
    exists p, s = p +:+ r /\ str_all float_char p = true.
Proof.
  induction s as [|ch t IH]; intros st st' r H; simpl in H.
  - injection H as <- <-. exists "". split; reflexivity.
  - destruct (byte ch =? 95) eqn:E95.
    { apply IH in H as (p & -> & Hp). exists (String ch p). split; [reflexivity |].
      simpl. rewrite Hp, andb_true_r. apply (float_byte_eq _ _ E95). reflexivity. }
    destruct (byte ch =? 46) eqn:E46.
    { destruct (strconv.rf_sawdot st).
      - injection H as <- <-. exists "". split; reflexivity.
      - apply IH in H as (p & -> & Hp). exists (String ch p). split; [reflexivity |].
        simpl. rewrite Hp, andb_true_r. apply (float_byte_eq _ _ E46). reflexivity. }
    destruct (strconv.is_digit (byte ch)) eqn:Ed.
    { destruct ((byte ch =? 48) && (strconv.rf_nd st =? 0));
        apply IH in H as (p & -> & Hp); exists (String ch p); (split; [reflexivity |]);
        simpl; rewrite Hp, andb_true_r; apply float_byte_digit, Ed. }
    destruct (hex && strconv.is_hex_letter (byte ch)) eqn:Eh.
    { apply andb_true_iff in Eh as [_ Eh].
      apply IH in H as (p & -> & Hp). exists (String ch p). split; [reflexivity |].
      simpl. rewrite Hp, andb_true_r. apply float_byte_hex, Eh. }
    injection H as <- <-. exists "". split; reflexivity.
Qed.

Lemma read_exp_digits_consumed (s : string) :
  forall e us e' us' r,
    strconv.read_exp_digits e us s = (e', us', r) ->
    exists p, s = p +:+ r /\ str_all float_char p = true.
Proof.
  induction s as [|ch t IH]; intros e us e' us' r H; simpl in H.
  - injection H as <- <- <-. exists "". split; reflexivity.
  - destruct (byte ch =? 95) eqn:E95.
    { apply IH in H as (p & -> & Hp). exists (String ch p). split; [reflexivity |].
      simpl. rewrite Hp, andb_true_r. apply (float_byte_eq _ _ E95). reflexivity. }
    destruct (strconv.is_digit (byte ch)) eqn:Ed.
    { apply IH in H as (p & -> & Hp). exists (String ch p). split; [reflexivity |].
      simpl. rewrite Hp, andb_true_r. apply float_byte_digit, Ed. }
    injection H as <- <- <-. exists "". split; reflexivity.
Qed.

Lemma read_exponent_consumed (hex : bool) (s : string) sh us r :
  strconv.read_exponent hex s = Some (sh, us, r) ->
  exists p, s = p +:+ r /\ str_all float_char p = true.
Proof.
  unfold strconv.read_exponent. intros H.
  destruct s as [|ch t].
  { destruct hex; [discriminate |]. injection H as <- <- <-. exists "". split; reflexivity. }
  destruct (strconv.lower (byte ch) =? (if hex then 112 else 101)) eqn:Ee.
  2:{ destruct hex; [discriminate |]. injection H as <- <- <-. exists "". split; reflexivity. }
  assert (Hch : float_char ch = true).
  { apply (float_byte_lower _ _ Ee). destruct hex; reflexivity. }
  destruct t as [|c1 t1]; [discriminate |].
  destruct (byte c1 =? 43) eqn:Ep.
  { destruct t1 as [|d t2]; [discriminate |].
    destruct (strconv.is_digit (byte d)); [| discriminate].
    destruct (strconv.read_exp_digits 0 false (String d t2)) as [[e us0] rest] eqn:Er.
    injection H as <- <- <-.
    apply read_exp_digits_consumed in Er as (p & Hs & Hp).
    exists (String ch (String c1 p)). split.
    - rewrite !app_str_cons, <- Hs. reflexivity.
    - simpl. rewrite Hch, Hp. simpl. rewrite andb_true_r.
      apply (float_byte_eq _ _ Ep). reflexivity. }
  destruct (byte c1 =? 45) eqn:Em.
  { destruct t1 as [|d t2]; [discriminate |].
    destruct (strconv.is_digit (byte d)); [| discriminate].
    destruct (strconv.read_exp_digits 0 false (String d t2)) as [[e us0] rest] eqn:Er.
    injection H as <- <- <-.
    apply read_exp_digits_consumed in Er as (p & Hs & Hp).
    exists (String ch (String c1 p)). split.
    - rewrite !app_str_cons, <- Hs. reflexivity.
    - simpl. rewrite Hch, Hp. simpl. rewrite andb_true_r.
      apply (float_byte_eq _ _ Em). reflexivity. }
  destruct (strconv.is_digit (byte c1)); [| discriminate].
  destruct (strconv.read_exp_digits 0 false (String c1 t1)) as [[e us0] rest] eqn:Er.
  injection H as <- <- <-.
  apply read_exp_digits_consumed in Er as (p & Hs & Hp).
  exists (String ch p). split.
  - rewrite app_str_cons, <- Hs. reflexivity.
  - simpl. rewrite Hch, Hp. reflexivity.
Qed.

Lemma len_app (a b : string) : len (a +:+ b) = len a + len b.
Proof. unfold len. rewrite length_app_str. lia. Qed.

Lemma len_zero (a : string) : len a = 0 -> a = "".
Proof. destruct a; [reflexivity |]. unfold len. simpl. lia. Qed.

Lemma len_nonneg (a : string) : 0 <= len a.
Proof. unfold len. lia. Qed.

Lemma readFloat_consumed (s : string) (r : strconv.read_float) :
  strconv.readFloat s = Some r ->
  exists p, s = p +:+ strconv.r_rest r /\ str_all float_char p = true.
Proof.
  unfold strconv.readFloat. intros H.
  destruct s as [|c0 t0]; [discriminate |].
  (* the sign *)
  assert (Hsign : exists p1 s1 neg,
             String c0 t0 = p1 +:+ s1 /\ str_all float_char p1 = true /\
             (if byte c0 =? 43 then (false, t0)
              else if byte c0 =? 45 then (true, t0) else (false, String c0 t0)) = (neg, s1)).
  { destruct (byte c0 =? 43) eqn:E1.
    - exists (String c0 ""), t0, false. repeat split. simpl. rewrite andb_true_r.
      apply (float_byte_eq _ _ E1). reflexivity.
    - destruct (byte c0 =? 45) eqn:E2.
      + exists (String c0 ""), t0, true. repeat split. simpl. rewrite andb_true_r.
        apply (float_byte_eq _ _ E2). reflexivity.
      + exists "", (String c0 t0), false. repeat split. }
  destruct Hsign as (p1 & s1 & neg & Hs1 & Hp1 & Esign).
  rewrite Esign in H. clear Esign.
  (* the base prefix *)
  assert (Hbase : exists p2 s2 hex,
             s1 = p2 +:+ s2 /\ str_all float_char p2 = true /\
             match s1 with
             | String z (String x (String y t)) =>
               if (byte z =? 48) && (strconv.lower (byte x) =? 120)
               then (true, String y t) else (false, s1)
             | _ => (false, s1)
             end = (hex, s2)).
  { destruct s1 as [|z [|x [|y t]]];
      [ exists "", "", false; repeat split
      | exists "", (String z ""), false; repeat split
      | exists "", (String z (String x "")), false; repeat split | ].
    destruct ((byte z =? 48) && (strconv.lower (byte x) =? 120)) eqn:E.
    - apply andb_true_iff in E as [Ez Ex].
      exists (String z (String x "")), (String y t), true. repeat split.
      simpl. rewrite andb_true_r. apply andb_true_iff. split.
      + apply (float_byte_eq _ _ Ez). reflexivity.
      + apply (float_byte_lower _ _ Ex). reflexivity.
    - exists "", (String z (String x (String y t))), false. repeat split. }
  destruct Hbase as (p2 & s2 & hex & Hs2 & Hp2 & Ebase).
  rewrite Ebase in H. clear Ebase.
  destruct (strconv.read_digits hex strconv.digits_init s2) as [st s3] eqn:Ed.
  apply read_digits_consumed in Ed as (p3 & Hs3 & Hp3).
  destruct (negb (strconv.rf_sawdigits st)); [discriminate |].
  destruct (strconv.read_exponent hex s3) as [[[sh us] rest]|] eqn:Ee; [| discriminate].
  apply read_exponent_consumed in Ee as (p4 & Hs4 & Hp4).
  match type of H with (if ?b then _ else _) = _ => destruct b end; [discriminate |].
  injection H as <-. simpl.
  exists (p1 +:+ p2 +:+ p3 +:+ p4). split.
  - rewrite Hs1, Hs2, Hs3, Hs4, !app_str_assoc. reflexivity.
  - rewrite !str_all_app, Hp1, Hp2, Hp3, Hp4. reflexivity.
Qed.

(** The letters of "infinity" and "nan". *)
Lemma prefix_consumed (pfx s : string) :
  str_all (fun p => existsb (Z.eqb (byte p)) [105; 110; 102; 116; 121; 97]) pfx = true ->
  exists p r, s = p +:+ r /\ len p = strconv.commonPrefixLenIgnoreCase s pfx
              /\ str_all float_char p = true.
Proof.
  revert pfx. induction s as [|c s IH]; intros pfx Hpfx.
  - exists "", "". repeat split.
  - destruct pfx as [|q pfx]; [exists "", (String c s); repeat split |].
    simpl in Hpfx. apply andb_true_iff in Hpfx as [Hq Hpfx].
    cbn [strconv.commonPrefixLenIgnoreCase].
    set (b := if utf8.between 65 90 (byte c) then byte c + 32 else byte c).
    destruct (b =? byte q) eqn:Eb; [| exists "", (String c s); repeat split].
    destruct (IH pfx Hpfx) as (p & r & Hs & Hl & Hp).
    exists (String c p), r. repeat split.
    + rewrite app_str_cons, <- Hs. reflexivity.
    + rewrite <- Hl. unfold len. simpl. lia.
    + simpl. rewrite Hp, andb_true_r.
      apply Z.eqb_eq in Eb. unfold float_char.
      assert (Hc : existsb (Z.eqb (byte c))
                     [105; 110; 102; 116; 121; 97; 73; 78; 70; 84; 89; 65] = true).
      { subst b. simpl in Hq |- *. unfold utf8.between in Eb.
        repeat match goal with
               | H : context [?x =? ?y] |- _ =>
                 destruct (Z.eqb_spec x y); simpl in H
               | |- context [?x =? ?y] => destruct (Z.eqb_spec x y); simpl
               end; try reflexivity; try discriminate.
        all: exfalso; revert Eb.
        all: destruct (65 <=? byte c) eqn:E1; destruct (byte c <=? 90) eqn:E2; simpl; lia. }
      simpl in Hc.
      repeat match type of Hc with
             | (?x =? ?y) || _ = true =>
               destruct (Z.eqb_spec x y) as [->|_]; [reflexivity | simpl in Hc]
             end.
      discriminate.
Qed.

Lemma special_inf_consumed neg nsign (s : string) v n :
  strconv.special_inf neg nsign s = Some (v, n) ->
  n = nsign + len s ->
  str_all float_char s = true /\ s <> "".
Proof.
  unfold strconv.special_inf. intros H Hn.
  destruct (prefix_consumed "infinity" s eq_refl) as (p & r & Hs & Hl & Hp).
  set (k := strconv.commonPrefixLenIgnoreCase s "infinity") in *.
  assert (Hk : (if (3 <? k) && (k <? 8) then 3 else k) = len s /\ 3 <= len s).
  { destruct ((3 <? k) && (k <? 8)) eqn:E.
    - destruct (_ || _) in H; [| discriminate]. injection H as _ <-. lia.
    - destruct ((k =? 3) || (k =? 8)) eqn:E38; [| discriminate].
      injection H as _ <-. apply orb_true_iff in E38 as [?%Z.eqb_eq | ?%Z.eqb_eq]; lia. }
  destruct Hk as [Hk H3].
  assert (Hr : r = "").
  { apply len_zero. pose proof (len_nonneg r) as Hr0.
    assert (Hsl : len s = len p + len r) by (rewrite Hs at 1; apply len_app).
    destruct ((3 <? k) && (k <? 8)) eqn:E; [| lia].
    apply andb_true_iff in E as [E1%Z.ltb_lt E2]. lia. }
  subst r. rewrite app_str_nil_r in Hs. subst p. split; [exact Hp |].
  intros ->. unfold len in H3. simpl in H3. lia.
Qed.

Lemma special_consumed (s : string) v n :
  strconv.special s = Some (v, n) -> n = len s ->
  str_all float_char s = true /\ s <> "".
Proof.
  unfold strconv.special. intros H Hn.
  destruct s as [|c t]; [discriminate |].
  assert (Hlen : len (String c t) = 1 + len t) by (unfold len; simpl; lia).
  destruct (byte c =? 43) eqn:E1.
  { apply special_inf_consumed in H as [Ht _]; [| lia].
    split; [| discriminate]. simpl. rewrite Ht, andb_true_r.
    apply (float_byte_eq _ _ E1). reflexivity. }
  destruct (byte c =? 45) eqn:E2.
  { apply special_inf_consumed in H as [Ht _]; [| lia].
    split; [| discriminate]. simpl. rewrite Ht, andb_true_r.
    apply (float_byte_eq _ _ E2). reflexivity. }
  destruct ((byte c =? 105) || (byte c =? 73)).
  { apply special_inf_consumed in H; [exact H | lia]. }
  destruct ((byte c =? 110) || (byte c =? 78)); [| discriminate].
  destruct (strconv.commonPrefixLenIgnoreCase (String c t) "nan" =? 3) eqn:E3; [| discriminate].
  injection H as _ <-. apply Z.eqb_eq in E3.
  destruct (prefix_consumed "nan" (String c t) eq_refl) as (p & r & Hs & Hl & Hp).
  assert (Hr : r = "").
  { apply len_zero. pose proof (len_nonneg r).
    assert (len (String c t) = len p + len r) by (rewrite Hs at 1; apply len_app). lia. }
  subst r. rewrite app_str_nil_r in Hs. rewrite Hs. split; [exact Hp |].
  rewrite <- Hs. discriminate.
Qed.

(** A text that [ParseFloat] accepts is not empty and is made of the
    bytes of a number. *)
Lemma ParseFloat_accepts (s : string) (x : float64) :
  strconv.ParseFloat s = (x, None) -> str_all float_char s = true /\ s <> "".
Proof.
  unfold strconv.ParseFloat, strconv.atof64. intros H.
  destruct (strconv.special s) as [[v n]|] eqn:Esp.
  { destruct (n =? len s) eqn:En; simpl in H; [| discriminate].
    apply Z.eqb_eq in En. exact (special_consumed _ _ _ Esp En). }
  destruct (strconv.readFloat s) as [r|] eqn:Er.
  2:{ destruct (negb (0 =? len s)); simpl in H; discriminate. }
  assert (Hne : s <> "") by (intros ->; discriminate Er).
  apply readFloat_consumed in Er as (p & Hs & Hp).
  assert (Hrest : len (strconv.r_rest r) = 0).
  { destruct (len s - len (strconv.r_rest r) =? len s) eqn:En.
    - apply Z.eqb_eq in En. lia.
    - simpl in H.
      destruct (f64.is_inf (strconv.float_value r)); simpl in H; discriminate. }
  apply len_zero in Hrest. rewrite Hrest, app_str_nil_r in Hs. subst p.
  split; [exact Hp | exact Hne].
Qed.

(** ** [strings.TrimSpace] and [strings.Split] on plain text *)

Lemma trim_ascii_left_solid (c : ascii) (t : string) :
  solid_char c = true -> strings.trim_ascii_left (String c t) = inl (String c t).
Proof.
  unfold solid_char. intros H.
  apply andb_true_iff in H as [H1 H2].
  simpl. apply Z.ltb_lt in H1.
  destruct (Z.leb_spec utf8.RuneSelf (byte c)); [lia |].
  apply negb_true_iff in H2. rewrite H2. reflexivity.
Qed.

Lemma str_all_head P (s : string) :
  s <> "" -> str_all P s = true -> exists c t, s = String c t /\ P c = true.
Proof.
  destruct s as [|c t]; [congruence |]. simpl. intros _ [H _]%andb_true_iff. eauto.
Qed.

(** A text of ASCII bytes that are no white space is left as it is. *)
Lemma TrimSpace_solid (s : string) :
  s <> "" -> str_all solid_char s = true -> strings.TrimSpace s = s.
Proof.
  intros Hne Hall. unfold strings.TrimSpace.
  destruct (str_all_head _ _ Hne Hall) as (c & t & -> & Hc).
  rewrite (trim_ascii_left_solid _ _ Hc).
  assert (Hrev : str_all solid_char (rev_str (String c t)) = true)
    by (rewrite str_all_rev; exact Hall).
  destruct (str_all_head _ _ (rev_str_nonempty _ Hne) Hrev) as (c' & t' & Er & Hc').
  rewrite Er, (trim_ascii_left_solid _ _ Hc'), <- Er. apply rev_str_involutive.
Qed.

Lemma split_go_run (a : string) :
  forall rest cur fuel,
    str_all not_slash a = true ->
    (String.length a + String.length rest <= fuel)%nat ->
    strings.split_go fuel (a +:+ rest) "/" cur
    = strings.split_go (fuel - String.length a) rest "/" (rev_str a +:+ cur).
Proof.
  induction a as [|x a IH]; intros rest cur fuel Ha Hf.
  - rewrite app_str_nil_l. simpl. rewrite Nat.sub_0_r. reflexivity.
  - simpl in Ha. apply andb_true_iff in Ha as [Hx Ha].
    destruct fuel as [|fuel]; [simpl in Hf; lia |].
    rewrite app_str_cons. cbn [strings.split_go strings.HasPrefix].
    unfold not_slash in Hx. apply negb_true_iff in Hx. rewrite Hx. simpl.
    rewrite IH; [| exact Ha | simpl in Hf; lia].
    rewrite rev_str_cons, app_str_assoc. reflexivity.
Qed.

Lemma HasPrefix_nil (s : string) : strings.HasPrefix s "" = true.
Proof. destruct s; reflexivity. Qed.

Lemma Split_slash (a b : string) :
  str_all not_slash a = true -> str_all not_slash b = true ->
  strings.Split (a +:+ "/" +:+ b) "/" = [a; b].
Proof.
  intros Ha Hb. unfold strings.Split.
  rewrite split_go_run; [| exact Ha | rewrite !length_app_str; lia].
  rewrite !length_app_str. cbn [String.length].
  replace (String.length a + (1 + String.length b) - String.length a)%nat
    with (S (String.length b)) by lia.
  cbn [strings.split_go]. rewrite app_str_cons, app_str_nil_l.
  cbn [strings.HasPrefix]. rewrite HasPrefix_nil. cbn [Ascii.eqb Bool.eqb andb].
  rewrite app_str_nil_r, rev_str_involutive. f_equal.
  cbn [drop_str String.length].
  rewrite <- (app_str_nil_r b) at 2.
  rewrite split_go_run; [| exact Hb | simpl; lia].
  rewrite Nat.sub_diag. simpl. rewrite app_str_nil_r, rev_str_involutive. reflexivity.
Qed.

(** ** The success case of [fracToDecimal] *)

Lemma fracToDecimal_parsed (a b : string) (x y : float64) :
  strconv.ParseFloat a = (x, None) ->
  strconv.ParseFloat b = (y, None) ->
  f64.eqb y (f64.of_Z 0) = false ->
  fracToDecimal (a +:+ "/" +:+ b)
  = (strconv.FormatFloat
       (f64.div (math.Round (f64.mul (f64.add (f64.of_Z 1) (f64.div x y)) (f64.of_Z 1000)))
          (f64.of_Z 1000)) "f",
     a +:+ "/" +:+ b, true).
Proof.
  intros Ha Hb Hy.
  destruct (ParseFloat_accepts _ _ Ha) as [Hca Hna].
  destruct (ParseFloat_accepts _ _ Hb) as [Hcb Hnb].
  pose proof (str_all_impl _ _ _ float_char_solid Hca) as Hpa.
  pose proof (str_all_impl _ _ _ float_char_solid Hcb) as Hpb.
  unfold fracToDecimal.
  rewrite TrimSpace_solid.
  - rewrite Split_slash by (eapply str_all_impl; [apply float_char_not_slash | eassumption]).
    rewrite Ha, Hb. simpl not_nil. rewrite Hy. reflexivity.
  - destruct a; [congruence | discriminate].
  - rewrite !str_all_app, Hpa, Hpb. reflexivity.
Qed.

(** ** [strconv.FormatFloat] with precision [-1] leaves no trailing zero *)

Lemma inside_convex incl lo hi a b m :
  strconv.inside incl lo hi a = true -> strconv.inside incl lo hi b = true ->
  a <= m <= b -> strconv.inside incl lo hi m = true.
Proof.
  unfold strconv.inside. destruct incl; rewrite !andb_true_iff, ?Z.leb_le, ?Z.ltb_lt; lia.
Qed.

Lemma inside_mid incl lo hi v : lo < v < hi -> strconv.inside incl lo hi v = true.
Proof.
  unfold strconv.inside. destruct incl; rewrite !andb_true_iff, ?Z.leb_le, ?Z.ltb_lt; lia.
Qed.

Lemma stage_empty_below (j : Z) incl v lo hi :
  0 <= j -> 0 < v -> lo < v < hi ->
  let u := 4 * 10 ^ j in
  (0 <? v / u) && strconv.inside incl lo hi (v / u * u) = false ->
  strconv.inside incl lo hi ((v / u + 1) * u) = false ->
  stage_empty j incl lo hi.
Proof.
  intros Hj Hv Hin u H1 H2 x Hx.
  assert (Hu : 0 < u) by (unfold u; pose proof (Z.pow_pos_nonneg 10 j); lia).
  fold u.
  destruct (strconv.inside incl lo hi (x * u)) eqn:Ex; [exfalso | reflexivity].
  pose proof (inside_mid incl lo hi v Hin) as Hmid.
  pose proof (Z.mul_div_le v u Hu) as Hfl.
  pose proof (Z.mul_succ_div_gt v u Hu) as Hce.
  destruct (Z.le_gt_cases (x * u) v) as [Hle | Hgt].
  - (* the floor is as good *)
    assert (x <= v / u) by (apply Z.div_le_lower_bound; lia).
    assert (Hok : strconv.inside incl lo hi (v / u * u) = true).
    { apply (inside_convex incl lo hi (x * u) v); [exact Ex | exact Hmid | nia]. }
    rewrite Hok, andb_true_r in H1. apply Z.ltb_ge in H1. lia.
  - (* the ceiling is as good *)
    assert (v / u + 1 <= x).
    { assert (v / u < x); [| lia]. apply Z.div_lt_upper_bound; lia. }
    assert (Hok : strconv.inside incl lo hi ((v / u + 1) * u) = true).
    { apply (inside_convex incl lo hi v (x * u)); [exact Hmid | exact Ex | nia]. }
    congruence.
Qed.

Lemma stage_multiple (j : Z) incl lo hi c :
  0 <= j -> stage_empty (j + 1) incl lo hi ->
  0 < c -> strconv.inside incl lo hi (c * (4 * 10 ^ j)) = true -> c mod 10 <> 0.
Proof.
  intros Hj Hempty Hc Hin Hmod.
  apply Z.mod_divide in Hmod; [| lia]. destruct Hmod as [x ->].
  specialize (Hempty x ltac:(lia)).
  rewrite Z.pow_add_r, Z.pow_1_r in Hempty by lia.
  replace (x * (4 * (10 ^ j * 10))) with (x * 10 * (4 * 10 ^ j)) in Hempty by ring.
  congruence.
Qed.

Lemma shortest_go_last_digit (j : nat) incl v lo hi c j' :
  0 < v -> lo < v < hi -> (4 | v) ->
  stage_empty (Z.of_nat j + 1) incl lo hi ->
  strconv.shortest_go j incl v lo hi = (c, j') ->
  0 < c /\ c mod 10 <> 0.
Proof.
  intros Hv Hin H4. revert c j'.
  induction j as [|j IH]; intros c j' Hempty H.
  - simpl in H. injection H as <- <-.
    destruct H4 as [k ->]. rewrite Z.div_mul by lia.
    split; [lia |].
    apply (stage_multiple 0 incl lo hi); [lia | exact Hempty | lia |].
    replace (k * (4 * 10 ^ 0)) with (k * 4) by (simpl; ring).
    apply inside_mid, Hin.
  - cbn [strconv.shortest_go] in H.
    set (u := 4 * 10 ^ Z.of_nat (S j)) in *.
    assert (Hu : 0 < u) by (unfold u; pose proof (Z.pow_pos_nonneg 10 (Z.of_nat (S j))); lia).
    assert (Hc1 : 0 <= v / u) by (apply Z.div_pos; lia).
    destruct ((0 <? v / u) && strconv.inside incl lo hi (v / u * u)) eqn:Ok1;
      destruct (strconv.inside incl lo hi ((v / u + 1) * u)) eqn:Ok2; simpl in H.
    + apply andb_true_iff in Ok1 as [Hpos%Z.ltb_lt Ok1].
      destruct ((u <? 2 * (v - v / u * u)) || ((u =? 2 * (v - v / u * u)) && Z.odd (v / u)));
        injection H as <- <-.
      * split; [lia |].
        apply (stage_multiple (Z.of_nat (S j)) incl lo hi); [lia | exact Hempty | lia | exact Ok2].
      * split; [lia |].
        apply (stage_multiple (Z.of_nat (S j)) incl lo hi); [lia | exact Hempty | lia | exact Ok1].
    + apply andb_true_iff in Ok1 as [Hpos%Z.ltb_lt Ok1]. injection H as <- <-.
      split; [lia |].
      apply (stage_multiple (Z.of_nat (S j)) incl lo hi); [lia | exact Hempty | lia | exact Ok1].
    + injection H as <- <-. split; [lia |].
      apply (stage_multiple (Z.of_nat (S j)) incl lo hi); [lia | exact Hempty | lia | exact Ok2].
    + apply (IH c j'); [| exact H].
      replace (Z.of_nat j + 1) with (Z.of_nat (S j)) by lia.
      apply (stage_empty_below (Z.of_nat (S j)) incl v lo hi); [lia | exact Hv | exact Hin | |].
      * exact Ok1.
      * exact Ok2.
Qed.

(** The first stage of the search is above the interval. *)
Lemma first_stage_empty incl v lo hi :
  0 < v -> hi <= 2 * v ->
  stage_empty (Z.of_nat (Z.to_nat (Z.log2 v / 3 + 1)) + 1) incl lo hi.
Proof.
  intros Hv Hhi x Hx.
  pose proof (Z.log2_nonneg v) as HL.
  assert (Hq : 0 <= Z.log2 v / 3) by (apply Z.div_pos; lia).
  rewrite Z2Nat.id by lia.
  set (q := Z.log2 v / 3) in *.
  assert (Hlog : v < 2 ^ (3 * (q + 1))).
  { destruct (Z.log2_spec v Hv) as [_ Hlt].
    eapply Z.lt_le_trans; [exact Hlt |].
    apply Z.pow_le_mono_r; [lia |].
    pose proof (Z.mul_succ_div_gt (Z.log2 v) 3 ltac:(lia)). fold q in H. lia. }
  assert (Hpow : 2 ^ (3 * (q + 1)) <= 10 ^ (q + 1)).
  { rewrite Z.pow_mul_r by lia. change (2 ^ 3) with 8.
    apply Z.pow_le_mono_l. lia. }
  assert (H10 : 10 ^ (q + 1 + 1) = 10 * 10 ^ (q + 1)).
  { rewrite Z.pow_add_r by lia. rewrite Z.pow_1_r. ring. }
  rewrite H10.
  assert (hi < x * (4 * (10 * 10 ^ (q + 1)))) by nia.
  unfold strconv.inside. destruct incl.
  - apply andb_false_iff. right. apply Z.leb_gt. lia.
  - apply andb_false_iff. right. apply Z.ltb_ge. lia.
Qed.

(** The number whose digits [shortest] returns does not end in [0]. *)
Lemma shortest_digits (m : positive) (e : Z) :
  exists c, 0 < c /\ c mod 10 <> 0 /\ fst (strconv.shortest m e) = strconv.itoa c.
Proof.
  unfold strconv.shortest.
  set (w := if 0 <=? e then 2 ^ e else 5 ^ (- e)).
  assert (Hw : 0 < w).
  { unfold w. destruct (Z.leb_spec 0 e); apply Z.pow_pos_nonneg; lia. }
  set (v := 4 * Z.pos m * w).
  set (closer := (Z.pos m =? 2 ^ (f64.prec - 1)) && (3 - f64.emax - f64.prec <? e)).
  set (lo := v - (if closer then w else 2 * w)).
  set (hi := v + 2 * w).
  assert (Hv : 0 < v) by (unfold v; nia).
  assert (Hin : lo < v < hi) by (unfold lo, hi; destruct closer; lia).
  assert (H4 : (4 | v)) by (exists (Z.pos m * w); unfold v; ring).
  assert (Hhi : hi <= 2 * v) by (unfold hi, v; nia).
  destruct (strconv.shortest_go (Z.to_nat (Z.log2 v / 3 + 1)) (Z.even (Z.pos m)) v lo hi)
    as [c j] eqn:Ego.
  destruct (shortest_go_last_digit _ _ _ _ _ _ _ Hv Hin H4
              (first_stage_empty _ _ _ _ Hv Hhi) Ego) as [Hc Hmod].
  exists c. repeat split; assumption.
Qed.

Lemma chr_digit (r : Z) : 0 <= r < 10 -> digit_char (chr (48 + r)) = true.
Proof.
  intros Hr.
  assert (r = 0 \/ r = 1 \/ r = 2 \/ r = 3 \/ r = 4 \/ r = 5 \/ r = 6 \/ r = 7
          \/ r = 8 \/ r = 9) as H by lia.
  repeat destruct H as [-> | H]; try reflexivity. subst r. reflexivity.
Qed.

Lemma chr_digit_nonzero (r : Z) :
  0 < r < 10 -> Ascii.eqb (chr (48 + r)) "0" || Ascii.eqb (chr (48 + r)) "." = false.
Proof.
  intros Hr.
  assert (r = 1 \/ r = 2 \/ r = 3 \/ r = 4 \/ r = 5 \/ r = 6 \/ r = 7
          \/ r = 8 \/ r = 9) as H by lia.
  repeat destruct H as [-> | H]; try reflexivity. subst r. reflexivity.
Qed.

Lemma itoa_go_shape (fuel : nat) :
  forall n acc, 0 <= n ->
    exists X, strconv.itoa_go fuel n acc = X +:+ String (chr (48 + n mod 10)) acc
              /\ str_all digit_char X = true.
Proof.
  induction fuel as [|fuel IH]; intros n acc Hn.
  - exists "". split; reflexivity.
  - cbn [strconv.itoa_go]. destruct (n <? 10); [exists ""; split; reflexivity |].
    destruct (IH (n / 10) (String (chr (48 + n mod 10)) acc)) as (X & -> & HX).
    { apply Z.div_pos; lia. }
    exists (X +:+ String (chr (48 + (n / 10) mod 10)) ""). split.
    + rewrite app_str_assoc. reflexivity.
    + rewrite str_all_app, HX. simpl. rewrite andb_true_r.
      apply chr_digit, Z.mod_pos_bound. lia.
Qed.

Lemma itoa_shape (n : Z) :
  0 <= n ->
  exists X, strconv.itoa n = X +:+ String (chr (48 + n mod 10)) ""
            /\ str_all digit_char X = true.
Proof. intros Hn. apply itoa_go_shape, Hn. Qed.

Lemma has_char_app c (a b : string) : has_char c (a +:+ b) = has_char c a || has_char c b.
Proof.
  induction a as [|x a IH]; [reflexivity |].
  rewrite app_str_cons. simpl. rewrite IH. apply orb_assoc.
Qed.

Lemma last_char_app (a b : string) : b <> "" -> last_char (a +:+ b) = last_char b.
Proof.
  intros Hb. induction a as [|x a IH]; [reflexivity |].
  rewrite app_str_cons. simpl. rewrite IH.
  destruct (a +:+ b) eqn:E; [| reflexivity].
  destruct a; [rewrite app_str_nil_l in E; congruence | discriminate].
Qed.

Lemma digits_no_point (s : string) : str_all digit_char s = true -> has_char "." s = false.
Proof.
  induction s as [|c s IH]; [reflexivity |]. simpl.
  intros [Hc Hs]%andb_true_iff. rewrite (IH Hs), orb_false_r.
  revert Hc. unfold digit_char. all_bytes c.
Qed.

Lemma str_all_take P (n : nat) (s : string) :
  str_all P s = true -> str_all P (take_str n s) = true.
Proof.
  revert s. induction n as [|n IH]; intros [|c s]; simpl; try reflexivity.
  intros [Hc Hs]%andb_true_iff. rewrite Hc, (IH _ Hs). reflexivity.
Qed.

Lemma str_all_zeros (n : nat) : str_all digit_char (strconv.zeros n) = true.
Proof. induction n as [|n IH]; [reflexivity |]. simpl. exact IH. Qed.

Lemma last_char_fraction (d : string) (dp : Z) (n : nat) :
  forall i, last_char (strconv.fraction d dp i (S n)) = Some (strconv.digit_at d (dp + i + Z.of_nat n)).
Proof.
  induction n as [|n IH]; intros i.
  - simpl. do 2 f_equal. lia.
  - change (strconv.fraction d dp i (S (S n)))
      with (String (strconv.digit_at d (dp + i)) (strconv.fraction d dp (i + 1) (S n))).
    change (last_char (String ?c ?t)) with
      (match t with EmptyString => Some c | String _ _ => last_char t end).
    rewrite IH. cbn [strconv.fraction]. do 2 f_equal. lia.
Qed.

Lemma get_app_last (X : string) (c : ascii) :
  String.get (String.length X) (X +:+ String c "") = Some c.
Proof. induction X as [|x X IH]; [reflexivity |]. rewrite app_str_cons. simpl. exact IH. Qed.

Lemma digit_at_last (X : string) (c : ascii) :
  strconv.digit_at (X +:+ String c "") (len (X +:+ String c "") - 1) = c.
Proof.
  unfold strconv.digit_at. rewrite len_app.
  replace (len X + len (String c "") - 1) with (len X) by (unfold len; simpl; lia).
  pose proof (len_nonneg X). destruct (Z.ltb_spec (len X) 0); [lia |].
  unfold len. rewrite Nat2Z.id, get_app_last. reflexivity.
Qed.

Lemma sign_no_point (neg : bool) : has_char "." (if neg then "-" else "") = false.
Proof. destruct neg; reflexivity. Qed.

(** [%f] of digits that do not end in [0]. *)
Lemma fmtF_no_trailing_zero (neg : bool) (X : string) (r dp : Z) :
  str_all digit_char X = true -> 0 < r < 10 ->
  let d := X +:+ String (chr (48 + r)) "" in
  trailing_zero (strconv.fmtF neg d dp (Z.max (len d - dp) 0)) = false.
Proof.
  intros HX Hr d.
  assert (Hd : str_all digit_char d = true).
  { unfold d. rewrite str_all_app, HX. simpl. rewrite andb_true_r. apply chr_digit. lia. }
  unfold strconv.fmtF, trailing_zero.
  set (int := if 0 <? dp
              then take_str (Z.to_nat (Z.min (len d) dp)) d
                   +:+ strconv.zeros (Z.to_nat (dp - Z.min (len d) dp))
              else "0").
  assert (Hint : has_char "." int = false).
  { apply digits_no_point. unfold int. destruct (0 <? dp); [| reflexivity].
    rewrite str_all_app, str_all_take, str_all_zeros by exact Hd. reflexivity. }
  destruct (Z.ltb_spec 0 (Z.max (len d - dp) 0)) as [Hprec | Hprec].
  - (* a fraction: its last digit is the last digit of [d] *)
    apply andb_false_iff. right.
    rewrite <- !app_str_assoc.
    destruct (Z.to_nat (Z.max (len d - dp) 0)) as [|n] eqn:En; [lia |].
    rewrite last_char_app by (cbn [strconv.fraction]; discriminate).
    rewrite last_char_fraction.
    replace (dp + 0 + Z.of_nat n) with (len d - 1) by lia.
    unfold d. rewrite !digit_at_last. apply chr_digit_nonzero, Hr.
  - (* no fraction, no point *)
    apply andb_false_iff. left.
    rewrite !has_char_app, sign_no_point, Hint. reflexivity.
Qed.

(** [FormatFloat(f, 'f', -1, 64)] never ends its fraction with a zero. *)
Lemma FormatFloat_f_no_trailing_zero (f : float64) :
  trailing_zero (strconv.FormatFloat f "f") = false.
Proof.
  destruct f as [s | s | | s m e].
  - destruct s; reflexivity.
  - destruct s; reflexivity.
  - reflexivity.
  - unfold strconv.FormatFloat.
    destruct (strconv.shortest m e) as [d dp] eqn:Es.
    destruct (shortest_digits m e) as (c & Hc & Hmod & Hd).
    rewrite Es in Hd. simpl in Hd. subst d.
    destruct (itoa_shape c ltac:(lia)) as (X & -> & HX).
    change (Ascii.eqb "f" "e") with false. change (Ascii.eqb "f" "f") with true. cbv iota.
    apply fmtF_no_trailing_zero; [exact HX |].
    pose proof (Z.mod_pos_bound c 10 ltac:(lia)). lia.
Qed.

(** ** The pass of [fetchLiveOdds] over the records *)

Section OddsPass.

Variables (gameID sport : string) (now : Time).

Lemma odds_pass_flat (results : list (list (gmap string any))) (st : pass) :
  odds_pass gameID sport now results st = run gameID sport now (concat results) st.
Proof.
  unfold odds_pass, run. revert st.
  induction results as [|group results IH]; intros st; [reflexivity |].
  simpl. rewrite fold_left_app. apply IH.
Qed.

Lemma run_cons (x : gmap string any) (xs : list (gmap string any)) (st : pass) :
  run gameID sport now (x :: xs) st
  = run gameID sport now xs (odds_item gameID sport now st x).
Proof. reflexivity. Qed.

Lemma run_nil (st : pass) : run gameID sport now [] st = st.
Proof. reflexivity. Qed.

Lemma run_app (xs ys : list (gmap string any)) (st : pass) :
  run gameID sport now (xs ++ ys) st
  = run gameID sport now ys (run gameID sport now xs st).
Proof. apply fold_left_app. Qed.

(** A market group sets the context and emits nothing. *)
Lemma odds_item_MG (st : pass) (item : gmap string any) :
  is_MG item = true ->
  odds_item gameID sport now st item
  = {| currentMarketID := fmt.Sprintv (mapindex item "ID");
       currentMarketName := fmt.Sprintv (mapindex item "NA");
       odds := odds st |}.
Proof. unfold is_MG, item_type, odds_item. intros ->. reflexivity. Qed.

Lemma is_MG_not_PA (item : gmap string any) : is_MG item = true -> is_PA item = false.
Proof.
  unfold is_MG, is_PA. intros H%String.eqb_eq. rewrite H. reflexivity.
Qed.

(** A record that emits nothing and is no market group changes nothing. *)
Lemma odds_item_skip (st : pass) (item : gmap string any) :
  is_MG item = false -> emits item = false -> odds_item gameID sport now st item = st.
Proof.
  unfold is_MG, emits, is_PA, item_type, odds_item. intros -> H.
  destruct (String.eqb _ "PA"); [| reflexivity].
  simpl in H. destruct (getOddsField item) as [o ok]. simpl in H. subst ok. reflexivity.
Qed.

(** A selection with an odds key appends one record, tagged with the
    context, and keeps the context. *)
Lemma odds_item_PA (st : pass) (item : gmap string any) :
  is_MG item = false -> emits item = true ->
  exists o,
    odds_item gameID sport now st item
    = {| currentMarketID := currentMarketID st;
         currentMarketName := currentMarketName st;
         odds := odds st ++ [o] |}
    /\ Odd.GameID o = gameID /\ Odd.Sport o = sport
    /\ Odd.MarketID o = currentMarketID st
    /\ Odd.MarketName o = currentMarketName st
    /\ Odd.SelectionID o = fmt.Sprintv (mapindex item "ID")
    /\ Odd.SelectionName o = fmt.Sprintv (mapindex item "NA")
    /\ Odd.Line o = fmt.Sprintv (mapindex item "HA")
    /\ Odd.PriceDec o = fst (fst (fracToDecimal (fst (getOddsField item))))
    /\ Odd.PriceFrac o = snd (fst (fracToDecimal (fst (getOddsField item))))
    /\ Odd.FetchedAt o = now.
Proof.
  unfold is_MG, emits, is_PA, item_type, odds_item. intros -> H.
  apply andb_true_iff in H as [-> H].
  destruct (getOddsField item) as [oddsStr ok]. simpl in H. subst ok. simpl.
  destruct (fracToDecimal oddsStr) as [[priceDec priceFrac] okf]. simpl.
  eexists. split; [reflexivity |]. repeat split.
Qed.

Lemma emits_not_MG (item : gmap string any) : emits item = true -> is_MG item = false.
Proof.
  unfold emits, is_PA, is_MG. intros [H _]%andb_true_iff.
  apply String.eqb_eq in H. rewrite H. reflexivity.
Qed.

(** What was emitted stays, in its place. *)
Lemma run_odds_prefix (items : list (gmap string any)) :
  forall st, exists tail, odds (run gameID sport now items st) = odds st ++ tail.
Proof.
  induction items as [|item items IH]; intros st.
  - exists []. simpl. now rewrite app_nil_r.
  - simpl. destruct (IH (odds_item gameID sport now st item)) as [tail ->].
    destruct (is_MG item) eqn:Emg.
    + rewrite (odds_item_MG _ _ Emg). simpl. eauto.
    + destruct (emits item) eqn:Eem.
      * destruct (odds_item_PA st item Emg Eem) as (o & -> & _). simpl.
        exists (o :: tail). now rewrite <- app_assoc.
      * rewrite (odds_item_skip _ _ Emg Eem). eauto.
Qed.

(** Without a market group the context stays. *)
Lemma run_context_kept (items : list (gmap string any)) :
  forall st,
    forallb (fun i => negb (is_MG i)) items = true ->
    currentMarketID (run gameID sport now items st) = currentMarketID st
    /\ currentMarketName (run gameID sport now items st) = currentMarketName st.
Proof.
  induction items as [|item items IH]; intros st H; [split; reflexivity |].
  simpl in H. apply andb_true_iff in H as [Hi H]. apply negb_true_iff in Hi.
  simpl. destruct (IH (odds_item gameID sport now st item) H) as [-> ->].
  destruct (emits item) eqn:Eem.
  - destruct (odds_item_PA st item Hi Eem) as (o & -> & _). split; reflexivity.
  - rewrite (odds_item_skip _ _ Hi Eem). split; reflexivity.
Qed.

(** The number of records emitted: one for each selection that has an
    odds key. *)
Lemma run_length (items : list (gmap string any)) :
  forall st,
    length (odds (run gameID sport now items st))
    = (length (odds st) + length (filter (fun i => emits i = true) items))%nat.
Proof.
  induction items as [|item items IH]; intros st; [simpl; lia |].
  simpl. rewrite IH.
  destruct (is_MG item) eqn:Emg.
  - rewrite (odds_item_MG _ _ Emg). simpl.
    rewrite filter_cons_False; [reflexivity |].
    pose proof (is_MG_not_PA _ Emg) as Hpa. unfold emits. rewrite Hpa. simpl. congruence.
  - destruct (emits item) eqn:Eem.
    + destruct (odds_item_PA st item Emg Eem) as (o & -> & _). simpl.
      rewrite filter_cons_True by exact Eem. rewrite length_app. simpl. lia.
    + rewrite (odds_item_skip _ _ Emg Eem).
      rewrite filter_cons_False by congruence. reflexivity.
Qed.

(** A selection that follows the records [pre], none of them a market
    group, is tagged with the context [pre] started from. *)
Lemma run_tags (pre post : list (gmap string any)) (pa : gmap string any) (st : pass) :
  forallb (fun i => negb (is_MG i)) pre = true ->
  emits pa = true ->
  exists o tail,
    odds (run gameID sport now (pre ++ pa :: post) st)
    = odds (run gameID sport now pre st) ++ o :: tail
    /\ Odd.MarketID o = currentMarketID st
    /\ Odd.MarketName o = currentMarketName st
    /\ Odd.SelectionID o = fmt.Sprintv (mapindex pa "ID")
    /\ Odd.SelectionName o = fmt.Sprintv (mapindex pa "NA").
Proof.
  intros Hpre Hpa.
  rewrite run_app. simpl.
  destruct (run_context_kept pre st Hpre) as [Hid Hname].
  destruct (odds_item_PA (run gameID sport now pre st) pa (emits_not_MG _ Hpa) Hpa)
    as (o & Eo & _ & _ & Hm & Hn & Hs & Hsn & _).
  rewrite Eo.
  destruct (run_odds_prefix post
              {| currentMarketID := currentMarketID (run gameID sport now pre st);
                 currentMarketName := currentMarketName (run gameID sport now pre st);
                 odds := odds (run gameID sport now pre st) ++ [o] |}) as [tail ->].
  simpl. exists o, tail. rewrite <- app_assoc. simpl.
  repeat split; congruence.
Qed.

(** Every record emitted carries the game and the sport of the call. *)
Lemma run_game_sport (items : list (gmap string any)) :
  forall st,
    Forall (fun o => Odd.GameID o = gameID /\ Odd.Sport o = sport) (odds st) ->
    Forall (fun o => Odd.GameID o = gameID /\ Odd.Sport o = sport)
      (odds (run gameID sport now items st)).
Proof.
  induction items as [|item items IH]; intros st Hst; [exact Hst |].
  simpl. apply IH.
  destruct (is_MG item) eqn:Emg.
  - rewrite (odds_item_MG _ _ Emg). exact Hst.
  - destruct (emits item) eqn:Eem.
    + destruct (odds_item_PA st item Emg Eem) as (o & -> & Hg & Hs & _). simpl.
      apply Forall_app. split; [exact Hst |]. constructor; [split; assumption | constructor].
    + rewrite (odds_item_skip _ _ Emg Eem). exact Hst.
Qed.

End OddsPass.

Lemma fetchLiveOdds_fetched (up : Upstream) (gameID sport : string) (resp : APIResponse) :
  get_liveodds up gameID = Fetched resp ->
  fetchLiveOdds up gameID sport
  = (odds (run gameID sport (time_Now up) (concat (Results resp)) pass_init), None).
Proof. unfold fetchLiveOdds. intros ->. rewrite odds_pass_flat. reflexivity. Qed.

(** ** The pass of [fetchLiveOdds]: market context and odds keys *)

(** C1. Market-context propagation in [fetchLiveOdds].  The groups of
    a response are processed in order as one pass over their records:
    a record of type "MG" sets the current market id and name and emits
    nothing; a record of type "PA" with an odds key that comes after a
    market group [mg], with no other market group in between, is emitted
    with the id and the name of [mg], at the place of the output that
    its rank among the emitting records gives; and for the stream
    [MG, PA, PA, MG, PA] exactly three records come out, the first two
    tagged with the first market and the third with the second. *)
Theorem market_context_propagation
    (up : Upstream) (gameID sport : string) (resp : APIResponse) :
  get_liveodds up gameID = Fetched resp ->
  (forall st mg, is_MG mg = true ->
     let st' := odds_item gameID sport (time_Now up) st mg in
     currentMarketID st' = fmt.Sprintv (mapindex mg "ID")
     /\ currentMarketName st' = fmt.Sprintv (mapindex mg "NA")
     /\ odds st' = odds st)
  /\ (forall pre mg mid pa post,
        concat (Results resp) = pre ++ mg :: mid ++ pa :: post ->
        is_MG mg = true ->
        forallb (fun i => negb (is_MG i)) mid = true ->
        emits pa = true ->
        exists before o tail,
          fetchLiveOdds up gameID sport = (before ++ o :: tail, None)
          /\ length before = length (filter (fun i => emits i = true) (pre ++ mg :: mid))
          /\ Odd.MarketID o = fmt.Sprintv (mapindex mg "ID")
          /\ Odd.MarketName o = fmt.Sprintv (mapindex mg "NA")
          /\ Odd.SelectionID o = fmt.Sprintv (mapindex pa "ID"))
  /\ (forall mg1 pa1 pa2 mg2 pa3,
        concat (Results resp) = [mg1; pa1; pa2; mg2; pa3] ->
        is_MG mg1 = true -> emits pa1 = true -> emits pa2 = true ->
        is_MG mg2 = true -> emits pa3 = true ->
        exists o1 o2 o3,
          fetchLiveOdds up gameID sport = ([o1; o2; o3], None)
          /\ Odd.SelectionID o1 = fmt.Sprintv (mapindex pa1 "ID")
          /\ Odd.MarketID o1 = fmt.Sprintv (mapindex mg1 "ID")
          /\ Odd.MarketName o1 = fmt.Sprintv (mapindex mg1 "NA")
          /\ Odd.SelectionID o2 = fmt.Sprintv (mapindex pa2 "ID")
          /\ Odd.MarketID o2 = fmt.Sprintv (mapindex mg1 "ID")
          /\ Odd.MarketName o2 = fmt.Sprintv (mapindex mg1 "NA")
          /\ Odd.SelectionID o3 = fmt.Sprintv (mapindex pa3 "ID")
          /\ Odd.MarketID o3 = fmt.Sprintv (mapindex mg2 "ID")
          /\ Odd.MarketName o3 = fmt.Sprintv (mapindex mg2 "NA")).
Proof.
  intros Hresp. rewrite (fetchLiveOdds_fetched _ _ sport _ Hresp).
  set (now := time_Now up). split; [| split].
  - intros st mg Hmg. simpl. rewrite (odds_item_MG _ _ _ _ _ Hmg). repeat split.
  - intros pre mg mid pa post -> Hmg Hmid Hpa.
    rewrite run_app, run_cons.
    rewrite (odds_item_MG _ _ _ _ _ Hmg).
    set (st := {| currentMarketID := fmt.Sprintv (mapindex mg "ID");
                  currentMarketName := fmt.Sprintv (mapindex mg "NA");
                  odds := odds (run gameID sport now pre pass_init) |}).
    destruct (run_tags gameID sport now mid post pa st Hmid Hpa)
      as (o & tail & -> & Hm & Hn & Hs & _).
    exists (odds (run gameID sport now mid st)), o, tail.
    split; [reflexivity |]. split; [| repeat split; assumption].
    rewrite run_length. subst st. cbn [odds]. rewrite run_length. simpl.
    rewrite filter_app, length_app.
    rewrite (filter_cons_False _ mg).
    + reflexivity.
    + unfold emits. rewrite (is_MG_not_PA _ Hmg). simpl. congruence.
  - intros mg1 pa1 pa2 mg2 pa3 -> Hmg1 Hpa1 Hpa2 Hmg2 Hpa3.
    rewrite !run_cons, run_nil.
    rewrite (odds_item_MG _ _ _ _ _ Hmg1).
    match goal with |- context [odds_item _ _ _ ?st pa1] =>
      destruct (odds_item_PA gameID sport now st pa1 (emits_not_MG _ Hpa1) Hpa1)
        as (o1 & -> & _ & _ & Hm1 & Hn1 & Hs1 & _) end.
    match goal with |- context [odds_item _ _ _ ?st pa2] =>
      destruct (odds_item_PA gameID sport now st pa2 (emits_not_MG _ Hpa2) Hpa2)
        as (o2 & -> & _ & _ & Hm2 & Hn2 & Hs2 & _) end.
    rewrite (odds_item_MG _ _ _ _ _ Hmg2).
    match goal with |- context [odds_item _ _ _ ?st pa3] =>
      destruct (odds_item_PA gameID sport now st pa3 (emits_not_MG _ Hpa3) Hpa3)
        as (o3 & -> & _ & _ & Hm3 & Hn3 & Hs3 & _) end.
    exists o1, o2, o3. cbn [odds currentMarketID currentMarketName] in *.
    repeat split; assumption.
Qed.

(** C9. A "PA" record (with an odds key) that comes before any "MG"
    record is not skipped: it is emitted, and its [MarketID] and
    [MarketName] are the empty string. *)
Theorem selection_before_any_market
    (up : Upstream) (gameID sport : string) (resp : APIResponse)
    (pre post : list (gmap string any)) (pa : gmap string any) :
  get_liveodds up gameID = Fetched resp ->
  concat (Results resp) = pre ++ pa :: post ->
  forallb (fun i => negb (is_MG i)) pre = true ->
  emits pa = true ->
  exists before o tail,
    fetchLiveOdds up gameID sport = (before ++ o :: tail, None)
    /\ length before = length (filter (fun i => emits i = true) pre)
    /\ Odd.SelectionID o = fmt.Sprintv (mapindex pa "ID")
    /\ Odd.MarketID o = ""
    /\ Odd.MarketName o = "".
Proof.
  intros Hresp Hflat Hpre Hpa.
  rewrite (fetchLiveOdds_fetched _ _ sport _ Hresp), Hflat.
  destruct (run_tags gameID sport (time_Now up) pre post pa pass_init Hpre Hpa)
    as (o & tail & -> & Hm & Hn & Hs & _).
  exists (odds (run gameID sport (time_Now up) pre pass_init)), o, tail.
  split; [reflexivity |]. split; [| repeat split; assumption].
  rewrite run_length. reflexivity.
Qed.

(** C2. Odds-field priority and silent skip.  [getOddsField] takes the
    value of the first key present among "OD", "ODD", "ODDS"; with both
    "OD" and "ODDS" present the record emitted for a "PA" carries the
    price of the "OD" value; a "PA" record with none of the three keys
    changes nothing (no record, no error); a record whose type is
    neither "MG" nor "PA" changes nothing; and the pass never fails. *)
Theorem odds_field_priority (item : gmap string any) :
  getOddsField item
  = match item !! "OD", item !! "ODD", item !! "ODDS" with
    | Some v, _, _ => (fmt.Sprintv v, true)
    | None, Some v, _ => (fmt.Sprintv v, true)
    | None, None, Some v => (fmt.Sprintv v, true)
    | None, None, None => ("", false)
    end
  /\ (forall v1 v2 gameID sport now st,
        item !! "OD" = Some v1 -> item !! "ODDS" = Some v2 -> is_PA item = true ->
        exists o,
          odds (odds_item gameID sport now st item) = odds st ++ [o]
          /\ Odd.PriceDec o = fst (fst (fracToDecimal (fmt.Sprintv v1)))
          /\ Odd.PriceFrac o = snd (fst (fracToDecimal (fmt.Sprintv v1))))
  /\ (forall gameID sport now st,
        is_PA item = true ->
        item !! "OD" = None -> item !! "ODD" = None -> item !! "ODDS" = None ->
        odds_item gameID sport now st item = st)
  /\ (forall gameID sport now st,
        is_MG item = false -> is_PA item = false ->
        odds_item gameID sport now st item = st)
  /\ (forall up gameID sport resp,
        get_liveodds up gameID = Fetched resp ->
        snd (fetchLiveOdds up gameID sport) = None).
Proof.
  assert (Hget : getOddsField item
                 = match item !! "OD", item !! "ODD", item !! "ODDS" with
                   | Some v, _, _ => (fmt.Sprintv v, true)
                   | None, Some v, _ => (fmt.Sprintv v, true)
                   | None, None, Some v => (fmt.Sprintv v, true)
                   | None, None, None => ("", false)
                   end).
  { unfold getOddsField. cbn [first_present].
    destruct (item !! "OD"), (item !! "ODD"), (item !! "ODDS"); reflexivity. }
  split; [exact Hget |]. split; [| split; [| split]].
  - intros v1 v2 gameID sport now st Hod _ Hpa.
    assert (Hem : emits item = true).
    { unfold emits. rewrite Hpa, Hget, Hod. reflexivity. }
    destruct (odds_item_PA gameID sport now st item (emits_not_MG _ Hem) Hem)
      as (o & -> & _ & _ & _ & _ & _ & _ & _ & Hd & Hf & _).
    exists o. rewrite Hget, Hod in Hd, Hf. repeat split; assumption.
  - intros gameID sport now st Hpa H1 H2 H3.
    apply odds_item_skip.
    + unfold is_PA in Hpa. unfold is_MG. apply String.eqb_eq in Hpa. rewrite Hpa. reflexivity.
    + unfold emits. rewrite Hget, H1, H2, H3. apply andb_false_r.
  - intros gameID sport now st Hmg Hpa.
    apply odds_item_skip; [exact Hmg |]. unfold emits. rewrite Hpa. reflexivity.
  - intros up gameID sport resp Hresp.
    rewrite (fetchLiveOdds_fetched _ _ sport _ Hresp). reflexivity.
Qed.

(** ** [fracToDecimal]: success and failure *)

(** ** [math.Round] gives the nearest integer *)

Lemma binary_normalize_nonzero (n : Z) (s : bool) :
  n <> 0 -> binary_normalize f64.prec f64.emax n 0 s = f64.of_Z n.
Proof. destruct n; [congruence | reflexivity | reflexivity]. Qed.

Lemma Round_nearest (t : float64) : rounded_to_integer t (math.Round t).
Proof.
  destruct t as [s | s | | s m e]; try reflexivity.
  unfold rounded_to_integer, math.Round.
  destruct (Z.leb_spec 0 e) as [He | He]; [reflexivity |].
  set (d := 2 ^ (- e)).
  assert (Hd : 0 < d) by (apply Z.pow_pos_nonneg; lia).
  pose proof (Z.div_mod (Zpos m) d ltac:(lia)) as Hdm.
  pose proof (Z.mod_pos_bound (Zpos m) d Hd) as Hr.
  set (q := Zpos m / d) in *. set (r := Zpos m mod d) in *.
  assert (Hq : 0 <= q) by (apply Z.div_pos; lia).
  exists (if d <=? 2 * r then q + 1 else q). split.
  - unfold nearest_integer. fold d.
    destruct (Z.leb_spec d (2 * r)); nia.
  - unfold float_of_integer.
    destruct (Z.eqb_spec (if d <=? 2 * r then q + 1 else q) 0) as [-> | Hn].
    + destruct s; reflexivity.
    + apply binary_normalize_nonzero. destruct s; lia.
Qed.

Lemma special_text_rounded (t : float64) :
  special_text t (strconv.FormatFloat (f64.div (math.Round t) (f64.of_Z 1000)) "f").
Proof. destruct t as [s | [|] | | s m e]; try exact I; reflexivity. Qed.

(** C3, as amended.  The success case of [fracToDecimal], in the
    arithmetic of [float64].  For a text "a/b" whose two parts
    [strconv.ParseFloat] accepts as [x] and [y], with [y == 0] false,
    the result is [ok = true] with the text of [r / 1000], where [r] is
    [t = (1 + x / y) * 1000] rounded to an integer: the integer nearest
    to [t], halves away from zero.  The sum, the quotients and the
    product are those of [float64], each rounded to the nearest
    [float64].  The text is the shortest that reads back as the
    result; it has no trailing zero.  When [t] is no number the text
    is "NaN", "+Inf" or "-Inf". *)
Theorem fracToDecimal_success (a b : string) (x y : float64) :
  strconv.ParseFloat a = (x, None) ->
  strconv.ParseFloat b = (y, None) ->
  f64.eqb y (f64.of_Z 0) = false ->
  let t := f64.mul (f64.add (f64.of_Z 1) (f64.div x y)) (f64.of_Z 1000) in
  exists r,
    rounded_to_integer t r
    /\ fracToDecimal (a +:+ "/" +:+ b)
       = (strconv.FormatFloat (f64.div r (f64.of_Z 1000)) "f", a +:+ "/" +:+ b, true)
    /\ trailing_zero (strconv.FormatFloat (f64.div r (f64.of_Z 1000)) "f") = false
    /\ special_text t (strconv.FormatFloat (f64.div r (f64.of_Z 1000)) "f").
Proof.
  intros Ha Hb Hy t. exists (math.Round t).
  split; [apply Round_nearest |].
  split; [exact (fracToDecimal_parsed a b x y Ha Hb Hy) |].
  split; [apply FormatFloat_f_no_trailing_zero | apply special_text_rounded].
Qed.

(** C4, as amended.  [fracToDecimal] works on the input with its
    leading and trailing white space removed: the second value is that
    trimmed text, for every input; and [ok] is false exactly when the
    split of the trimmed text on "/" does not have two parts, or one of
    the two parts does not parse, or the denominator is zero; the first
    value is then empty. *)
Theorem fracToDecimal_failure (s : string) :
  let t := strings.TrimSpace s in
  snd (fst (fracToDecimal s)) = t
  /\ (snd (fracToDecimal s) = false <->
      length (strings.Split t "/") <> 2%nat
      \/ exists p0 p1,
           strings.Split t "/" = [p0; p1]
           /\ (snd (strconv.ParseFloat p0) <> None
               \/ snd (strconv.ParseFloat p1) <> None
               \/ f64.eqb (fst (strconv.ParseFloat p1)) (f64.of_Z 0) = true))
  /\ (snd (fracToDecimal s) = false -> fst (fst (fracToDecimal s)) = "").
Proof.
  intros t. unfold fracToDecimal. fold t.
  destruct (strings.Split t "/") as [|p0 [|p1 [|p2 parts]]] eqn:Esplit.
  - simpl. repeat split; auto.
  - simpl. repeat split; auto.
  - destruct (strconv.ParseFloat p0) as [x e1] eqn:E0.
    destruct (strconv.ParseFloat p1) as [y e2] eqn:E1.
    destruct (not_nil e1 || not_nil e2 || f64.eqb y (f64.of_Z 0)) eqn:Econd; cbn [fst snd].
    + split; [reflexivity |]. split; [| reflexivity].
      split; [intros _ | reflexivity].
      right. exists p0, p1. split; [reflexivity |]. rewrite E0, E1. cbn [fst snd].
      apply orb_true_iff in Econd as [Econd | Econd]; [| auto].
      apply orb_true_iff in Econd as [Econd | Econd].
      * left. destruct e1; [discriminate | discriminate Econd].
      * right. left. destruct e2; [discriminate | discriminate Econd].
    + split; [reflexivity |]. split; [| discriminate].
      split; [discriminate |].
      intros [Hlen | (q0 & q1 & Hq & Hbad)]; [simpl in Hlen; congruence |].
      injection Hq as <- <-. rewrite E0, E1 in Hbad. cbn [fst snd] in Hbad.
      apply orb_false_iff in Econd as [Econd Ey].
      apply orb_false_iff in Econd as [Ee1 Ee2].
      destruct e1; [discriminate |]. destruct e2; [discriminate |].
      destruct Hbad as [? | [? | ?]]; congruence.
  - simpl. repeat split; auto.
Qed.

(** C4 as first stated does not hold: the input " 5/2 " is trimmed before
    anything else, so the second value is not the input, and [ok] is
    true although the parts of the input itself, " 5" and "2 ", do not
    parse. *)
Lemma fracToDecimal_keeps_input_counterexample :
  fracToDecimal " 5/2 " = ("3.5", "5/2", true)
  /\ "5/2" <> " 5/2 "
  /\ strings.Split " 5/2 " "/" = [" 5"; "2 "]
  /\ snd (strconv.ParseFloat " 5") <> None.
Proof. vm_compute. repeat split; congruence. Qed.

(** ** The store *)

Lemma round_trip_tables (db : DB) :
  games (snd (round_trip db)) = games db
  /\ liveodds (snd (round_trip db)) = liveodds db
  /\ db_now (snd (round_trip db)) = db_now db
  /\ db_current_date (snd (round_trip db)) = db_current_date db.
Proof. unfold round_trip. destruct (db_faults db); repeat split. Qed.

Lemma round_trip_fault (db : DB) : fst (round_trip db) = hd None (db_faults db).
Proof. unfold round_trip. destruct (db_faults db); reflexivity. Qed.

Lemma upsert_games_date (l : list Game) :
  forall db, db_current_date (fold_left upsert_game l db) = db_current_date db
             /\ liveodds (fold_left upsert_game l db) = liveodds db.
Proof.
  induction l as [|g l IH]; intros db; [split; reflexivity |].
  simpl. destruct (IH (upsert_game db g)) as [-> ->]. split; reflexivity.
Qed.

(** A row found after a batch of upserts was written by the batch or
    was there before. *)
Lemma upsert_games_lookup (l : list Game) :
  forall db id row,
    games (fold_left upsert_game l db) !! id = Some row ->
    (exists g, In g l /\ GameID g = id /\ StartsAt g = games_row.starts_at row)
    \/ games db !! id = Some row.
Proof.
  induction l as [|g l IH]; intros db id row H; [right; exact H |].
  simpl in H. apply IH in H as [(g' & Hin & Hid & Hst) | H].
  - left. exists g'. repeat split; [right; exact Hin | exact Hid | exact Hst].
  - unfold upsert_game in H. cbn [games set_games] in H.
    destruct (decide (GameID g = id)) as [Heq | Hne].
    + rewrite Heq, lookup_insert_eq in H. injection H as <-.
      left. exists g. repeat split; [left; reflexivity | exact Heq].
    + rewrite lookup_insert_ne in H by exact Hne. right. exact H.
Qed.

(** After the prune no row is old. *)
Lemma delete_old_games_lookup (db : DB) (id : string) (row : games_row.t) :
  games (delete_old_games db) !! id = Some row ->
  games db !! id = Some row /\ game_is_old (db_current_date db) row = false.
Proof.
  unfold delete_old_games. cbn [games set_games].
  intros H. apply map_lookup_filter_Some in H as [H1 H2]. split; assumption.
Qed.

(** Every odd of a batch is in the store once the batch is written. *)
Lemma upsert_odds_stored (l : list LiveOdd) :
  forall db,
    (forall k, is_Some (liveodds db !! k) -> is_Some (liveodds (fold_left upsert_odd l db) !! k))
    /\ (forall o, In o l -> is_Some (liveodds (fold_left upsert_odd l db) !! odd_key o))
    /\ games (fold_left upsert_odd l db) = games db.
Proof.
  induction l as [|o l IH]; intros db.
  - repeat split; [auto | intros o []].
  - simpl. destruct (IH (upsert_odd db o)) as (Hkeep & Hnew & Hgames).
    assert (Hstep : forall k, is_Some (liveodds db !! k) ->
                              is_Some (liveodds (upsert_odd db o) !! k)).
    { intros k Hk. unfold upsert_odd. cbn [liveodds set_liveodds].
      rewrite lookup_insert. destruct (decide _); [eauto | exact Hk]. }
    repeat split.
    + intros k Hk. apply Hkeep, Hstep, Hk.
    + intros o' [<- | Hin]; [| apply Hnew, Hin].
      apply Hkeep. unfold upsert_odd, odd_key. cbn [liveodds set_liveodds].
      rewrite lookup_insert_eq. eauto.
    + rewrite Hgames. reflexivity.
Qed.

(** ** The write paths and [/sync-games] *)

(** C6. Empty-batch no-op: with an empty list [upsertGames] and
    [insertLiveOdds] return [nil] and leave the store as it is: no
    deletion, no insertion, no round trip to the server. *)
Theorem empty_batch_noop (db : DB) :
  upsertGames db [] = (None, db) /\ insertLiveOdds db [] = (None, db).
Proof. split; reflexivity. Qed.

(** What [upsertGames] leaves when the prune went through: every row
    that is old was written by this batch. *)
Lemma upsertGames_purges (db : DB) (all : list Game) (id : string) (row : games_row.t) :
  all <> [] ->
  hd None (db_faults db) = None ->
  games (snd (upsertGames db all)) !! id = Some row ->
  game_is_old (db_current_date db) row = true ->
  exists g, In g all /\ GameID g = id /\ StartsAt g = games_row.starts_at row.
Proof.
  intros Hne Hfault Hrow Hold.
  unfold upsertGames, Exec in Hrow.
  destruct all as [|g0 all0]; [congruence |].
  set (all := g0 :: all0) in *.
  destruct (round_trip db) as [err db1] eqn:Ert.
  pose proof (round_trip_fault db) as Hf. rewrite Ert, Hfault in Hf. simpl in Hf. subst err.
  pose proof (round_trip_tables db) as (Hg & _ & _ & Hd). rewrite Ert in Hg, Hd. simpl in Hg, Hd.
  unfold SendBatch in Hrow.
  destruct (round_trip (delete_old_games db1)) as [err2 db2] eqn:Ert2.
  pose proof (round_trip_tables (delete_old_games db1)) as (Hg2 & _ & _ & Hd2).
  rewrite Ert2 in Hg2, Hd2. simpl in Hg2, Hd2.
  assert (Hclean : forall row', games db2 !! id = Some row' ->
                               game_is_old (db_current_date db) row' = false).
  { intros row' H'. rewrite Hg2 in H'. apply delete_old_games_lookup in H' as [_ H'].
    rewrite Hd in H'. exact H'. }
  destruct err2 as [e|]; cbn [snd] in Hrow.
  - apply Hclean in Hrow. congruence.
  - apply upsert_games_lookup in Hrow as [Hex | Hrow]; [exact Hex |].
    apply Hclean in Hrow. congruence.
Qed.

(** C5, as amended.  After a run of the game synchroniser that
    aggregated at least one game and whose prune statement went
    through, every stored row whose [starts_at] is before the current
    date is a row that this very run wrote (its game is in the
    aggregate); all other such rows are gone. *)
Theorem sync_games_purges_old
    (up : Upstream) (db : DB) (id : string) (row : games_row.t) :
  fst (fetchAllGames up) <> [] ->
  hd None (db_faults db) = None ->
  games (snd (sync_games up db)) !! id = Some row ->
  game_is_old (db_current_date db) row = true ->
  exists g, In g (fst (fetchAllGames up)) /\ GameID g = id
            /\ StartsAt g = games_row.starts_at row.
Proof.
  intros Hne Hfault Hrow Hold.
  apply (upsertGames_purges db (fst (fetchAllGames up)) id row Hne Hfault); [| exact Hold].
  unfold sync_games in Hrow.
  destruct (fetchAllGames up) as [all err] eqn:Eall.
  assert (err = None) as ->.
  { unfold fetchAllGames in Eall. injection Eall as _ <-. reflexivity. }
  simpl. destruct (upsertGames db all) as [[e|] db']; exact Hrow.
Qed.

(** C7. Best-effort aggregation of [/sync-games]: the four fetches
    (pre-match soccer, pre-match tennis, live soccer, live tennis) run
    in this order; the lists of those that did not fail are
    concatenated, a failed one counts for nothing; the aggregate goes to
    [upsertGames], and the answer is the number of aggregated games, or
    the error of [upsertGames]. *)
Theorem sync_games_best_effort (up : Upstream) (db : DB) :
  let all := flat_map fetched_games
               [fetchPreGames up "soccer"; fetchPreGames up "tennis";
                fetchLiveGames up "soccer"; fetchLiveGames up "tennis"] in
  fetchAllGames up = (all, None)
  /\ sync_games up db
     = match upsertGames db all with
       | (Some e, db') => (InternalError e, db')
       | (None, db') => (GamesSynced (Z.of_nat (length all)), db')
       end.
Proof.
  intros all.
  assert (Hall : fetchAllGames up = (all, None)).
  { unfold fetchAllGames, all. cbn [flat_map fetched_games].
    destruct (fetchPreGames up "soccer") as [g1 [e1|]];
      destruct (fetchPreGames up "tennis") as [g2 [e2|]];
      destruct (fetchLiveGames up "soccer") as [g3 [e3|]];
      destruct (fetchLiveGames up "tennis") as [g4 [e4|]];
      cbn [fetched_games]; rewrite ?app_nil_r, ?app_nil_l, <- ?app_assoc; reflexivity. }
  split; [exact Hall |].
  unfold sync_games. rewrite Hall.
  destruct (upsertGames db all) as [[e|] db']; reflexivity.
Qed.

(** ** The loop of [/update-liveodds] *)

Lemma getGameSport_tables (db : DB) (id : string) :
  games (snd (getGameSport db id)) = games db
  /\ liveodds (snd (getGameSport db id)) = liveodds db.
Proof.
  unfold getGameSport.
  pose proof (round_trip_tables db) as (Hg & Hl & _).
  destruct (round_trip db) as [[e|] db1]; simpl in *; [split; assumption |].
  destruct (games db1 !! id); simpl; split; assumption.
Qed.

Lemma insertLiveOdds_games (db : DB) (l : list LiveOdd) :
  games (snd (insertLiveOdds db l)) = games db.
Proof.
  unfold insertLiveOdds, Exec, SendBatch.
  destruct l as [|o l]; [reflexivity |].
  pose proof (round_trip_tables db) as (Hg & _).
  destruct (round_trip db) as [[e|] db1]; simpl in Hg; [exact Hg |].
  pose proof (round_trip_tables (delete_old_liveodds db1)) as (Hg2 & _).
  destruct (round_trip (delete_old_liveodds db1)) as [[e|] db2]; cbn [snd] in *.
  - rewrite Hg2. exact Hg.
  - destruct (upsert_odds_stored (o :: l) db2) as (_ & _ & ->). rewrite Hg2. exact Hg.
Qed.

Lemma insertLiveOdds_stored (db db' : DB) (l : list LiveOdd) :
  insertLiveOdds db l = (None, db') ->
  forall o, In o l -> is_Some (liveodds db' !! odd_key o).
Proof.
  unfold insertLiveOdds, Exec, SendBatch. intros H o Hin.
  destruct l as [|o0 l]; [destruct Hin |].
  destruct (round_trip db) as [[e|] db1]; [discriminate |].
  destruct (round_trip (delete_old_liveodds db1)) as [[e|] db2]; [discriminate |].
  injection H as <-.
  destruct (upsert_odds_stored (o0 :: l) db2) as (_ & Hnew & _). apply Hnew, Hin.
Qed.

Lemma update_liveodds_loop_app (up : Upstream) (ids1 ids2 : list string) :
  forall db n,
    update_liveodds_loop up (ids1 ++ ids2) db n
    = let '(n1, db1) := update_liveodds_loop up ids1 db n in
      update_liveodds_loop up ids2 db1 n1.
Proof.
  induction ids1 as [|id ids1 IH]; intros db n; [reflexivity |].
  cbn [app update_liveodds_loop].
  destruct (getGameSport db id) as [[sport e] db1].
  destruct (fetchLiveOdds up id sport) as [odds [err|]]; [apply IH |].
  destruct (insertLiveOdds db1 odds) as [[err|] db2]; apply IH.
Qed.

Lemma update_liveodds_loop_count (up : Upstream) (ids : list string) :
  forall db n,
    update_liveodds_loop up ids db n
    = (n + fst (update_liveodds_loop up ids db 0), snd (update_liveodds_loop up ids db 0)).
Proof.
  induction ids as [|id ids IH]; intros db n; [simpl; f_equal; lia |].
  cbn [update_liveodds_loop].
  destruct (getGameSport db id) as [[sport e] db1].
  destruct (fetchLiveOdds up id sport) as [odds [err|]]; [apply IH |].
  destruct (insertLiveOdds db1 odds) as [[err|] db2]; [apply IH |].
  rewrite (IH db2 (n + Z.of_nat (length odds))), (IH db2 (0 + Z.of_nat (length odds))).
  cbn [fst snd]. f_equal. lia.
Qed.

(** C8. Per-game isolation of [/update-liveodds].  The ids are
    processed one after the other, each on the store the previous one
    left.  For one id: when its odds fetch fails the tables are left as
    they were and nothing is counted; when its insert fails nothing is
    counted; in both cases the rest of the ids is processed all the
    same.  When both succeed the batch is in the store on which the next
    id is processed, and its length is counted.  The total is the sum
    of the counts of the ids, and it is what the handler reports. *)
Theorem update_liveodds_isolation (up : Upstream) :
  (forall ids1 ids2 db n,
      update_liveodds_loop up (ids1 ++ ids2) db n
      = let '(n1, db1) := update_liveodds_loop up ids1 db n in
        update_liveodds_loop up ids2 db1 n1)
  /\ (forall id rest db n sport e db1,
        getGameSport db id = (sport, e, db1) ->
        snd (fetchLiveOdds up id sport) <> None ->
        update_liveodds_loop up (id :: rest) db n = update_liveodds_loop up rest db1 n
        /\ games db1 = games db /\ liveodds db1 = liveodds db)
  /\ (forall id rest db n sport e db1 odds err db2,
        getGameSport db id = (sport, e, db1) ->
        fetchLiveOdds up id sport = (odds, None) ->
        insertLiveOdds db1 odds = (Some err, db2) ->
        update_liveodds_loop up (id :: rest) db n = update_liveodds_loop up rest db2 n
        /\ games db2 = games db)
  /\ (forall id rest db n sport e db1 odds db2,
        getGameSport db id = (sport, e, db1) ->
        fetchLiveOdds up id sport = (odds, None) ->
        insertLiveOdds db1 odds = (None, db2) ->
        update_liveodds_loop up (id :: rest) db n
        = update_liveodds_loop up rest db2 (n + Z.of_nat (length odds))
        /\ (forall o, In o odds -> is_Some (liveodds db2 !! odd_key o)))
  /\ (forall id rest db n,
        fst (update_liveodds_loop up (id :: rest) db n)
        = n + fst (update_liveodds_loop up [id] db 0)
          + fst (update_liveodds_loop up rest (snd (update_liveodds_loop up [id] db 0)) 0))
  /\ (forall db gameIDs db1,
        fetchLiveGameIDs db = (gameIDs, None, db1) ->
        update_liveodds up db
        = (OddsUpdated (fst (update_liveodds_loop up gameIDs db1 0)),
           snd (update_liveodds_loop up gameIDs db1 0))).
Proof.
  split; [exact (update_liveodds_loop_app up) |].
  split; [| split; [| split; [| split]]].
  - intros id rest db n sport e db1 Hsp Hfail.
    pose proof (getGameSport_tables db id) as Ht. rewrite Hsp in Ht. simpl in Ht.
    split; [| exact Ht].
    cbn [update_liveodds_loop]. rewrite Hsp.
    destruct (fetchLiveOdds up id sport) as [odds [err|]]; [reflexivity |].
    simpl in Hfail. congruence.
  - intros id rest db n sport e db1 odds err db2 Hsp Hfetch Hins.
    split.
    + cbn [update_liveodds_loop]. rewrite Hsp, Hfetch, Hins. reflexivity.
    + pose proof (insertLiveOdds_games db1 odds) as Hg. rewrite Hins in Hg. simpl in Hg.
      pose proof (getGameSport_tables db id) as [Ht _]. rewrite Hsp in Ht. simpl in Ht.
      congruence.
  - intros id rest db n sport e db1 odds db2 Hsp Hfetch Hins.
    split.
    + cbn [update_liveodds_loop]. rewrite Hsp, Hfetch, Hins. reflexivity.
    + exact (insertLiveOdds_stored db1 db2 odds Hins).
  - intros id rest db n.
    change (id :: rest) with ([id] ++ rest).
    rewrite update_liveodds_loop_app.
    rewrite (update_liveodds_loop_count up [id] db n).
    rewrite update_liveodds_loop_count. cbn [fst]. lia.
  - intros db gameIDs db1 Hids. unfold update_liveodds. rewrite Hids.
    destruct (update_liveodds_loop up gameIDs db1 0). reflexivity.
Qed.

(** C10. An error of [getGameSport] is discarded in the live-odds loop:
    the sport it returns is then the empty string, the game is not
    skipped but fetched with that sport, and every [LiveOdd] of the game
    carries [Sport = ""]. *)
Theorem sport_lookup_error_discarded
    (up : Upstream) (id : string) (rest : list string) (db db1 : DB) (n : Z)
    (sport : string) (e : go_error) :
  getGameSport db id = (sport, Some e, db1) ->
  sport = ""
  /\ update_liveodds_loop up (id :: rest) db n
     = match fetchLiveOdds up id "" with
       | (_, Some _) => update_liveodds_loop up rest db1 n
       | (odds, None) =>
         match insertLiveOdds db1 odds with
         | (Some _, db2) => update_liveodds_loop up rest db2 n
         | (None, db2) => update_liveodds_loop up rest db2 (n + Z.of_nat (length odds))
         end
       end
  /\ Forall (fun o => Odd.GameID o = id /\ Odd.Sport o = "") (fst (fetchLiveOdds up id "")).
Proof.
  intros Hsp.
  assert (sport = "") as ->.
  { unfold getGameSport in Hsp.
    destruct (round_trip db) as [[e'|] db']; [congruence |].
    destruct (games db' !! id); congruence. }
  split; [reflexivity |]. split.
  - cbn [update_liveodds_loop]. rewrite Hsp.
    destruct (fetchLiveOdds up id "") as [odds [err|]]; [reflexivity |].
    destruct (insertLiveOdds db1 odds) as [[err|] db2]; reflexivity.
  - unfold fetchLiveOdds. destruct (get_liveodds up id) as [resp | err]; [| constructor].
    cbn [fst]. rewrite odds_pass_flat. apply run_game_sport. constructor.
Qed.

(** ** The program at the sample data *)

Example fetchLiveOdds_sample :
  map tags (fst (fetchLiveOdds sample_up "42" "tennis"))
  = [["S1"; "M1"; "N1"; "<nil>"; "3.5"; "5/2"];
     ["S2"; "M1"; "N1"; "<nil>"; "1.333"; "1/3"];
     ["S3"; "M2"; "N2"; "2.5"; "1.909"; "10/11"]].
Proof. vm_compute. reflexivity. Qed.

Example fracToDecimal_samples :
  map fracToDecimal ["5/2"; "1/3"; "2/1"; "evens"; "1/0"; "1/2/3"; ""; " 9/4"]
  = [("3.5", "5/2", true); ("1.333", "1/3", true); ("3", "2/1", true);
     ("", "evens", false); ("", "1/0", false); ("", "1/2/3", false);
     ("", "", false); ("3.25", "9/4", true)].
Proof. vm_compute. reflexivity. Qed.

(** The arithmetic is that of [float64]: [1 + 0.2855] is the double
    just below 1.2855, and three decimals of it are 1.285. *)
Example fracToDecimal_binary64_sample :
  map fracToDecimal ["0.2855/1"; "1/2000"; "-1.0004/1"; "nan/1"; "1e308/1e-10"]
  = [("1.285", "0.2855/1", true); ("1.001", "1/2000", true); ("-0", "-1.0004/1", true);
     ("NaN", "nan/1", true); ("+Inf", "1e308/1e-10", true)].
Proof. vm_compute. reflexivity. Qed.

(** End to end: one pre-match soccer game and one live tennis game give
    two rows, tagged with their sport and source. *)
Example sync_games_sample :
  fst (sync_games sample_up old_db) = GamesSynced 2
  /\ (games_row.sport <$> games (snd (sync_games sample_up old_db)) !! "g1") = Some "soccer"
  /\ (games_row.source <$> games (snd (sync_games sample_up old_db)) !! "g1") = Some "pre"
  /\ (games_row.sport <$> games (snd (sync_games sample_up old_db)) !! "42") = Some "tennis"
  /\ (games_row.source <$> games (snd (sync_games sample_up old_db)) !! "42") = Some "live"
  /\ size (games (snd (sync_games sample_up old_db))) = 2%nat.
Proof. vm_compute. repeat split. Qed.

(** C1 at the stream of the specification. *)
Lemma market_context_propagation_witness :
  get_liveodds sample_up "42" = Fetched sample_odds
  /\ exists o1 o2 o3,
       fetchLiveOdds sample_up "42" "tennis" = ([o1; o2; o3], None)
       /\ [Odd.SelectionID o1; Odd.MarketID o1; Odd.MarketName o1] = ["S1"; "M1"; "N1"]
       /\ [Odd.SelectionID o2; Odd.MarketID o2; Odd.MarketName o2] = ["S2"; "M1"; "N1"]
       /\ [Odd.SelectionID o3; Odd.MarketID o3; Odd.MarketName o3] = ["S3"; "M2"; "N2"].
Proof.
  assert (Hresp : get_liveodds sample_up "42" = Fetched sample_odds) by reflexivity.
  split; [exact Hresp |].
  destruct (market_context_propagation sample_up "42" "tennis" sample_odds Hresp)
    as (_ & _ & Hfive).
  destruct (Hfive mg1 pa1 pa2 mg2 pa3) as (o1 & o2 & o3 & Hout & H);
    try (vm_compute; reflexivity).
  exists o1, o2, o3. split; [exact Hout |].
  destruct H as (-> & -> & -> & -> & -> & -> & -> & -> & ->).
  repeat split.
Defined.

(** C9 at a stream that starts with a selection. *)
Lemma selection_before_any_market_witness :
  get_liveodds sample_up "44" = Fetched early_odds
  /\ concat (Results early_odds) = [ev1] ++ pa2 :: [mg1; pa_bare; pa3]
  /\ forallb (fun i => negb (is_MG i)) [ev1] = true
  /\ emits pa2 = true
  /\ exists before o tail,
       fetchLiveOdds sample_up "44" "tennis" = (before ++ o :: tail, None)
       /\ length before = 0%nat
       /\ Odd.SelectionID o = "S2" /\ Odd.MarketID o = "" /\ Odd.MarketName o = "".
Proof.
  assert (H1 : get_liveodds sample_up "44" = Fetched early_odds) by reflexivity.
  assert (H2 : concat (Results early_odds) = [ev1] ++ pa2 :: [mg1; pa_bare; pa3])
    by reflexivity.
  assert (H3 : forallb (fun i => negb (is_MG i)) [ev1] = true) by (vm_compute; reflexivity).
  assert (H4 : emits pa2 = true) by (vm_compute; reflexivity).
  repeat (split; [assumption |]).
  destruct (selection_before_any_market sample_up "44" "tennis" early_odds
              [ev1] [mg1; pa_bare; pa3] pa2 H1 H2 H3 H4)
    as (before & o & tail & Hout & Hlen & Hs & Hm & Hn).
  exists before, o, tail. repeat split; assumption.
Defined.

(** C2 at a selection that has both "OD" and "ODDS". *)
Lemma odds_field_priority_witness :
  pa1 !! "OD" = Some (AString "5/2")
  /\ pa1 !! "ODDS" = Some (AString "9/1")
  /\ is_PA pa1 = true
  /\ getOddsField pa1 = ("5/2", true)
  /\ (exists o,
        odds (odds_item "42" "tennis" 0 pass_init pa1) = [] ++ [o]
        /\ Odd.PriceDec o = "3.5" /\ Odd.PriceFrac o = "5/2")
  /\ odds_item "42" "tennis" 0 pass_init pa_bare = pass_init
  /\ odds_item "42" "tennis" 0 pass_init ev1 = pass_init.
Proof.
  assert (H1 : pa1 !! "OD" = Some (AString "5/2")) by (vm_compute; reflexivity).
  assert (H2 : pa1 !! "ODDS" = Some (AString "9/1")) by (vm_compute; reflexivity).
  assert (H3 : is_PA pa1 = true) by (vm_compute; reflexivity).
  destruct (odds_field_priority pa1) as (Hget & Hboth & _).
  destruct (odds_field_priority pa_bare) as (_ & _ & Hbare & _).
  destruct (odds_field_priority ev1) as (_ & _ & _ & Hother & _).
  split; [exact H1 |]. split; [exact H2 |]. split; [exact H3 |].
  split; [rewrite Hget, H1; reflexivity |].
  split.
  - destruct (Hboth _ _ "42" "tennis" 0 pass_init H1 H2 H3) as (o & Ho & Hd & Hf).
    exists o. repeat split; [exact Ho | rewrite Hd | rewrite Hf]; vm_compute; reflexivity.
  - split.
    + apply Hbare; vm_compute; reflexivity.
    + apply Hother; vm_compute; reflexivity.
Defined.

(** C3 as first stated does not hold in exact arithmetic.  "119" and
    "400" parse, 400 is not zero, and [1 + 119/400] is 1.2975, which
    rounded at the third decimal is 1.298 (the half goes up, and 1298
    is the even neighbour as well); [fracToDecimal] gives "1.297",
    the sum and the product being those of [float64].  And "nan"
    parses: the result is then [ok = true] with the text "NaN". *)
Lemma fracToDecimal_exact_rounding_counterexample :
  strconv.ParseFloat "119" = (f64.of_Z 119, None)
  /\ strconv.ParseFloat "400" = (f64.of_Z 400, None)
  /\ f64.eqb (f64.of_Z 400) (f64.of_Z 0) = false
  /\ 1000 * (119 + 400) = 1297 * 400 + 200
  /\ exact_thousandths 119 400 = 1298
  /\ exact_thousandths_even 119 400 = 1298
  /\ thousandths_text 1298 = "1.298"
  /\ fracToDecimal "119/400" = ("1.297", "119/400", true)
  /\ snd (strconv.ParseFloat "nan") = None
  /\ fracToDecimal "nan/1" = ("NaN", "nan/1", true).
Proof. vm_compute. repeat split. Qed.

(** In exact arithmetic the first statement of C3 does hold on the
    odds "a/b" of two integers up to 30. *)
Example fracToDecimal_exact_on_small_odds :
  forallb (fun a => forallb (fun b => exact_on a b) (range 1 30)) (range 0 31) = true.
Proof. vm_compute. reflexivity. Qed.

(** C3 at "1/3", where the product is 1333.33..., and at "1/16", where
    it is the half 1062.5: the theorem gives the texts. *)
Lemma fracToDecimal_success_witness :
  strconv.ParseFloat "1" = (f64.of_Z 1, None)
  /\ strconv.ParseFloat "3" = (f64.of_Z 3, None)
  /\ strconv.ParseFloat "16" = (f64.of_Z 16, None)
  /\ f64.eqb (f64.of_Z 3) (f64.of_Z 0) = false
  /\ f64.eqb (f64.of_Z 16) (f64.of_Z 0) = false
  /\ fracToDecimal "1/3" = ("1.333", "1/3", true)
  /\ fracToDecimal "1/16" = ("1.063", "1/16", true).
Proof.
  assert (H1 : strconv.ParseFloat "1" = (f64.of_Z 1, None)) by (vm_compute; reflexivity).
  assert (H3 : strconv.ParseFloat "3" = (f64.of_Z 3, None)) by (vm_compute; reflexivity).
  assert (H16 : strconv.ParseFloat "16" = (f64.of_Z 16, None)) by (vm_compute; reflexivity).
  assert (Hz3 : f64.eqb (f64.of_Z 3) (f64.of_Z 0) = false) by (vm_compute; reflexivity).
  assert (Hz16 : f64.eqb (f64.of_Z 16) (f64.of_Z 0) = false) by (vm_compute; reflexivity).
  repeat (split; [assumption |]).
  split.
  - destruct (fracToDecimal_success "1" "3" _ _ H1 H3 Hz3) as (r & Hr & Hout & _).
    assert (Ht : f64.mul (f64.add (f64.of_Z 1) (f64.div (f64.of_Z 1) (f64.of_Z 3)))
                   (f64.of_Z 1000)
                 = S754_finite false 5864062014805333 (-42)) by (vm_compute; reflexivity).
    rewrite Ht in Hr. destruct Hr as (n & Hn & ->).
    assert (n = 1333) as -> by (unfold nearest_integer in Hn; lia).
    etransitivity; [exact Hout |]. vm_compute. reflexivity.
  - destruct (fracToDecimal_success "1" "16" _ _ H1 H16 Hz16) as (r & Hr & Hout & _).
    assert (Ht : f64.mul (f64.add (f64.of_Z 1) (f64.div (f64.of_Z 1) (f64.of_Z 16)))
                   (f64.of_Z 1000)
                 = S754_finite false 4672924418048000 (-42)) by (vm_compute; reflexivity).
    rewrite Ht in Hr. destruct Hr as (n & Hn & ->).
    assert (n = 1063) as -> by (unfold nearest_integer in Hn; lia).
    etransitivity; [exact Hout |]. vm_compute. reflexivity.
Defined.

(** C5 as first stated does not hold.  With an upstream that is down the
    aggregate is empty, [upsertGames] does nothing, and the old row
    "g0" is still there after the run; and a game of the aggregate that
    started before the current date ("g1") is written after the prune
    and is there after the run. *)
Lemma sync_games_keeps_old_counterexample :
  game_is_old (db_current_date old_db) old_row = true
  /\ games old_db !! "g0" = Some old_row
  /\ sync_games down_up old_db = (GamesSynced 0, old_db)
  /\ fst (sync_games sample_up old_db) = GamesSynced 2
  /\ (games_row.starts_at <$> games (snd (sync_games sample_up old_db)) !! "g1")
     = Some (Some (time_Unix 1600000000))
  /\ time_Unix 1600000000 < db_current_date old_db.
Proof. vm_compute. repeat split. Qed.

(** C5 as amended, at the sample data: the old row "g1" that the run
    leaves is a game of its aggregate. *)
Lemma sync_games_purges_old_witness :
  fst (fetchAllGames sample_up) <> []
  /\ hd None (db_faults old_db) = None
  /\ (exists row,
        games (snd (sync_games sample_up old_db)) !! "g1" = Some row
        /\ game_is_old (db_current_date old_db) row = true
        /\ exists g, In g (fst (fetchAllGames sample_up)) /\ GameID g = "g1"
                     /\ StartsAt g = games_row.starts_at row)
  /\ games (snd (sync_games sample_up old_db)) !! "g0" = None.
Proof.
  assert (H1 : fst (fetchAllGames sample_up) <> []) by (vm_compute; congruence).
  assert (H2 : hd None (db_faults old_db) = None) by reflexivity.
  repeat (split; [assumption |]).
  split; [| vm_compute; reflexivity].
  destruct (games (snd (sync_games sample_up old_db)) !! "g1") as [row|] eqn:Erow;
    [| vm_compute in Erow; discriminate].
  assert (Hold : game_is_old (db_current_date old_db) row = true).
  { vm_compute in Erow. injection Erow as <-. vm_compute. reflexivity. }
  exists row. repeat (split; [assumption || reflexivity |]).
  exact (sync_games_purges_old sample_up old_db "g1" row H1 H2 Erow Hold).
Defined.

(** C8 at the sample data: the game "42" gives three rows, the fetch
    for "43" fails and is skipped. *)
Lemma update_liveodds_isolation_witness :
  fetchLiveGameIDs live_db = (["42"; "43"], None, live_db)
  /\ snd (fetchLiveOdds sample_up "43" "tennis") <> None
  /\ fst (update_liveodds sample_up live_db) = OddsUpdated 3
  /\ fst (update_liveodds_loop sample_up ["43"; "42"] live_db 0) = 3.
Proof.
  assert (H1 : fetchLiveGameIDs live_db = (["42"; "43"], None, live_db))
    by (vm_compute; reflexivity).
  assert (H2 : snd (fetchLiveOdds sample_up "43" "tennis") <> None)
    by (vm_compute; congruence).
  repeat (split; [assumption |]).
  destruct (update_liveodds_isolation sample_up) as (_ & Hfail & _ & _ & _ & Hhandler).
  split.
  - rewrite (Hhandler live_db _ _ H1). vm_compute. reflexivity.
  - destruct (Hfail "43" ["42"] live_db 0 "tennis" None live_db) as (-> & _);
      [vm_compute; reflexivity | exact H2 |].
    vm_compute. reflexivity.
Defined.

(** C10 at a game that has no row: the lookup fails, the odds are
    fetched all the same, with an empty sport. *)
Lemma sport_lookup_error_discarded_witness :
  getGameSport old_db "42" = ("", Some (ErrExternal "no rows in result set"), old_db)
  /\ fst (update_liveodds_loop sample_up ["42"] old_db 0) = 3
  /\ Forall (fun o => Odd.GameID o = "42" /\ Odd.Sport o = "")
       (fst (fetchLiveOdds sample_up "42" "")).
Proof.
  assert (H1 : getGameSport old_db "42"
               = ("", Some (ErrExternal "no rows in result set"), old_db))
    by (vm_compute; reflexivity).
  split; [exact H1 |].
  destruct (sport_lookup_error_discarded sample_up "42" [] old_db old_db 0 "" _ H1)
    as (_ & Hloop & Hsport).
  split; [| exact Hsport].
  rewrite Hloop. vm_compute. reflexivity.
Defined.

(* ===================================================================== *)
(** * Further properties *)
(* ===================================================================== *)

(** ** White space around a text *)

Lemma space_char_ascii (c : ascii) :
  space_char c = true -> (utf8.RuneSelf <=? byte c) = false.
Proof. all_bytes c. Qed.

Lemma trim_ascii_left_spaces (ws s : string) :
  str_all space_char ws = true ->
  strings.trim_ascii_left (ws +:+ s) = strings.trim_ascii_left s.
Proof.
  induction ws as [|c ws IH]; intros H; [rewrite app_str_nil_l; reflexivity |].
  simpl in H. apply andb_true_iff in H as [Hc Hws].
  rewrite app_str_cons. cbn [strings.trim_ascii_left].
  rewrite (space_char_ascii _ Hc). unfold space_char in Hc. rewrite Hc.
  apply IH, Hws.
Qed.

Lemma trim_ascii_left_all_spaces (ws : string) :
  str_all space_char ws = true -> strings.trim_ascii_left ws = inl "".
Proof.
  intros H. rewrite <- (app_str_nil_r ws), trim_ascii_left_spaces by exact H. reflexivity.
Qed.

Lemma last_char_split (s : string) (c : ascii) :
  last_char s = Some c -> exists p, s = p +:+ String c "".
Proof.
  induction s as [|x s IH]; [discriminate |].
  destruct s as [|y s].
  - simpl. intros [= ->]. exists "". reflexivity.
  - intros H. change (last_char (String y s) = Some c) in H.
    destruct (IH H) as [p Hp]. exists (String x p). rewrite app_str_cons, <- Hp. reflexivity.
Qed.

(** [strings.TrimSpace] takes the ASCII white space off both ends of a
    text with solid ends, and nothing else. *)
Lemma TrimSpace_outer (ws1 ws2 s : string) :
  str_all space_char ws1 = true ->
  str_all space_char ws2 = true ->
  solid_ends s = true ->
  strings.TrimSpace (ws1 +:+ s +:+ ws2) = s.
Proof.
  intros H1 H2 Hs. unfold strings.TrimSpace.
  rewrite trim_ascii_left_spaces by exact H1.
  destruct s as [|c t].
  - rewrite app_str_nil_l, trim_ascii_left_all_spaces by exact H2. reflexivity.
  - unfold solid_ends in Hs. apply andb_true_iff in Hs as [Hc Hl].
    rewrite app_str_cons, (trim_ascii_left_solid _ _ Hc), <- app_str_cons.
    destruct (last_char (String c t)) as [c'|] eqn:El; [| discriminate].
    destruct (last_char_split _ _ El) as [p Hp].
    rewrite rev_str_app, trim_ascii_left_spaces by (rewrite str_all_rev; exact H2).
    rewrite Hp at 1. rewrite rev_str_app.
    change (rev_str (String c' "")) with (String c' "").
    rewrite app_str_cons, app_str_nil_l, (trim_ascii_left_solid _ _ Hl).
    rewrite <- (app_str_nil_l (rev_str p)), <- app_str_cons.
    change (String c' "") with (rev_str (String c' "")).
    rewrite <- rev_str_app, <- Hp. apply rev_str_involutive.
Qed.

Lemma TrimSpace_solid_ends (s : string) :
  solid_ends s = true -> strings.TrimSpace s = s.
Proof.
  intros H. rewrite <- (TrimSpace_outer "" "" s) at 2 by (reflexivity || exact H).
  rewrite app_str_nil_l, app_str_nil_r. reflexivity.
Qed.

(** X1. The two helpers that read a text of the upstream,
    [fracToDecimal] and [parseUnixMaybe], give the same result with and
    without ASCII white space (space, tab, line feed, vertical tab, form
    feed, carriage return) around a text that begins and ends with an
    ASCII byte that is no white space; the text that [fracToDecimal]
    hands back is the one without the white space. *)
Theorem outer_space_ignored (ws1 ws2 s : string) :
  str_all space_char ws1 = true ->
  str_all space_char ws2 = true ->
  solid_ends s = true ->
  fracToDecimal (ws1 +:+ s +:+ ws2) = fracToDecimal s
  /\ snd (fst (fracToDecimal (ws1 +:+ s +:+ ws2))) = s
  /\ parseUnixMaybe (ws1 +:+ s +:+ ws2) = parseUnixMaybe s.
Proof.
  intros H1 H2 Hs.
  assert (Hf : fracToDecimal (ws1 +:+ s +:+ ws2) = fracToDecimal s).
  { unfold fracToDecimal.
    rewrite (TrimSpace_outer _ _ _ H1 H2 Hs), (TrimSpace_solid_ends _ Hs). reflexivity. }
  split; [exact Hf |]. split.
  - rewrite Hf. unfold fracToDecimal. rewrite (TrimSpace_solid_ends _ Hs).
    destruct (strings.Split s "/") as [|p0 [|p1 [|p2 ps]]]; try reflexivity.
    destruct (strconv.ParseFloat p0) as [a e1], (strconv.ParseFloat p1) as [b e2].
    destruct (not_nil e1 || not_nil e2 || f64.eqb b (f64.of_Z 0)); reflexivity.
  - unfold parseUnixMaybe.
    rewrite (TrimSpace_outer _ _ _ H1 H2 Hs), (TrimSpace_solid_ends _ Hs). reflexivity.
Qed.

(** ** [parseUnixMaybe] *)

Lemma digits_value_bounds (s : string) :
  forall acc, strconv.all_digits s = true -> 0 <= acc -> acc <= strconv.digits_value acc s.
Proof.
  induction s as [|c s IH]; intros acc Hd Hacc; [simpl; lia |].
  simpl in Hd. apply andb_true_iff in Hd as [Hc Hs]. simpl.
  assert (48 <= byte c).
  { revert Hc. destruct c as [[|] [|] [|] [|] [|] [|] [|] [|]]; vm_compute; congruence. }
  specialize (IH (acc * 10 + (byte c - 48)) Hs). lia.
Qed.

Lemma ParseInt_value (s : string) (v : Z) :
  strconv.ParseInt s = (v, None) -> - 2 ^ 63 <= v < 2 ^ 63.
Proof.
  unfold strconv.ParseInt. destruct s as [|c t]; [discriminate |].
  set (p := if byte c =? 43 then (false, t)
            else if byte c =? 45 then (true, t) else (false, String c t)).
  destruct p as [neg ds]. destruct ds as [|d ds]; [discriminate |].
  destruct (strconv.all_digits (String d ds)) eqn:Hd; [| discriminate].
  pose proof (digits_value_bounds _ 0 Hd ltac:(lia)) as Hun.
  set (un := strconv.digits_value 0 (String d ds)) in *.
  destruct neg; cbn [negb andb].
  - destruct (Z.ltb_spec (2 ^ 63) un); [discriminate |]. intros [= <-]. lia.
  - destruct (Z.leb_spec (2 ^ 63) un); [discriminate |]. intros [= <-]. lia.
Qed.

(** A time that [parseUnixMaybe] gives is that of a positive second of
    the range of [int64]. *)
Lemma parseUnixMaybe_Some (s : string) (t : Time) :
  parseUnixMaybe s = Some t -> exists sec, 0 < sec < 2 ^ 63 /\ t = time_Unix sec.
Proof.
  unfold parseUnixMaybe.
  destruct (String.eqb (strings.TrimSpace s) ""); [discriminate |].
  destruct (strconv.ParseInt (strings.TrimSpace s)) as [sec [e|]] eqn:E; [discriminate |].
  destruct (Z.leb_spec sec 0); [discriminate |]. intros [= <-].
  apply ParseInt_value in E. exists sec. split; [lia | reflexivity].
Qed.

(** X2. [parseUnixMaybe] never gives a time at or before the epoch:
    what it gives is [time.Unix(sec, 0)] for a second [sec] with
    [0 < sec < 2^63]. *)
Theorem parseUnixMaybe_positive (s : string) (t : Time) :
  parseUnixMaybe s = Some t ->
  0 < t /\ exists sec, 0 < sec < 2 ^ 63 /\ t = time_Unix sec.
Proof.
  intros H. destruct (parseUnixMaybe_Some _ _ H) as (sec & Hsec & ->).
  split; [unfold time_Unix; lia |]. exists sec. split; [exact Hsec | reflexivity].
Qed.

Lemma digit_char_solid (c : ascii) : digit_char c = true -> solid_char c = true.
Proof. all_bytes c. Qed.

Lemma all_digits_str_all (s : string) : strconv.all_digits s = str_all digit_char s.
Proof. induction s as [|c s IH]; [reflexivity |]. simpl. rewrite IH. reflexivity. Qed.

Lemma digit_not_sign (c : ascii) :
  digit_char c = true -> (byte c =? 43) = false /\ (byte c =? 45) = false.
Proof.
  destruct c as [[|] [|] [|] [|] [|] [|] [|] [|]]; vm_compute;
    (discriminate || (intros _; split; reflexivity)).
Qed.

Lemma last_char_some (c : ascii) (t : string) : last_char (String c t) <> None.
Proof.
  revert c. induction t as [|y t IH]; intros c; [discriminate |].
  change (last_char (String y t) <> None). apply IH.
Qed.

Lemma solid_ends_all (s : string) : str_all solid_char s = true -> solid_ends s = true.
Proof.
  destruct s as [|c t]; [reflexivity |]. intros Hall. unfold solid_ends.
  destruct (last_char (String c t)) as [c'|] eqn:El; [| destruct (last_char_some _ _ El)].
  destruct (last_char_split _ _ El) as [p Hp].
  assert (Hc : solid_char c = true) by (simpl in Hall; apply andb_true_iff in Hall; tauto).
  rewrite Hc. rewrite Hp, str_all_app in Hall.
  apply andb_true_iff in Hall as [_ Hc']. simpl in Hc'.
  apply andb_true_iff in Hc' as [Hc' _]. exact Hc'.
Qed.

(** X3. On a text of decimal digits, with or without ASCII white space
    around it, [parseUnixMaybe] gives the time of the second the digits
    denote when that second is positive and below [2^63], and [nil]
    when it is zero or does not fit an [int64]. *)
Theorem parseUnixMaybe_digits (ws1 ws2 ds : string) :
  str_all space_char ws1 = true ->
  str_all space_char ws2 = true ->
  ds <> "" ->
  strconv.all_digits ds = true ->
  parseUnixMaybe (ws1 +:+ ds +:+ ws2)
  = let sec := strconv.digits_value 0 ds in
    if (0 <? sec) && (sec <? 2 ^ 63) then Some (time_Unix sec) else None.
Proof.
  intros H1 H2 Hne Hd.
  assert (Hsolid : str_all solid_char ds = true).
  { rewrite all_digits_str_all in Hd. exact (str_all_impl _ _ _ digit_char_solid Hd). }
  unfold parseUnixMaybe.
  pose proof (solid_ends_all _ Hsolid) as Hends.
  rewrite (TrimSpace_outer _ _ _ H1 H2 Hends).
  destruct ds as [|c t]; [congruence |].
  cbn [String.eqb]. unfold strconv.ParseInt.
  pose proof Hd as Hc. simpl in Hc. apply andb_true_iff in Hc as [Hc _].
  destruct (digit_not_sign c Hc) as [-> ->].
  rewrite Hd. cbn [negb andb].
  pose proof (digits_value_bounds _ 0 Hd ltac:(lia)) as Hun.
  set (un := strconv.digits_value 0 (String c t)) in *.
  cbv zeta.
  destruct (Z.leb_spec (2 ^ 63) un) as [Hbig | Hsmall].
  - destruct (Z.ltb_spec un (2 ^ 63)); [lia |]. rewrite andb_false_r. reflexivity.
  - destruct (Z.ltb_spec un (2 ^ 63)); [| lia]. rewrite andb_true_r.
    destruct (Z.leb_spec un 0), (Z.ltb_spec 0 un); try lia; reflexivity.
Qed.

(** ** [fracToDecimal]: the decimal is empty on failure only *)

Lemma length_take_str (n : nat) (s : string) :
  String.length (take_str n s) = Nat.min n (String.length s).
Proof.
  revert s. induction n as [|n IH]; intros [|c s]; simpl; try reflexivity.
  rewrite IH. reflexivity.
Qed.

Lemma length_zeros (n : nat) : String.length (strconv.zeros n) = n.
Proof. induction n as [|n IH]; simpl; [| rewrite IH]; reflexivity. Qed.

Lemma fmtF_nonempty (neg : bool) (d : string) (dp prec : Z) :
  strconv.fmtF neg d dp prec <> "".
Proof.
  intros H. apply (f_equal String.length) in H.
  unfold strconv.fmtF in H. rewrite !length_app_str in H.
  destruct (Z.ltb_spec 0 dp) as [Hdp | Hdp].
  - rewrite length_app_str, length_take_str, length_zeros in H.
    unfold len in H. simpl in H. lia.
  - simpl in H. lia.
Qed.

Lemma FormatFloat_f_nonempty (f : float64) : strconv.FormatFloat f "f" <> "".
Proof.
  destruct f as [s | s | | s m e]; try (destruct s; discriminate); try discriminate.
  unfold strconv.FormatFloat. destruct (strconv.shortest m e) as [d dp].
  change (Ascii.eqb "f" "e") with false. change (Ascii.eqb "f" "f") with true. cbv iota.
  apply fmtF_nonempty.
Qed.

(** X4. The decimal that [fracToDecimal] gives is the empty text
    exactly when the conversion failed: a successful conversion always
    gives a text. *)
Theorem fracToDecimal_empty_iff_failed (s : string) :
  fst (fst (fracToDecimal s)) = "" <-> snd (fracToDecimal s) = false.
Proof.
  unfold fracToDecimal.
  destruct (strings.Split (strings.TrimSpace s) "/") as [|p0 [|p1 [|p2 ps]]];
    try (split; reflexivity).
  destruct (strconv.ParseFloat p0) as [a e1], (strconv.ParseFloat p1) as [b e2].
  destruct (not_nil e1 || not_nil e2 || f64.eqb b (f64.of_Z 0)); cbn [fst snd].
  - split; reflexivity.
  - split; [| discriminate]. intros H. destruct (FormatFloat_f_nonempty _ H).
Qed.

(** ** The games of the upstream *)

Lemma fetchPreGames_tagged (up : Upstream) (sport : string) :
  sport = "soccer" \/ sport = "tennis" ->
  Forall (fun g => game_tagged g /\ Source g = "pre" /\ Sport g = sport)
         (fst (fetchPreGames up sport)).
Proof.
  intros Hsport. unfold fetchPreGames.
  destruct (get_pre up sport) as [resp | e]; [| constructor].
  cbn [fst]. apply List.Forall_forall. intros g Hin.
  apply in_map_iff in Hin as (p & <- & _). cbn.
  repeat split; try reflexivity; [exact Hsport | left; reflexivity |].
  destruct (parseUnixMaybe (pre_time p)) as [t|] eqn:E; [| exact I].
  exact (parseUnixMaybe_Some _ _ E).
Qed.

Lemma fetchLiveGames_tagged (up : Upstream) (sport : string) :
  sport = "soccer" \/ sport = "tennis" ->
  Forall (fun g => game_tagged g /\ Source g = "live" /\ Sport g = sport)
         (fst (fetchLiveGames up sport)).
Proof.
  intros Hsport. unfold fetchLiveGames.
  destruct (get_live up sport) as [root | e]; [| constructor].
  destruct (root !! "games") as [[| | | | arr |]|]; try constructor.
  cbn [fst]. apply List.Forall_forall. intros g Hin.
  apply in_flat_map in Hin as (a & _ & Hin).
  destruct a as [| | | | | m]; cbn [live_game In] in Hin; try contradiction.
  destruct Hin as [<- | []]. cbn.
  repeat split; try reflexivity; [exact Hsport | right; reflexivity |].
  destruct (parseUnixMaybe (fmt.Sprintv (mapindex m "time"))) as [t|] eqn:E; [| exact I].
  exact (parseUnixMaybe_Some _ _ E).
Qed.

(** The aggregate of [fetchAllGames]: the pre-match games, then the
    live games, all of them tagged. *)
Lemma fetchAllGames_parts (up : Upstream) :
  exists pre live,
    fetchAllGames up = (pre ++ live, None)
    /\ Forall (fun g => game_tagged g /\ Source g = "pre") pre
    /\ Forall (fun g => game_tagged g /\ Source g = "live") live.
Proof.
  pose proof (fetchPreGames_tagged up "soccer" (or_introl eq_refl)) as H1.
  pose proof (fetchPreGames_tagged up "tennis" (or_intror eq_refl)) as H2.
  pose proof (fetchLiveGames_tagged up "soccer" (or_introl eq_refl)) as H3.
  pose proof (fetchLiveGames_tagged up "tennis" (or_intror eq_refl)) as H4.
  assert (Hpick : forall (P : Game -> Prop) r, Forall P (fst r) -> Forall P (fetched_games r)).
  { intros P [g [e|]] H; [constructor | exact H]. }
  exists (fetched_games (fetchPreGames up "soccer")
          ++ fetched_games (fetchPreGames up "tennis")),
         (fetched_games (fetchLiveGames up "soccer")
          ++ fetched_games (fetchLiveGames up "tennis")).
  split.
  - unfold fetchAllGames.
    destruct (fetchPreGames up "soccer") as [g1 [e1|]];
      destruct (fetchPreGames up "tennis") as [g2 [e2|]];
      destruct (fetchLiveGames up "soccer") as [g3 [e3|]];
      destruct (fetchLiveGames up "tennis") as [g4 [e4|]];
      cbn [fetched_games]; rewrite ?app_nil_r, ?app_nil_l, <- ?app_assoc; reflexivity.
  - rewrite !Forall_app. repeat split; apply Hpick;
      (eapply Forall_impl; [eassumption | cbv beta; tauto]).
Qed.

Lemma fetchAllGames_all_tagged (up : Upstream) :
  snd (fetchAllGames up) = None /\ Forall game_tagged (fst (fetchAllGames up)).
Proof.
  destruct (fetchAllGames_parts up) as (pre & live & -> & Hpre & Hlive).
  split; [reflexivity |]. cbn [fst]. apply Forall_app.
  split; (eapply Forall_impl; [eassumption | cbv beta; tauto]).
Qed.

(** X5. Every game that [fetchAllGames] aggregates carries the
    bookmaker [bet365], the sport [soccer] or [tennis], the source
    [pre] or [live], and a start that is absent or after the epoch; the
    pre-match games come first, the live games after them, and the call
    itself never fails. *)
Theorem fetchAllGames_tagged (up : Upstream) :
  snd (fetchAllGames up) = None
  /\ Forall game_tagged (fst (fetchAllGames up))
  /\ exists pre live,
       fst (fetchAllGames up) = pre ++ live
       /\ Forall (fun g => Source g = "pre") pre
       /\ Forall (fun g => Source g = "live") live.
Proof.
  destruct (fetchAllGames_all_tagged up) as [Herr Hall].
  split; [exact Herr |]. split; [exact Hall |].
  destruct (fetchAllGames_parts up) as (pre & live & E & Hpre & Hlive).
  exists pre, live. rewrite E. split; [reflexivity |].
  split; (eapply Forall_impl; [eassumption | cbv beta; tauto]).
Qed.

(** X6. The two fetchers of games lose no record and invent none.
    [fetchPreGames] gives one game for each element of the decoded
    [games_pre], in order and under its id; [fetchLiveGames] gives one
    game for each element of ["games"] that is an object, skips the
    others, and takes a missing ["games"], or one that is no array, for
    an empty list without an error.  Either one fails exactly when the
    request or the decoding failed, and then with that error and no
    game. *)
Theorem fetch_games_complete (up : Upstream) (sport : string) :
  match get_pre up sport with
  | Fetched resp =>
    snd (fetchPreGames up sport) = None
    /\ map GameID (fst (fetchPreGames up sport)) = map pre_game_id resp
    /\ map StartsAt (fst (fetchPreGames up sport))
       = map (fun p => parseUnixMaybe (pre_time p)) resp
  | Failed e => fetchPreGames up sport = ([], Some e)
  end
  /\ match get_live up sport with
     | Fetched root =>
       snd (fetchLiveGames up sport) = None
       /\ length (fst (fetchLiveGames up sport))
          = length (List.filter is_object (live_array root))
     | Failed e => fetchLiveGames up sport = ([], Some e)
     end.
Proof.
  split.
  - unfold fetchPreGames. destruct (get_pre up sport) as [resp | e]; [| reflexivity].
    cbn [fst snd]. rewrite !map_map. repeat split.
  - unfold fetchLiveGames, live_array. destruct (get_live up sport) as [root | e]; [| reflexivity].
    destruct (root !! "games") as [[| | | | arr |]|]; try (split; reflexivity).
    cbn [fst snd]. split; [reflexivity |].
    induction arr as [|a arr IH]; [reflexivity |].
    cbn [flat_map List.filter]. rewrite length_app, IH.
    destruct a; reflexivity.
Qed.

(** X7. A live game without a ["game_id"] is not skipped:
    [fetchLiveGames] gives it the id ["<nil>"], the text [fmt] prints
    for a missing member, and so does every other text field that is
    missing; without a ["time"] it has no start. *)
Theorem live_game_missing_fields
    (up : Upstream) (sport : string) (root : gmap string any) (arr : list any)
    (m : gmap string any) :
  get_live up sport = Fetched root ->
  root !! "games" = Some (ASlice arr) ->
  In (AMap m) arr ->
  m !! "game_id" = None ->
  exists g, In g (fst (fetchLiveGames up sport))
            /\ GameID g = "<nil>"
            /\ (m !! "league" = None -> League g = "<nil>")
            /\ (m !! "time" = None -> StartsAt g = None).
Proof.
  intros Hget Hgames Hin Hid. unfold fetchLiveGames. rewrite Hget, Hgames. cbn [fst].
  eexists. split.
  - apply in_flat_map. exists (AMap m). split; [exact Hin | left; reflexivity].
  - cbn [GameID League StartsAt]. unfold mapindex. rewrite Hid. split; [reflexivity |].
    split; intros ->; reflexivity.
Qed.

(** ** The records of [fetchLiveOdds] *)

Lemma fracToDecimal_no_trailing_zero (s : string) :
  trailing_zero (fst (fst (fracToDecimal s))) = false.
Proof.
  unfold fracToDecimal.
  destruct (strings.Split (strings.TrimSpace s) "/") as [|p0 [|p1 [|p2 ps]]]; try reflexivity.
  destruct (strconv.ParseFloat p0) as [a e1], (strconv.ParseFloat p1) as [b e2].
  destruct (not_nil e1 || not_nil e2 || f64.eqb b (f64.of_Z 0)); [reflexivity |].
  apply FormatFloat_f_no_trailing_zero.
Qed.

Lemma odds_item_stamped (gameID sport : string) (now : Time)
    (st : pass) (item : gmap string any) :
  Forall (odd_stamped gameID sport now) (odds st) ->
  Forall (odd_stamped gameID sport now) (odds (odds_item gameID sport now st item)).
Proof.
  intros Hst. unfold odds_item.
  destruct (String.eqb _ "MG"); [exact Hst |].
  destruct (String.eqb _ "PA"); [| exact Hst].
  destruct (getOddsField item) as [oddsStr [|]]; [| exact Hst]. cbn [negb].
  pose proof (fracToDecimal_no_trailing_zero oddsStr) as Hz.
  destruct (fracToDecimal oddsStr) as [[priceDec priceFrac] ok]. cbn [odds fst] in *.
  apply Forall_app. split; [exact Hst |].
  constructor; [| constructor]. repeat split. exact Hz.
Qed.

Lemma run_stamped (gameID sport : string) (now : Time) (items : list (gmap string any)) :
  forall st,
    Forall (odd_stamped gameID sport now) (odds st) ->
    Forall (odd_stamped gameID sport now) (odds (run gameID sport now items st)).
Proof.
  induction items as [|item items IH]; intros st Hst; [exact Hst |].
  rewrite run_cons. apply IH, odds_item_stamped, Hst.
Qed.

Lemma fetchLiveOdds_stamped (up : Upstream) (gameID sport : string) :
  Forall (odd_stamped gameID sport (time_Now up)) (fst (fetchLiveOdds up gameID sport)).
Proof.
  destruct (get_liveodds up gameID) as [resp | e] eqn:E.
  - rewrite (fetchLiveOdds_fetched _ _ _ _ E). apply run_stamped. constructor.
  - unfold fetchLiveOdds. rewrite E. constructor.
Qed.

(** X8. The records of one call of [fetchLiveOdds]: there is one for
    each selection (["PA"]) that has one of the odds keys, whatever
    else the response holds; each carries the game and the sport of the
    call, the bookmaker [bet365], the one time read before the pass,
    and a decimal price that does not end in a zero of its fraction.
    When the request or the decoding fails the call gives that error
    and no record. *)
Theorem fetchLiveOdds_records (up : Upstream) (gameID sport : string) :
  match get_liveodds up gameID with
  | Fetched resp =>
    snd (fetchLiveOdds up gameID sport) = None
    /\ length (fst (fetchLiveOdds up gameID sport))
       = length (filter (fun i => emits i = true) (concat (Results resp)))
    /\ Forall (odd_stamped gameID sport (time_Now up)) (fst (fetchLiveOdds up gameID sport))
  | Failed e => fetchLiveOdds up gameID sport = ([], Some e)
  end.
Proof.
  destruct (get_liveodds up gameID) as [resp | e] eqn:E.
  - rewrite (fetchLiveOdds_fetched _ _ _ _ E). cbn [fst snd]. split; [reflexivity |]. split.
    + rewrite run_length. reflexivity.
    + pose proof (fetchLiveOdds_stamped up gameID sport) as H.
      rewrite (fetchLiveOdds_fetched _ _ _ _ E) in H. exact H.
  - unfold fetchLiveOdds. rewrite E. reflexivity.
Qed.

(** X9. How the upstream groups the records of a [liveodds] response
    is of no consequence: two responses whose groups hold the same
    records in the same order, however cut into groups, give the same
    records. *)
Theorem fetchLiveOdds_grouping (up1 up2 : Upstream) (gameID sport : string)
    (r1 r2 : APIResponse) :
  get_liveodds up1 gameID = Fetched r1 ->
  get_liveodds up2 gameID = Fetched r2 ->
  time_Now up1 = time_Now up2 ->
  concat (Results r1) = concat (Results r2) ->
  fetchLiveOdds up1 gameID sport = fetchLiveOdds up2 gameID sport.
Proof.
  intros H1 H2 Hnow Hcat.
  rewrite (fetchLiveOdds_fetched _ _ _ _ H1), (fetchLiveOdds_fetched _ _ _ _ H2).
  rewrite Hnow, Hcat. reflexivity.
Qed.

(** ** The tables after a write *)

Lemma round_trip_eq (db : DB) :
  round_trip db
  = (hd None (db_faults db),
     {| games := games db; liveodds := liveodds db; db_now := db_now db;
        db_current_date := db_current_date db; db_faults := tl (db_faults db) |}).
Proof. destruct db as [g o n d [|f fs]]; reflexivity. Qed.

(** The row under [id] after a batch of upserts: that of the last game
    of the batch with this id, or the one that was there. *)
Lemma upsert_games_last (l : list Game) :
  forall db id,
    games (fold_left upsert_game l db) !! id
    = match last_game id l with
      | Some g => Some (game_row (db_now db) g)
      | None => games db !! id
      end.
Proof.
  induction l as [|g l IH]; intros db id; [reflexivity |].
  cbn [fold_left last_game]. rewrite IH.
  destruct (last_game id l) as [g'|]; [reflexivity |].
  unfold upsert_game. cbn [games set_games].
  destruct (String.eqb_spec (GameID g) id) as [<- | Hne].
  - rewrite lookup_insert_eq. reflexivity.
  - rewrite lookup_insert_ne by exact Hne. reflexivity.
Qed.

Lemma upsert_odds_last (l : list LiveOdd) :
  forall db k,
    liveodds (fold_left upsert_odd l db) !! k
    = match last_odd k l with
      | Some o => Some (odd_row o)
      | None => liveodds db !! k
      end.
Proof.
  induction l as [|o l IH]; intros db k; [reflexivity |].
  cbn [fold_left last_odd]. rewrite IH.
  destruct (last_odd k l) as [o'|]; [reflexivity |].
  unfold upsert_odd. cbn [liveodds set_liveodds].
  destruct (bool_decide_reflect (odd_key o = k)) as [<- | Hne].
  - unfold odd_key. rewrite lookup_insert_eq. reflexivity.
  - rewrite lookup_insert_ne by exact Hne. reflexivity.
Qed.

Lemma upsert_games_frame (l : list Game) :
  forall db,
    liveodds (fold_left upsert_game l db) = liveodds db
    /\ db_now (fold_left upsert_game l db) = db_now db
    /\ db_current_date (fold_left upsert_game l db) = db_current_date db
    /\ db_faults (fold_left upsert_game l db) = db_faults db.
Proof.
  induction l as [|g l IH]; intros db; [repeat split |].
  cbn [fold_left]. destruct (IH (upsert_game db g)) as (-> & -> & -> & ->). repeat split.
Qed.

Lemma upsert_odds_frame (l : list LiveOdd) :
  forall db,
    games (fold_left upsert_odd l db) = games db
    /\ db_now (fold_left upsert_odd l db) = db_now db
    /\ db_current_date (fold_left upsert_odd l db) = db_current_date db
    /\ db_faults (fold_left upsert_odd l db) = db_faults db.
Proof.
  induction l as [|o l IH]; intros db; [repeat split |].
  cbn [fold_left]. destruct (IH (upsert_odd db o)) as (-> & -> & -> & ->). repeat split.
Qed.

Lemma delete_old_games_kept (db : DB) (id : string) :
  games (delete_old_games db) !! id = kept_game (db_current_date db) (games db !! id).
Proof.
  unfold delete_old_games, kept_game. cbn [games set_games].
  rewrite map_lookup_filter. destruct (games db !! id) as [row|]; [| reflexivity].
  cbn. destruct (game_is_old (db_current_date db) row); reflexivity.
Qed.

Lemma delete_old_liveodds_kept (db : DB) (k : string * string * string) :
  liveodds (delete_old_liveodds db) !! k = kept_odd (db_now db) (liveodds db !! k).
Proof.
  unfold delete_old_liveodds, kept_odd. cbn [liveodds set_liveodds].
  rewrite map_lookup_filter. destruct (liveodds db !! k) as [row|]; [| reflexivity].
  cbn. destruct (odd_is_old (db_now db) row); reflexivity.
Qed.

Lemma delete_old_liveodds_lookup (db : DB) (k : string * string * string)
    (row : liveodds_row.t) :
  liveodds (delete_old_liveodds db) !! k = Some row ->
  liveodds db !! k = Some row /\ odd_is_old (db_now db) row = false.
Proof.
  unfold delete_old_liveodds. cbn [liveodds set_liveodds].
  intros H. apply map_lookup_filter_Some in H as [H1 H2]. split; assumption.
Qed.

(** What a run of [upsertGames] on a batch that is not empty does, by
    the answers of the server to its two round trips. *)
Lemma upsertGames_run (db : DB) (l : list Game) :
  l <> [] ->
  upsertGames db l
  = match hd None (db_faults db) with
    | Some e =>
      (Some (ErrWrap "failed to delete old games" e),
       {| games := games db; liveodds := liveodds db; db_now := db_now db;
          db_current_date := db_current_date db; db_faults := tl (db_faults db) |})
    | None =>
      let pruned :=
        {| games := games (delete_old_games db); liveodds := liveodds db;
           db_now := db_now db; db_current_date := db_current_date db;
           db_faults := tl (tl (db_faults db)) |} in
      match hd None (tl (db_faults db)) with
      | Some e => (Some e, pruned)
      | None => (None, fold_left upsert_game l pruned)
      end
    end.
Proof.
  intros Hne. destruct l as [|g l]; [congruence |].
  unfold upsertGames, Exec, SendBatch. rewrite round_trip_eq.
  destruct (hd None (db_faults db)) as [e|]; [reflexivity |].
  rewrite round_trip_eq. cbn [db_faults delete_old_games set_games games liveodds db_now
                                db_current_date].
  destruct (hd None (tl (db_faults db))) as [e|]; reflexivity.
Qed.

Lemma insertLiveOdds_run (db : DB) (l : list LiveOdd) :
  l <> [] ->
  insertLiveOdds db l
  = match hd None (db_faults db) with
    | Some e =>
      (Some (ErrWrap "failed to delete old live odds" e),
       {| games := games db; liveodds := liveodds db; db_now := db_now db;
          db_current_date := db_current_date db; db_faults := tl (db_faults db) |})
    | None =>
      let pruned :=
        {| games := games db; liveodds := liveodds (delete_old_liveodds db);
           db_now := db_now db; db_current_date := db_current_date db;
           db_faults := tl (tl (db_faults db)) |} in
      match hd None (tl (db_faults db)) with
      | Some e => (Some e, pruned)
      | None => (None, fold_left upsert_odd l pruned)
      end
    end.
Proof.
  intros Hne. destruct l as [|o l]; [congruence |].
  unfold insertLiveOdds, Exec, SendBatch. rewrite round_trip_eq.
  destruct (hd None (db_faults db)) as [e|]; [reflexivity |].
  rewrite round_trip_eq. cbn [db_faults delete_old_liveodds set_liveodds games liveodds db_now
                                db_current_date].
  destruct (hd None (tl (db_faults db))) as [e|]; reflexivity.
Qed.

(** The table [games] after a run of [upsertGames] that succeeded. *)
Lemma upsertGames_lookup (db db' : DB) (l : list Game) (id : string) :
  l <> [] ->
  upsertGames db l = (None, db') ->
  games db' !! id
  = match last_game id l with
    | Some g => Some (game_row (db_now db) g)
    | None => kept_game (db_current_date db) (games db !! id)
    end
  /\ liveodds db' = liveodds db
  /\ db_now db' = db_now db
  /\ db_current_date db' = db_current_date db.
Proof.
  intros Hne H. rewrite (upsertGames_run _ _ Hne) in H.
  destruct (hd None (db_faults db)) as [e|]; [discriminate |]. cbv zeta in H.
  destruct (hd None (tl (db_faults db))) as [e|]; [discriminate |].
  injection H as <-.
  rewrite upsert_games_last. cbn [games db_now].
  pose proof (delete_old_games_kept db id) as Hk.
  unfold delete_old_games in Hk. cbn [games set_games] in Hk. rewrite Hk.
  match goal with
  | |- context [fold_left upsert_game l ?p] =>
    destruct (upsert_games_frame l p) as (-> & -> & -> & _)
  end.
  repeat split.
Qed.

Lemma insertLiveOdds_lookup (db db' : DB) (l : list LiveOdd) (k : string * string * string) :
  l <> [] ->
  insertLiveOdds db l = (None, db') ->
  liveodds db' !! k
  = match last_odd k l with
    | Some o => Some (odd_row o)
    | None => kept_odd (db_now db) (liveodds db !! k)
    end
  /\ games db' = games db
  /\ db_now db' = db_now db
  /\ db_current_date db' = db_current_date db.
Proof.
  intros Hne H. rewrite (insertLiveOdds_run _ _ Hne) in H.
  destruct (hd None (db_faults db)) as [e|]; [discriminate |]. cbv zeta in H.
  destruct (hd None (tl (db_faults db))) as [e|]; [discriminate |].
  injection H as <-.
  rewrite upsert_odds_last. cbn [liveodds].
  pose proof (delete_old_liveodds_kept db k) as Hk.
  unfold delete_old_liveodds in Hk. cbn [liveodds set_liveodds] in Hk. rewrite Hk.
  match goal with
  | |- context [fold_left upsert_odd l ?p] =>
    destruct (upsert_odds_frame l p) as (-> & -> & -> & _)
  end.
  repeat split.
Qed.

Lemma last_game_id (id : string) (l : list Game) (g : Game) :
  last_game id l = Some g -> In g l /\ GameID g = id.
Proof.
  induction l as [|x l IH]; [discriminate |]. cbn [last_game].
  destruct (last_game id l) as [g'|].
  - intros [= ->]. destruct (IH eq_refl) as [Hin Hid]. split; [right; exact Hin | exact Hid].
  - destruct (String.eqb_spec (GameID x) id) as [Hx |]; [| discriminate].
    intros [= <-]. split; [left; reflexivity | exact Hx].
Qed.

Lemma last_game_none (id : string) (l : list Game) :
  last_game id l = None -> forall g, In g l -> GameID g <> id.
Proof.
  induction l as [|x l IH]; [intros _ g [] |]. cbn [last_game].
  destruct (last_game id l) as [g'|]; [discriminate |].
  destruct (String.eqb_spec (GameID x) id) as [| Hx]; [discriminate |].
  intros _ g [<- | Hin]; [exact Hx | apply IH; [reflexivity | exact Hin]].
Qed.

Lemma last_odd_key (k : string * string * string) (l : list LiveOdd) (o : LiveOdd) :
  last_odd k l = Some o -> In o l /\ odd_key o = k.
Proof.
  induction l as [|x l IH]; [discriminate |]. cbn [last_odd].
  destruct (last_odd k l) as [o'|].
  - intros [= ->]. destruct (IH eq_refl) as [Hin Hid]. split; [right; exact Hin | exact Hid].
  - destruct (bool_decide_reflect (odd_key x = k)) as [Hx |]; [| discriminate].
    intros [= <-]. split; [left; reflexivity | exact Hx].
Qed.

Lemma last_odd_none (k : string * string * string) (l : list LiveOdd) :
  last_odd k l = None -> forall o, In o l -> odd_key o <> k.
Proof.
  induction l as [|x l IH]; [intros _ o [] |]. cbn [last_odd].
  destruct (last_odd k l) as [o'|]; [discriminate |].
  destruct (bool_decide_reflect (odd_key x = k)) as [| Hx]; [discriminate |].
  intros _ o [<- | Hin]; [exact Hx | apply IH; [reflexivity | exact Hin]].
Qed.

(** X10. The table [games] after a run of [upsertGames] that
    succeeded on a batch that is not empty, row by row.  Under an id of
    the batch lies the row of the last game of the batch with this id,
    all columns overwritten and [updated_at] set to the clock of the
    server (one row for each id, the last writer wins); under any other
    id lies the row that was there, unless its [starts_at] was before
    the current date, in which case there is none.  The table
    [liveodds] is as it was. *)
Theorem upsertGames_table (db db' : DB) (l : list Game) (id : string) :
  l <> [] ->
  upsertGames db l = (None, db') ->
  games db' !! id
  = match last_game id l with
    | Some g => Some (game_row (db_now db) g)
    | None => kept_game (db_current_date db) (games db !! id)
    end
  /\ (forall g, last_game id l = Some g -> In g l /\ GameID g = id)
  /\ (last_game id l = None -> forall g, In g l -> GameID g <> id)
  /\ liveodds db' = liveodds db.
Proof.
  intros Hne H. destruct (upsertGames_lookup _ _ _ id Hne H) as (Hrow & Hodds & _).
  split; [exact Hrow |]. split; [apply last_game_id |]. split; [apply last_game_none | exact Hodds].
Qed.

(** X11. [upsertGames] is idempotent but for the time of the write.
    When a batch that is not empty went through, and a second run on
    the same batch, at a later time of the server, goes through as
    well, then under each id of the batch lies after either run the row
    of the same game (the last of the batch with this id), all columns
    equal but [updated_at], which is the clock of the run; under any
    other id lies after the second run what the first run left, unless
    a new current date made it old; on the same current date the rows
    outside the batch are exactly those the first run left.  With
    both clocks as in the first run the two tables are equal. *)
Theorem upsertGames_idempotent (db db1 db1' db2 : DB) (l : list Game) (id : string) :
  l <> [] ->
  upsertGames db l = (None, db1) ->
  games db1' = games db1 ->
  upsertGames db1' l = (None, db2) ->
  match last_game id l with
  | Some g =>
    games db1 !! id = Some (game_row (db_now db) g)
    /\ games db2 !! id = Some (game_row (db_now db1') g)
  | None =>
    games db2 !! id = kept_game (db_current_date db1') (games db1 !! id)
    /\ (db_current_date db1' = db_current_date db -> games db2 !! id = games db1 !! id)
  end
  /\ (db_now db1' = db_now db -> db_current_date db1' = db_current_date db ->
      games db2 = games db1).
Proof.
  intros Hne H1 Hsame H2.
  assert (Hrow : forall i,
             games db1 !! i
             = match last_game i l with
               | Some g => Some (game_row (db_now db) g)
               | None => kept_game (db_current_date db) (games db !! i)
               end
             /\ games db2 !! i
                = match last_game i l with
                  | Some g => Some (game_row (db_now db1') g)
                  | None => kept_game (db_current_date db1') (games db1 !! i)
                  end).
  { intros i.
    destruct (upsertGames_lookup _ _ _ i Hne H1) as (E1 & _).
    destruct (upsertGames_lookup _ _ _ i Hne H2) as (E2 & _).
    rewrite Hsame in E2. split; assumption. }
  assert (Hkept : forall i, last_game i l = None ->
             db_current_date db1' = db_current_date db ->
             kept_game (db_current_date db1') (games db1 !! i) = games db1 !! i).
  { intros i Hi Hdate. destruct (Hrow i) as [E1 _]. rewrite Hi in E1.
    rewrite E1, Hdate. unfold kept_game.
    destruct (games db !! i) as [row|]; [| reflexivity].
    destruct (game_is_old (db_current_date db) row) eqn:Eold; [reflexivity |].
    rewrite Eold. reflexivity. }
  split.
  - destruct (Hrow id) as [E1 E2].
    destruct (last_game id l) as [g|] eqn:El.
    + split; assumption.
    + split; [exact E2 |]. intros Hdate. rewrite E2. apply Hkept; assumption.
  - intros Hnow Hdate. apply map_eq. intros i.
    destruct (Hrow i) as [E1 E2]. rewrite E2.
    destruct (last_game i l) as [g|] eqn:El.
    + rewrite E1, Hnow. reflexivity.
    + apply Hkept; assumption.
Qed.

(** X12. The table [liveodds] after a run of [insertLiveOdds] that
    succeeded on a batch that is not empty, row by row.  Under the key
    (game, market, selection) of an odd of the batch lies the row of
    the last odd of the batch with this key; under any other key lies
    the row that was there, unless it was fetched more than a day
    before the clock of the server, in which case there is none.  A row
    that old can so only be one the batch itself wrote.  The table
    [games] is as it was. *)
Theorem insertLiveOdds_table
    (db db' : DB) (l : list LiveOdd) (k : string * string * string) :
  l <> [] ->
  insertLiveOdds db l = (None, db') ->
  liveodds db' !! k
  = match last_odd k l with
    | Some o => Some (odd_row o)
    | None => kept_odd (db_now db) (liveodds db !! k)
    end
  /\ (forall o, last_odd k l = Some o -> In o l /\ odd_key o = k)
  /\ (forall row, liveodds db' !! k = Some row -> odd_is_old (db_now db) row = true ->
        exists o, In o l /\ odd_key o = k /\ Odd.FetchedAt o = liveodds_row.fetched_at row)
  /\ games db' = games db.
Proof.
  intros Hne H. destruct (insertLiveOdds_lookup _ _ _ k Hne H) as (Hrow & Hgames & _).
  split; [exact Hrow |]. split; [apply last_odd_key |]. split; [| exact Hgames].
  intros row Hk Hold. rewrite Hrow in Hk.
  destruct (last_odd k l) as [o|] eqn:El.
  - injection Hk as <-. destruct (last_odd_key _ _ _ El) as [Hin Hkey].
    exists o. repeat split; assumption.
  - unfold kept_odd in Hk. destruct (liveodds db !! k) as [row'|]; [| discriminate].
    destruct (odd_is_old (db_now db) row') eqn:E; [discriminate |].
    injection Hk as ->. congruence.
Qed.

(** X13. A run of [upsertGames] that fails writes no row of its
    batch: every row of [games] afterwards was there before, unchanged,
    and [liveodds] is as it was.  When the prune is what failed, the
    error is wrapped with the name of the step and the table is
    untouched; when the batch is what failed, the error comes back as
    it is and the prune stays done, the two being separate statements. *)
Theorem upsertGames_failure (db db' : DB) (l : list Game) (e : go_error) :
  upsertGames db l = (Some e, db') ->
  (forall id row, games db' !! id = Some row -> games db !! id = Some row)
  /\ liveodds db' = liveodds db
  /\ match hd None (db_faults db) with
     | Some e0 => e = ErrWrap "failed to delete old games" e0 /\ games db' = games db
     | None => hd None (tl (db_faults db)) = Some e
               /\ games db' = games (delete_old_games db)
     end.
Proof.
  intros H. destruct l as [|g0 l0]; [discriminate |].
  rewrite upsertGames_run in H by discriminate.
  destruct (hd None (db_faults db)) as [e0|].
  - injection H as <- <-. cbn [games liveodds]. repeat split. auto.
  - cbv zeta in H. destruct (hd None (tl (db_faults db))) as [e1|]; [| discriminate].
    injection H as <- <-. cbn [games liveodds]. repeat split.
    intros id row Hrow. apply delete_old_games_lookup in Hrow as [Hrow _]. exact Hrow.
Qed.

(** X14. A run of [insertLiveOdds] that fails writes no row of its
    batch: every row of [liveodds] afterwards was there before,
    unchanged, and [games] is as it was.  When the prune is what
    failed, the error is wrapped with the name of the step and the
    table is untouched; when the batch is what failed, the error comes
    back as it is and the prune stays done. *)
Theorem insertLiveOdds_failure (db db' : DB) (l : list LiveOdd) (e : go_error) :
  insertLiveOdds db l = (Some e, db') ->
  (forall k row, liveodds db' !! k = Some row -> liveodds db !! k = Some row)
  /\ games db' = games db
  /\ match hd None (db_faults db) with
     | Some e0 => e = ErrWrap "failed to delete old live odds" e0
                  /\ liveodds db' = liveodds db
     | None => hd None (tl (db_faults db)) = Some e
               /\ liveodds db' = liveodds (delete_old_liveodds db)
     end.
Proof.
  intros H. destruct l as [|o0 l0]; [discriminate |].
  rewrite insertLiveOdds_run in H by discriminate.
  destruct (hd None (db_faults db)) as [e0|].
  - injection H as <- <-. cbn [games liveodds]. repeat split. auto.
  - cbv zeta in H. destruct (hd None (tl (db_faults db))) as [e1|]; [| discriminate].
    injection H as <- <-. cbn [games liveodds]. repeat split.
    intros k row Hrow. apply delete_old_liveodds_lookup in Hrow as [Hrow _]. exact Hrow.
Qed.

(** ** The two handlers and the tables *)

Lemma upsertGames_liveodds (db : DB) (l : list Game) :
  liveodds (snd (upsertGames db l)) = liveodds db.
Proof.
  destruct l as [|g0 l0]; [reflexivity |].
  rewrite upsertGames_run by discriminate.
  destruct (hd None (db_faults db)) as [e0|]; [reflexivity |]. cbv zeta.
  destruct (hd None (tl (db_faults db))) as [e1|]; [reflexivity |]. cbn [snd].
  match goal with
  | |- context [fold_left upsert_game ?l ?p] =>
    destruct (upsert_games_frame l p) as (-> & _)
  end.
  reflexivity.
Qed.

Lemma update_liveodds_loop_games (up : Upstream) (ids : list string) :
  forall db n, games (snd (update_liveodds_loop up ids db n)) = games db.
Proof.
  induction ids as [|id ids IH]; intros db n; [reflexivity |].
  cbn [update_liveodds_loop].
  destruct (getGameSport_tables db id) as [Hg _].
  destruct (getGameSport db id) as [[sport e] db1]. cbn [snd] in Hg.
  destruct (fetchLiveOdds up id sport) as [odds [err|]]; [rewrite IH; exact Hg |].
  pose proof (insertLiveOdds_games db1 odds) as Hi.
  destruct (insertLiveOdds db1 odds) as [[err|] db2]; cbn [snd] in Hi;
    rewrite IH; congruence.
Qed.

(** X15. The two synchronisers keep to their own table.  Whatever the
    upstream and the server answer, [/sync-games] leaves the table
    [liveodds] as it was, and [/update-liveodds] leaves the table
    [games] as it was. *)
Theorem handlers_keep_to_their_table (up : Upstream) (db : DB) :
  liveodds (snd (sync_games up db)) = liveodds db
  /\ games (snd (update_liveodds up db)) = games db.
Proof.
  split.
  - unfold sync_games. destruct (fetchAllGames up) as [all [e|]]; [reflexivity |].
    pose proof (upsertGames_liveodds db all) as H.
    destruct (upsertGames db all) as [[e|] db']; exact H.
  - unfold update_liveodds, fetchLiveGameIDs. rewrite round_trip_eq.
    destruct (hd None (db_faults db)) as [e|]; [reflexivity |].
    match goal with
    | |- context [update_liveodds_loop up ?ids ?d 0] =>
      pose proof (update_liveodds_loop_games up ids d 0) as H;
      destruct (update_liveodds_loop up ids d 0) as [n db']
    end.
    exact H.
Qed.

(** ** The queries *)

Lemma insert_sorted_perm {A : Type} (k : string) (v : A) (l : list (string * A)) :
  Permutation (insert_sorted k v l) ((k, v) :: l).
Proof.
  induction l as [|[k' v'] l IH]; [reflexivity |]. cbn [insert_sorted].
  destruct (String.leb k k'); [reflexivity |].
  rewrite IH. apply perm_swap.
Qed.

(** The entries of [sorted_entries] are those of the map, each key once. *)
Lemma sorted_entries_spec {A : Type} (m : gmap string A) :
  (forall k v, In (k, v) (sorted_entries m) <-> m !! k = Some v)
  /\ List.NoDup (map fst (sorted_entries m)).
Proof.
  unfold sorted_entries.
  apply (map_fold_weak_ind
           (fun r m => (forall k v, In (k, v) r <-> m !! k = Some v)
                       /\ List.NoDup (map fst r))).
  - split; [| constructor]. intros k v. rewrite lookup_empty. split; [intros [] | discriminate].
  - intros i x m' r Hi [Hin Hnd]. split.
    + intros k v. rewrite lookup_insert_Some.
      split.
      * intros H. apply (Permutation_in _ (insert_sorted_perm i x r)) in H.
        destruct H as [[= -> ->] | H]; [left; split; reflexivity |].
        right. apply Hin in H. split; [intros ->; congruence | exact H].
      * intros H. apply (Permutation_in _ (Permutation_sym (insert_sorted_perm i x r))).
        destruct H as [[-> ->] | [_ H]]; [left; reflexivity | right; apply Hin, H].
    + apply (Permutation_NoDup (Permutation_sym (Permutation_map fst (insert_sorted_perm i x r)))).
      cbn [map fst]. constructor; [| exact Hnd].
      intros H. apply in_map_iff in H as ([k v] & Hk & H). cbn [fst] in Hk. subst k.
      apply Hin in H. congruence.
Qed.

Lemma fetchLiveGameIDs_listed (db : DB) (id : string) :
  hd None (db_faults db) = None ->
  In id (fst (fst (fetchLiveGameIDs db)))
  <-> exists row, games db !! id = Some row /\ in_play row = true.
Proof.
  intros Hok. unfold fetchLiveGameIDs. rewrite round_trip_eq, Hok. cbn [fst games].
  rewrite in_map_iff. split.
  - intros ([k row] & Hk & H). cbn [fst] in Hk. subst k.
    apply sorted_entries_spec in H. apply map_lookup_filter_Some in H as [H1 H2].
    exists row. split; [exact H1 | exact H2].
  - intros (row & H1 & H2). exists (id, row). split; [reflexivity |].
    apply sorted_entries_spec. apply map_lookup_filter_Some. split; [exact H1 | exact H2].
Qed.


(** X17. What [upsertGames] writes, the two queries of the live-odds
    path read back.  After a run that succeeded, and with the server
    answering, [getGameSport] gives for an id of the batch the sport of
    the last game of the batch with this id, and [fetchLiveGameIDs]
    lists this id exactly when that game has the source [live] and the
    status ["1"]. *)
Theorem upsert_then_query (db db' : DB) (l : list Game) (id : string) (g : Game) :
  upsertGames db l = (None, db') ->
  last_game id l = Some g ->
  hd None (db_faults db') = None ->
  fst (getGameSport db' id) = (Sport g, None)
  /\ (In id (fst (fst (fetchLiveGameIDs db')))
      <-> Source g = "live" /\ TimeStatus g = "1").
Proof.
  intros Hup Hlast Hok.
  assert (Hne : l <> []) by (intros ->; discriminate).
  destruct (upsertGames_lookup _ _ _ id Hne Hup) as (Hrow & _). rewrite Hlast in Hrow.
  split.
  - unfold getGameSport. rewrite round_trip_eq, Hok. cbn [games]. rewrite Hrow. reflexivity.
  - rewrite (fetchLiveGameIDs_listed _ _ Hok). rewrite Hrow. unfold in_play. split.
    + intros (row & [= <-] & H). cbn in H. apply andb_true_iff in H as [H1 H2].
      split; apply String.eqb_eq; assumption.
    + intros [H1 H2]. eexists. split; [reflexivity |]. cbn.
      rewrite H1, H2. reflexivity.
Qed.

(** ** The rows the handlers write *)

(** A row found after [upsertGames], whatever its outcome, was there
    before or is the row of a game of the batch. *)
Lemma upsertGames_rows (db : DB) (l : list Game) (id : string) (row : games_row.t) :
  games (snd (upsertGames db l)) !! id = Some row ->
  games db !! id = Some row
  \/ exists g, In g l /\ GameID g = id /\ row = game_row (db_now db) g.
Proof.
  destruct l as [|g0 l0]; [left; assumption |].
  set (l := g0 :: l0). rewrite upsertGames_run by discriminate.
  destruct (hd None (db_faults db)) as [e0|]; [left; assumption |]. cbv zeta.
  destruct (hd None (tl (db_faults db))) as [e1|]; cbn [snd].
  - intros H. apply delete_old_games_lookup in H as [H _]. left. exact H.
  - rewrite upsert_games_last. cbn [db_now].
    destruct (last_game id l) as [g|] eqn:El.
    + intros [= <-]. destruct (last_game_id _ _ _ El) as [Hin Hid].
      right. exists g. repeat split; assumption.
    + intros H. apply delete_old_games_lookup in H as [H _]. left. exact H.
Qed.

Lemma insertLiveOdds_rows (db : DB) (l : list LiveOdd) (k : string * string * string)
    (row : liveodds_row.t) :
  liveodds (snd (insertLiveOdds db l)) !! k = Some row ->
  liveodds db !! k = Some row
  \/ exists o, In o l /\ odd_key o = k /\ row = odd_row o.
Proof.
  destruct l as [|o0 l0]; [left; assumption |].
  set (l := o0 :: l0). rewrite insertLiveOdds_run by discriminate.
  destruct (hd None (db_faults db)) as [e0|]; [left; assumption |]. cbv zeta.
  destruct (hd None (tl (db_faults db))) as [e1|]; cbn [snd].
  - intros H. apply delete_old_liveodds_lookup in H as [H _]. left. exact H.
  - rewrite upsert_odds_last.
    destruct (last_odd k l) as [o|] eqn:El.
    + intros [= <-]. destruct (last_odd_key _ _ _ El) as [Hin Hid].
      right. exists o. repeat split; assumption.
    + intros H. apply delete_old_liveodds_lookup in H as [H _]. left. exact H.
Qed.

(** X18. The rows of [games] after [/sync-games], whatever the
    upstream and the server answered: a row is one that was there
    before the request, unchanged, or one the request wrote, and then
    it carries the bookmaker [bet365], the sport [soccer] or [tennis],
    the source [pre] or [live], the clock of the server as
    [updated_at], and a start that is NULL or after the epoch. *)
Theorem sync_games_rows (up : Upstream) (db : DB) (id : string) (row : games_row.t) :
  games (snd (sync_games up db)) !! id = Some row ->
  games db !! id = Some row \/ row_tagged (db_now db) row.
Proof.
  intros H.
  destruct (fetchAllGames_all_tagged up) as [Herr Htag].
  unfold sync_games in H. destruct (fetchAllGames up) as [all err]. cbn [fst snd] in *.
  subst err.
  assert (H' : games (snd (upsertGames db all)) !! id = Some row)
    by (destruct (upsertGames db all) as [[e|] db']; exact H).
  apply upsertGames_rows in H' as [H' | (g & Hin & _ & ->)]; [left; exact H' |].
  right. rewrite List.Forall_forall in Htag. destruct (Htag g Hin) as (Hb & Hs & Hsrc & Hst).
  unfold row_tagged, game_row. cbn. repeat split; try assumption.
  destruct (StartsAt g) as [t|]; [| exact I].
  destruct Hst as (sec & Hsec & ->). unfold time_Unix. lia.
Qed.

Lemma getGameSport_sport (db : DB) (id : string) (r : games_row.t) :
  games db !! id = Some r ->
  fst (fst (getGameSport db id)) = games_row.sport r \/ fst (fst (getGameSport db id)) = "".
Proof.
  intros H. unfold getGameSport. rewrite round_trip_eq.
  destruct (hd None (db_faults db)) as [e|]; [right; reflexivity |].
  cbn [games]. rewrite H. left. reflexivity.
Qed.

(** A row found after the loop of [/update-liveodds] was there before,
    or is the row of a record fetched for one of the ids. *)
Lemma update_liveodds_loop_rows (up : Upstream) (ids : list string) :
  forall db n k row,
    liveodds (snd (update_liveodds_loop up ids db n)) !! k = Some row ->
    liveodds db !! k = Some row
    \/ exists id o sport,
         In id ids /\ odd_key o = k /\ row = odd_row o
         /\ odd_stamped id sport (time_Now up) o
         /\ (forall r, games db !! id = Some r -> sport = games_row.sport r \/ sport = "").
Proof.
  induction ids as [|id ids IH]; intros db n k row H; [left; exact H |].
  cbn [update_liveodds_loop] in H.
  destruct (getGameSport_tables db id) as [Hg Hl].
  assert (Hsport : forall r, games db !! id = Some r ->
                     fst (fst (getGameSport db id)) = games_row.sport r
                     \/ fst (fst (getGameSport db id)) = "")
    by (intros r; apply getGameSport_sport).
  destruct (getGameSport db id) as [[sport e] db1]. cbn [fst snd] in Hg, Hl, Hsport.
  pose proof (fetchLiveOdds_stamped up id sport) as Hstamp.
  assert (Hrest : forall db2 m,
             games db2 = games db ->
             liveodds (snd (update_liveodds_loop up ids db2 m)) !! k = Some row ->
             liveodds db2 !! k = Some row
             \/ exists id' o sport',
                  In id' (id :: ids) /\ odd_key o = k /\ row = odd_row o
                  /\ odd_stamped id' sport' (time_Now up) o
                  /\ (forall r, games db !! id' = Some r ->
                        sport' = games_row.sport r \/ sport' = "")).
  { intros db2 m Hg2 H2. apply IH in H2 as [H2 | (id' & o & sport' & Hin & Hk & Hr & Hs & Hsp)].
    - left. exact H2.
    - right. exists id', o, sport'. rewrite Hg2 in Hsp.
      split; [right; exact Hin |]. split; [exact Hk |]. split; [exact Hr |].
      split; [exact Hs | exact Hsp]. }
  destruct (fetchLiveOdds up id sport) as [odds [err|]]; cbn [fst] in Hstamp.
  - apply Hrest in H as [H | H]; [left; congruence | right; exact H | exact Hg].
  - pose proof (insertLiveOdds_games db1 odds) as Hg2.
    pose proof (insertLiveOdds_rows db1 odds k row) as Hrows.
    assert (H2 : liveodds (snd (insertLiveOdds db1 odds)) !! k = Some row
                 \/ exists id' o sport',
                      In id' (id :: ids) /\ odd_key o = k /\ row = odd_row o
                      /\ odd_stamped id' sport' (time_Now up) o
                      /\ (forall r, games db !! id' = Some r ->
                            sport' = games_row.sport r \/ sport' = "")).
    { destruct (insertLiveOdds db1 odds) as [[err|] db2]; cbn [snd] in *;
        (apply Hrest in H; [exact H | congruence]). }
    destruct H2 as [H2 | H2]; [| right; exact H2].
    apply Hrows in H2 as [H2 | (o & Hin & Hk & Hr)]; [left; congruence |].
    right. exists id, o, sport. rewrite List.Forall_forall in Hstamp.
    split; [left; reflexivity |]. split; [exact Hk |]. split; [exact Hr |].
    split; [apply Hstamp, Hin | exact Hsport].
Qed.

(** X19. The rows of [liveodds] after [/update-liveodds], whatever
    the upstream and the server answered: a row is one that was there
    before the request, unchanged, or one the request wrote, and then
    its game is a live game in play of the table [games], and the row
    carries the bookmaker [bet365], the time of the application read
    at the fetch of its game, a decimal price that does not end in a
    zero of its fraction, and as sport the sport of the game, or the
    empty text when the lookup of the sport failed. *)
Theorem update_liveodds_rows
    (up : Upstream) (db : DB) (k : string * string * string) (row : liveodds_row.t) :
  liveodds (snd (update_liveodds up db)) !! k = Some row ->
  liveodds db !! k = Some row
  \/ exists game,
       games db !! fst (fst k) = Some game
       /\ in_play game = true
       /\ liveodds_row.bookmaker row = "bet365"
       /\ liveodds_row.fetched_at row = time_Now up
       /\ trailing_zero (liveodds_row.price_dec row) = false
       /\ (liveodds_row.sport row = games_row.sport game \/ liveodds_row.sport row = "").
Proof.
  intros H. unfold update_liveodds in H.
  destruct (hd None (db_faults db)) as [e|] eqn:Hok.
  - left. unfold fetchLiveGameIDs in H. rewrite round_trip_eq, Hok in H. exact H.
  - pose proof (fetchLiveGameIDs_listed db) as Hids.
    unfold fetchLiveGameIDs in H, Hids. rewrite round_trip_eq, Hok in H, Hids.
    cbn [fst games] in Hids.
    match type of H with
    | context [update_liveodds_loop up ?ids ?d 0] =>
      pose proof (update_liveodds_loop_rows up ids d 0 k row) as Hrows;
      destruct (update_liveodds_loop up ids d 0) as [n db']
    end.
    cbn [snd liveodds games] in H, Hrows.
    destruct (Hrows H) as [Hold | (id & o & sport & Hin & Hk & Hr & Hs & Hsp)];
      [left; exact Hold |].
    right. apply Hids in Hin as (game & Hgame & Hplay); [| reflexivity].
    destruct Hs as (Hg & Hsport & Hb & Hf & Hz).
    exists game. subst k row. unfold odd_key, odd_row. cbn.
    rewrite Hg. repeat split; try assumption.
    rewrite Hsport. apply Hsp, Hgame.
Qed.

(** X20. With no live game in play in the table [games] and the
    server answering, [/update-liveodds] asks the upstream nothing,
    reports zero records and leaves both tables as they were. *)
Theorem update_liveodds_nothing_live (up : Upstream) (db : DB) :
  hd None (db_faults db) = None ->
  (forall id row, games db !! id = Some row -> in_play row = false) ->
  fst (update_liveodds up db) = OddsUpdated 0
  /\ games (snd (update_liveodds up db)) = games db
  /\ liveodds (snd (update_liveodds up db)) = liveodds db
  /\ fst (fst (fetchLiveGameIDs db)) = [].
Proof.
  intros Hok Hnone.
  assert (Hids : fst (fst (fetchLiveGameIDs db)) = []).
  { destruct (fst (fst (fetchLiveGameIDs db))) as [|id ids] eqn:E; [reflexivity |].
    assert (Hin : In id (fst (fst (fetchLiveGameIDs db)))) by (rewrite E; left; reflexivity).
    apply (fetchLiveGameIDs_listed _ _ Hok) in Hin as (row & Hrow & Hplay).
    rewrite (Hnone _ _ Hrow) in Hplay. discriminate. }
  unfold update_liveodds.
  destruct (fetchLiveGameIDs db) as [[ids err] db1] eqn:E. cbn [fst] in Hids. subst ids.
  unfold fetchLiveGameIDs in E. rewrite round_trip_eq, Hok in E.
  injection E as _ <- <-. repeat split.
Qed.

(** ** The further properties at the sample data *)

(** X1 at " 5/2" followed by a tab and a space. *)
Lemma outer_space_ignored_witness :
  fracToDecimal (" " +:+ "5/2" +:+ String (chr 9) " ") = fracToDecimal "5/2"
  /\ snd (fst (fracToDecimal (" " +:+ "5/2" +:+ String (chr 9) " "))) = "5/2"
  /\ parseUnixMaybe (" " +:+ "5/2" +:+ String (chr 9) " ") = parseUnixMaybe "5/2".
Proof. apply (outer_space_ignored " " (String (chr 9) " ") "5/2"); reflexivity. Defined.

(** X2 at the text of a second of 2020. *)
Lemma parseUnixMaybe_positive_witness :
  parseUnixMaybe "1600000000" = Some (time_Unix 1600000000)
  /\ 0 < time_Unix 1600000000
  /\ exists sec, 0 < sec < 2 ^ 63 /\ time_Unix 1600000000 = time_Unix sec.
Proof.
  assert (H : parseUnixMaybe "1600000000" = Some (time_Unix 1600000000))
    by (vm_compute; reflexivity).
  split; [exact H |]. exact (parseUnixMaybe_positive _ _ H).
Defined.

(** X3 at a second of 2025, at zero and at [2^63]. *)
Lemma parseUnixMaybe_digits_witness :
  parseUnixMaybe (" " +:+ "1750040000" +:+ " ") = Some (time_Unix 1750040000)
  /\ parseUnixMaybe ("" +:+ "000" +:+ "") = None
  /\ parseUnixMaybe ("" +:+ "9223372036854775808" +:+ "") = None.
Proof.
  split; [| split].
  - rewrite (parseUnixMaybe_digits " " " " "1750040000");
      [vm_compute; reflexivity | reflexivity | reflexivity | discriminate | reflexivity].
  - rewrite (parseUnixMaybe_digits "" "" "000");
      [vm_compute; reflexivity | reflexivity | reflexivity | discriminate | reflexivity].
  - rewrite (parseUnixMaybe_digits "" "" "9223372036854775808");
      [vm_compute; reflexivity | reflexivity | reflexivity | discriminate | reflexivity].
Defined.

(** X7 at a document whose second game has neither id, league nor time. *)
Lemma live_game_missing_fields_witness :
  exists g, In g (fst (fetchLiveGames bare_up "tennis"))
            /\ GameID g = "<nil>" /\ League g = "<nil>" /\ StartsAt g = None.
Proof.
  destruct (live_game_missing_fields bare_up "tennis" bare_live
              [AMap (obj [("game_id", AString "7"); ("time", AString "1750040000");
                          ("time_status", AString "1")]);
               AMap (obj [("time_status", AString "1"); ("home", AString "Cy")])]
              (obj [("time_status", AString "1"); ("home", AString "Cy")]))
    as (g & Hin & Hid & Hleague & Hstart);
    [reflexivity | vm_compute; reflexivity | right; left; reflexivity
     | vm_compute; reflexivity |].
  exists g. split; [exact Hin |]. split; [exact Hid |].
  split; [apply Hleague | apply Hstart]; vm_compute; reflexivity.
Defined.

(** X9 at the stream of the specification cut in two ways. *)
Lemma fetchLiveOdds_grouping_witness :
  length (Results sample_odds) <> length (Results regrouped_odds)
  /\ fetchLiveOdds sample_up "42" "tennis" = fetchLiveOdds regrouped_up "42" "tennis".
Proof.
  split; [discriminate |].
  apply (fetchLiveOdds_grouping sample_up regrouped_up "42" "tennis" sample_odds regrouped_odds);
    reflexivity.
Defined.

(** X10 at the sample games: the pre-match game "g1" is in the table
    with the sport of the fetch, the old row "g0" is gone. *)
Lemma upsertGames_table_witness :
  sample_games <> []
  /\ fst (upsertGames old_db sample_games) = None
  /\ (games_row.sport <$> games (snd (upsertGames old_db sample_games)) !! "g1")
     = Some "soccer"
  /\ games (snd (upsertGames old_db sample_games)) !! "g0" = None.
Proof.
  assert (Hne : sample_games <> []) by (vm_compute; congruence).
  assert (H : upsertGames old_db sample_games
              = (None, snd (upsertGames old_db sample_games)))
    by (vm_compute; reflexivity).
  split; [exact Hne |]. split; [rewrite H; reflexivity |].
  destruct (upsertGames_table _ _ _ "g1" Hne H) as (H1 & _).
  destruct (upsertGames_table _ _ _ "g0" Hne H) as (H0 & _).
  rewrite H1, H0. split; vm_compute; reflexivity.
Defined.

Lemma at_clock_games (now today : Time) (db : DB) : games (at_clock now today db) = games db.
Proof. reflexivity. Qed.

(** X11 at the sample games, the second run one second later: the row
    "g1" is that of the same game, written one second later, and so
    the two tables differ. *)
Lemma upsertGames_idempotent_witness :
  exists g,
    last_game "g1" sample_games = Some g
    /\ games once_db !! "g1" = Some (game_row (db_now old_db) g)
    /\ games twice_db !! "g1" = Some (game_row (db_now old_db + 1000000000) g)
    /\ games twice_db <> games once_db.
Proof.
  assert (Hne : sample_games <> []) by (vm_compute; congruence).
  assert (H1 : upsertGames old_db sample_games = (None, once_db)) by (vm_compute; reflexivity).
  assert (H2 : upsertGames later_db sample_games = (None, twice_db))
    by (vm_compute; reflexivity).
  destruct (last_game "g1" sample_games) as [g|] eqn:El; [| vm_compute in El; discriminate].
  pose proof (upsertGames_idempotent old_db once_db later_db twice_db sample_games "g1" Hne H1
                (at_clock_games _ _ once_db) H2) as [Hrow _].
  rewrite El in Hrow. destruct Hrow as [E1 E2].
  change (db_now later_db) with (db_now old_db + 1000000000) in E2.
  exists g. split; [reflexivity |]. split; [exact E1 |]. split; [exact E2 |].
  intros Heq. rewrite Heq, E1 in E2.
  apply (f_equal (fun o => match o with
                           | Some r => games_row.updated_at r
                           | None => 0
                           end)) in E2.
  cbn [game_row games_row.updated_at] in E2. lia.
Defined.

(** X12 at the odds of the game "42": the selection "S1" of the market
    "M1" is in the table, the stale row is gone. *)
Lemma insertLiveOdds_table_witness :
  sample_batch <> []
  /\ odd_is_old (db_now stale_db) stale_odd = true
  /\ liveodds stale_db !! ("42", "M0", "S0") = Some stale_odd
  /\ fst (insertLiveOdds stale_db sample_batch) = None
  /\ (liveodds_row.price_dec
        <$> liveodds (snd (insertLiveOdds stale_db sample_batch)) !! ("42", "M1", "S1"))
     = Some "3.5"
  /\ liveodds (snd (insertLiveOdds stale_db sample_batch)) !! ("42", "M0", "S0") = None.
Proof.
  assert (Hne : sample_batch <> []) by (vm_compute; congruence).
  assert (H : insertLiveOdds stale_db sample_batch
              = (None, snd (insertLiveOdds stale_db sample_batch)))
    by (vm_compute; reflexivity).
  split; [exact Hne |]. split; [vm_compute; reflexivity |].
  split; [vm_compute; reflexivity |]. split; [rewrite H; reflexivity |].
  destruct (insertLiveOdds_table _ _ _ ("42", "M1", "S1") Hne H) as (H1 & _).
  destruct (insertLiveOdds_table _ _ _ ("42", "M0", "S0") Hne H) as (H0 & _).
  rewrite H1, H0. split; vm_compute; reflexivity.
Defined.

(** X13 at a server that refuses the prune: the old row stays. *)
Lemma upsertGames_failure_witness :
  fst (upsertGames (answering [Some (ErrExternal "connection reset")] old_db) sample_games)
  = Some (ErrWrap "failed to delete old games" (ErrExternal "connection reset"))
  /\ games (snd (upsertGames (answering [Some (ErrExternal "connection reset")] old_db)
                   sample_games))
     = games old_db.
Proof.
  assert (H : upsertGames (answering [Some (ErrExternal "connection reset")] old_db)
                sample_games
              = (Some (ErrWrap "failed to delete old games" (ErrExternal "connection reset")),
                 snd (upsertGames (answering [Some (ErrExternal "connection reset")] old_db)
                        sample_games)))
    by (vm_compute; reflexivity).
  split; [rewrite H; reflexivity |].
  destruct (upsertGames_failure _ _ _ _ H) as (_ & _ & _ & Hg). exact Hg.
Defined.

(** X14 at a server that accepts the prune and refuses the batch: the
    stale row is gone, no odd is written. *)
Lemma insertLiveOdds_failure_witness :
  fst (insertLiveOdds (answering [None; Some (ErrExternal "connection reset")] stale_db)
         sample_batch)
  = Some (ErrExternal "connection reset")
  /\ liveodds (snd (insertLiveOdds
                      (answering [None; Some (ErrExternal "connection reset")] stale_db)
                      sample_batch))
     = ∅.
Proof.
  assert (H : insertLiveOdds (answering [None; Some (ErrExternal "connection reset")] stale_db)
                sample_batch
              = (Some (ErrExternal "connection reset"),
                 snd (insertLiveOdds
                        (answering [None; Some (ErrExternal "connection reset")] stale_db)
                        sample_batch)))
    by (vm_compute; reflexivity).
  split; [rewrite H; reflexivity |].
  destruct (insertLiveOdds_failure _ _ _ _ H) as (_ & _ & _ & Hl).
  rewrite Hl. vm_compute. reflexivity.
Defined.

(** X17 at the sample games: the live tennis game "42" is found with
    its sport and listed; the pre-match game "g1" is not listed. *)
Lemma upsert_then_query_witness :
  fst (getGameSport (snd (upsertGames old_db sample_games)) "42") = ("tennis", None)
  /\ In "42" (fst (fst (fetchLiveGameIDs (snd (upsertGames old_db sample_games)))))
  /\ ~ In "g1" (fst (fst (fetchLiveGameIDs (snd (upsertGames old_db sample_games))))).
Proof.
  assert (H : upsertGames old_db sample_games
              = (None, snd (upsertGames old_db sample_games)))
    by (vm_compute; reflexivity).
  destruct (last_game "42" sample_games) as [g42|] eqn:E42; [| vm_compute in E42; discriminate].
  destruct (last_game "g1" sample_games) as [g1|] eqn:E1; [| vm_compute in E1; discriminate].
  destruct (upsert_then_query _ _ _ "42" g42 H E42) as [Hs Hl]; [reflexivity |].
  destruct (upsert_then_query _ _ _ "g1" g1 H E1) as [_ Hl1]; [reflexivity |].
  vm_compute in E42. injection E42 as <-. vm_compute in E1. injection E1 as <-.
  split; [exact Hs |]. split.
  - apply Hl. split; reflexivity.
  - intros Hin. destruct Hl1 as [Hfwd _]. destruct (Hfwd Hin) as [Hsrc _].
    cbn [Source] in Hsrc. discriminate Hsrc.
Defined.

(** X18 at the sample data: the row "g1" is one the request wrote. *)
Lemma sync_games_rows_witness :
  exists row,
    games (snd (sync_games sample_up old_db)) !! "g1" = Some row
    /\ games old_db !! "g1" = None
    /\ row_tagged (db_now old_db) row.
Proof.
  destruct (games (snd (sync_games sample_up old_db)) !! "g1") as [row|] eqn:E;
    [| vm_compute in E; discriminate].
  exists row. split; [reflexivity |]. split; [vm_compute; reflexivity |].
  destruct (sync_games_rows sample_up old_db "g1" row E) as [Hold | Hnew]; [| exact Hnew].
  vm_compute in Hold. discriminate.
Defined.

(** X19 at the sample data: the row of the selection "S1" is one the
    request wrote, for the live game "42". *)
Lemma update_liveodds_rows_witness :
  exists row game,
    liveodds (snd (update_liveodds sample_up live_db)) !! ("42", "M1", "S1") = Some row
    /\ liveodds live_db !! ("42", "M1", "S1") = None
    /\ games live_db !! "42" = Some game
    /\ in_play game = true
    /\ liveodds_row.bookmaker row = "bet365"
    /\ liveodds_row.fetched_at row = time_Now sample_up.
Proof.
  destruct (liveodds (snd (update_liveodds sample_up live_db)) !! ("42", "M1", "S1"))
    as [row|] eqn:E; [| vm_compute in E; discriminate].
  destruct (update_liveodds_rows sample_up live_db _ row E)
    as [Hold | (game & Hg & Hp & Hb & Hf & _)]; [vm_compute in Hold; discriminate |].
  exists row, game. split; [reflexivity |]. split; [vm_compute; reflexivity |].
  repeat split; assumption.
Defined.

(** X20 at a store whose only game is a pre-match game. *)
Lemma update_liveodds_nothing_live_witness :
  update_liveodds sample_up old_db = (OddsUpdated 0, old_db).
Proof.
  assert (Hnone : forall id row, games old_db !! id = Some row -> in_play row = false).
  { intros id row H. unfold old_db in H. cbn [games] in H.
    apply lookup_singleton_Some in H as [_ <-]. reflexivity. }
  destruct (update_liveodds_nothing_live sample_up old_db eq_refl Hnone) as (H1 & _).
  destruct (update_liveodds sample_up old_db) as [r db'] eqn:E. cbn [fst] in H1. subst r.
  vm_compute in E. injection E as <-. reflexivity.
Defined.
